(** * web.py: episode scraper with a per-title, one-day file cache

    A shallow embedding of [web.py] and the properties of its fetch, resolve
    and cache pipeline.

    Conventions of the model.
    - A Python [str] is a [string]; a character is read as a code point
      below 256, and the character classes of [re] and of [str.strip] are
      the Unicode ones restricted to that range.
    - [int(s)] raises [ValueError] on more than 4300 digits, the default
      limit of CPython since 3.11.
    - The network, [BeautifulSoup(_, "html.parser")], [json.loads] and
      [json.dump(_, indent=2)] are collaborators of the script: they are
      variables of the section that holds the program.
    - The process state is a record [World]: the files and directories the
      script manages, the clock read by [time.time()], the requests sent
      through the shared [session], the lines printed, and the table behind
      [@lru_cache] on [get_postid].
    - A Python function is a computation [M A]: it takes a world and gives
      back either a value or a raised exception, with the next world.
    - A thread runs a task, or one pass of the loop over [as_completed], as
      one block.  Whose turn it is, which running task ends, and which of
      the futures found finished [as_completed] hands out first, is read
      from a schedule, so that a statement for every schedule is a
      statement for every order the executor allows.  The order of the log
      lines of different threads is the order of the schedule.
    - Time is a rational number of seconds; the rounding of Python floats
      is not modelled.
    - File system failures of [os.makedirs] and [open] are outside the
      model. *)

From Stdlib Require Import ZArith NArith QArith List Ascii String.
From Stdlib Require Import DecimalString DecimalN PrimFloat Floats Qround.
From Stdlib Require Import Permutation Lqa.
From stdpp Require Import gmap strings list.

Set Warnings "-register-all".

Local Open Scope string_scope.
Local Open Scope list_scope.

(** ** Text: characters, [str] methods and the three regular expressions *)

Module Text.

Definition code (c : ascii) : N := N_of_ascii c.

Definition between (lo hi : N) (c : ascii) : bool :=
  ((lo <=? code c) && (code c <=? hi))%N.

(** [\d] of [re] on [str]: Unicode category Nd, which below 256 is 0-9. *)
Definition is_digit (c : ascii) : bool := between 48 57 c.

(** [\w] of [re] on [str]: [str.isalnum()] or the underscore.  Below 256
    the alphanumerics are the ASCII letters and digits, the letters
    U+00AA, U+00B5, U+00BA, U+00C0-D6, U+00D8-F6, U+00F8-FF and the
    numerics U+00B2, U+00B3, U+00B9, U+00BC-BE. *)
Definition is_word (c : ascii) : bool :=
  between 48 57 c || between 65 90 c || between 97 122 c
  || (code c =? 95)%N
  || (code c =? 170)%N || (code c =? 181)%N || (code c =? 186)%N
  || between 178 179 c || (code c =? 185)%N || between 188 190 c
  || between 192 214 c || between 216 246 c || between 248 255 c.

(** Whitespace of [str.strip()] below 256. *)
Definition is_space (c : ascii) : bool :=
  between 9 13 c || between 28 32 c || (code c =? 133)%N || (code c =? 160)%N.

Definition is_dash (c : ascii) : bool := (code c =? 45)%N.
Definition is_slash (c : ascii) : bool := (code c =? 47)%N.

Definition nonempty (s : string) : bool :=
  match s with EmptyString => false | String _ _ => true end.

(** The longest prefix of [s] whose characters satisfy [p], and the rest. *)
Fixpoint span (p : ascii -> bool) (s : string) : string * string :=
  match s with
  | EmptyString => (EmptyString, EmptyString)
  | String c s' =>
      if p c then let (a, b) := span p s' in (String c a, b)
      else (EmptyString, s)
  end.

Fixpoint filter_chars (p : ascii -> bool) (s : string) : string :=
  match s with
  | EmptyString => EmptyString
  | String c s' =>
      if p c then String c (filter_chars p s') else filter_chars p s'
  end.

Fixpoint map_chars (f : ascii -> ascii) (s : string) : string :=
  match s with
  | EmptyString => EmptyString
  | String c s' => String (f c) (map_chars f s')
  end.

Fixpoint drop_while (p : ascii -> bool) (s : string) : string :=
  match s with
  | EmptyString => EmptyString
  | String c s' => if p c then drop_while p s' else s
  end.

Fixpoint rev_string (s : string) : string :=
  match s with
  | EmptyString => EmptyString
  | String c s' => rev_string s' +:+ String c EmptyString
  end.

(** [s.strip()] *)
Definition strip (s : string) : string :=
  rev_string (drop_while is_space (rev_string (drop_while is_space s))).

(** [s.startswith(p)] *)
Definition startswith (s p : string) : bool := String.prefix p s.

(** [Some rest] when [s = p ++ rest]. *)
Fixpoint strip_prefix (p s : string) : option string :=
  match p, s with
  | EmptyString, _ => Some s
  | String a p', String b s' =>
      if Ascii.eqb a b then strip_prefix p' s' else None
  | String _ _, EmptyString => None
  end.

(** [int(s)] on a run of digits. *)
Fixpoint int_of_digits_from (acc : N) (s : string) : N :=
  match s with
  | EmptyString => acc
  | String c s' => int_of_digits_from (acc * 10 + (code c - 48))%N s'
  end.

Definition int_of_digits (s : string) : N := int_of_digits_from 0 s.

(** [str(n)] for a non-negative [int]. *)
Definition str_of_N (n : N) : string := NilEmpty.string_of_uint (N.to_uint n).

(** [$] without [re.MULTILINE]: the end of the string, or just before a
    newline that ends the string. *)
Definition at_dollar (s : string) : bool :=
  match s with
  | EmptyString => true
  | String c EmptyString => (code c =? 10)%N
  | _ => false
  end.

Definition starts_with (p : ascii -> bool) (s : string) : bool :=
  match s with String c _ => p c | EmptyString => false end.

(** [re.search(r'-(\d+)(?:-|$)', url)]: group 1 of the leftmost match.
    At a dash, [\d+] takes the whole run of digits; giving digits back
    cannot help, since a digit is neither a dash nor the end. *)
Fixpoint search_episode_digits (url : string) : option string :=
  match url with
  | EmptyString => None
  | String c rest =>
      if is_dash c then
        let (ds, tail) := span is_digit rest in
        if nonempty ds && (starts_with is_dash tail || at_dollar tail)
        then Some ds
        else search_episode_digits rest
      else search_episode_digits rest
  end.

Definition SEASONS_PREFIX : string := "https://web.animerco.org/seasons/".

(** One attempt of [https://web\.animerco\.org/seasons/([^/]+)/] at the
    start of [s]: the literal, the longest run without a slash, a slash. *)
Definition match_seasons_here (s : string) : option string :=
  match strip_prefix SEASONS_PREFIX s with
  | Some rest =>
      let (name, tail) := span (fun c => negb (is_slash c)) rest in
      if nonempty name && starts_with is_slash tail then Some name else None
  | None => None
  end.

(** [pattern.search(base_url)]: group 1 of the leftmost match. *)
Fixpoint search_seasons_name (s : string) : option string :=
  match match_seasons_here s with
  | Some name => Some name
  | None =>
      match s with
      | EmptyString => None
      | String _ s' => search_seasons_name s'
      end
  end.

End Text.

(** ** The pure helpers of web.py *)

(** [get_anime_name_from_url(base_url)] *)
Definition get_anime_name_from_url (base_url : string) : string :=
  match Text.search_seasons_name base_url with
  | Some name => name
  | None => "unknown_anime"
  end.

(** [sanitize_filename(filename)] *)
Definition sanitize_filename (filename : string) : string :=
  let filename :=
    Text.map_chars (fun c => if (Text.code c =? 32)%N then "_"%char else c)
      filename in
  Text.filter_chars (fun c => Text.is_word c || Text.is_dash c) filename.

(** [f"cache/{safe_anime_name}.json"] of [scrape_and_save] *)
Definition cache_file_of (base_url : string) : string :=
  "cache/" +:+ sanitize_filename (get_anime_name_from_url base_url) +:+ ".json".

(** ** Parsed HTML, as [BeautifulSoup(_, "html.parser")] presents it *)

Module Html.

(** A tag carries its name, the tokens of its [class] attribute (a list in
    bs4) and its other attributes.  A string of the document is a
    [TextNode] when it is plain text (the classes [NavigableString] and
    [CData] of bs4), and an [OtherString] when it is a comment, a
    declaration, or the content of [script], [style] or another tag whose
    strings the builder sets apart ([Comment], [Script], [Stylesheet] and
    the like). *)
Inductive Node : Type :=
| TextNode (s : string)
| OtherString (s : string)
| Element (name : string) (classes : list string)
    (attrs : list (string * string)) (children : list Node).

(** A soup: the top-level nodes of the document. *)
Definition Soup : Type := list Node.

Definition is_tag (name : string) (n : Node) : bool :=
  match n with
  | Element nm _ _ _ => String.eqb nm name
  | TextNode _ | OtherString _ => false
  end.

Definition has_class (cls : string) (n : Node) : bool :=
  match n with
  | Element _ cs _ _ => existsb (String.eqb cls) cs
  | TextNode _ | OtherString _ => false
  end.

Fixpoint assoc {A : Type} (k : string) (l : list (string * A)) : option A :=
  match l with
  | [] => None
  | (k', v) :: l' => if String.eqb k' k then Some v else assoc k l'
  end.

(** [tag[name]] is [Some] of the attribute, [None] where Python raises
    [KeyError]; [tag.has_attr(name)] is [is_Some] of it. *)
Definition attr (name : string) (n : Node) : option string :=
  match n with
  | Element _ _ as_ _ => assoc name as_
  | TextNode _ | OtherString _ => None
  end.

Definition has_attr (name : string) (n : Node) : bool :=
  match attr name n with Some _ => true | None => false end.

Definition attr_is (name value : string) (n : Node) : bool :=
  match attr name n with Some v => String.eqb v value | None => false end.

(** What lies below a node, in document order. *)
Fixpoint descendants (n : Node) : list Node :=
  match n with
  | TextNode _ | OtherString _ => []
  | Element _ _ _ ch =>
      (fix go (l : list Node) : list Node :=
         match l with
         | [] => []
         | c :: l' => c :: descendants c ++ go l'
         end) ch
  end.

Definition soup_nodes (s : Soup) : list Node :=
  flat_map (fun n => n :: descendants n) s.

(** [node.find(...)] and [node.find_all(...)] with a test on tags. *)
Definition find_all (p : Node -> bool) (n : Node) : list Node :=
  List.filter p (descendants n).

Definition find (p : Node -> bool) (n : Node) : option Node :=
  List.find p (descendants n).

Definition soup_find (p : Node -> bool) (s : Soup) : option Node :=
  List.find p (soup_nodes s).

(** The tags that satisfy [target] and lie strictly below a tag that
    satisfies [anc]: the CSS selector [anc target], in document order. *)
Fixpoint select_below (anc target : Node -> bool) (inside : bool) (n : Node)
  : list Node :=
  match n with
  | TextNode _ | OtherString _ => []
  | Element _ _ _ ch =>
      (if inside && target n then [n] else [])
      ++ (fix go (l : list Node) : list Node :=
            match l with
            | [] => []
            | c :: l' => select_below anc target (inside || anc n) c ++ go l'
            end) ch
  end.

Definition soup_select (anc target : Node -> bool) (s : Soup) : list Node :=
  flat_map (select_below anc target false) s.

(** [node.text] of a tag such as [a] or [p]: the plain strings below the
    node, joined.  The other strings are left out. *)
Fixpoint text (n : Node) : string :=
  match n with
  | TextNode s => s
  | OtherString _ => EmptyString
  | Element _ _ _ ch =>
      (fix go (l : list Node) : string :=
         match l with
         | [] => EmptyString
         | c :: l' => text c +:+ go l'
         end) ch
  end.

End Html.

(** ** JSON values and Python dictionaries *)

(** The values [json.loads] builds and [json.dump] writes; Python's
    [None] is [JNull].  A [dict] keeps its keys in insertion order. *)
Inductive Json : Type :=
| JNull
| JBool (b : bool)
| JInt (z : Z)
| JFloat (f : float)
| JStr (s : string)
| JList (l : list Json)
| JDict (d : list (string * Json)).

Definition Dict : Type := list (string * Json).

Definition dict_get (k : string) (d : Dict) : option Json := Html.assoc k d.

(** [d[k] = v]: a present key keeps its place, a new key goes last. *)
Fixpoint dict_set (k : string) (v : Json) (d : Dict) : Dict :=
  match d with
  | [] => [(k, v)]
  | (k', v') :: d' =>
      if String.eqb k' k then (k, v) :: d' else (k', v') :: dict_set k v d'
  end.

Definition dict_keys (d : Dict) : list string := map fst d.

(** Python truth of a JSON value. *)
Definition truthy (j : Json) : bool :=
  match j with
  | JNull => false
  | JBool b => b
  | JInt z => negb (z =? 0)%Z
  | JFloat f => negb (PrimFloat.eqb f PrimFloat.zero)
  | JStr s => Text.nonempty s
  | JList l => match l with [] => false | _ => true end
  | JDict d => match d with [] => false | _ => true end
  end.

(** ** The world and the computations *)

Inductive Exn : Type :=
| RequestException (msg : string)
| KeyError (key : string)
| AttributeError
| TypeError
| ValueError
| JSONDecodeError.

Inductive Method : Type := GET | POST.

Inductive Body : Type :=
| NoBody
| RawBody (payload : string)
| FormBody (fields : list (string * string)).

(** One call of [session.get] or [session.post]. *)
Record Request : Type := mkRequest {
  method : Method;
  url : string;
  headers : list (string * string);
  data : Body;
  timeout : option Z
}.

(** A received response: [status_code], [text], and the message of the
    [HTTPError] that [raise_for_status] raises for it. *)
Record Response : Type := mkResponse {
  status_code : Z;
  text : string;
  http_error : string
}.

(** What the network does with a request: the exception raised by
    [requests] (timeouts included), or a response. *)
Inductive Outcome : Type :=
| Failed (msg : string)
| Answer (r : Response).

Record File : Type := mkFile { content : string; mtime : Q }.

(** The lines of standard output, one constructor for each [print]. *)
Inductive Msg : Type :=
| MsgPageFailed (url e : string)
| MsgNoPostid (episode_url : string)
| MsgEmbedFailed (episode_url e : string)
| MsgFoundEmbed (ep_num : N) (embed_url : Json)
| MsgBadJson (ep_num : N)
| MsgFoundLinks (total unique : nat) (base_url : string)
| MsgErrorProcessing (link : string) (e : Exn)
| MsgMainPageFailed (base_url e : string)
| MsgUploadRejected (answer : Json)
| MsgUploadError (e : Exn)
| MsgBgImageFailed (base_url e : string)
| MsgInvalidUrl (base_url : string)
| MsgUsingCache (cache_file : string) (file_age : Q)
| MsgScraping (base_url : string)
| MsgEpisodesFailed (base_url : string)
| MsgSaved (base_url cache_file : string)
| MsgCompleted (elapsed : Q).

Record World : Type := mkWorld {
  files : gmap string File;
  dirs : gset string;
  clock : Q;
  sent : list Request;
  printed : list Msg;
  postid_cache : list (string * option string)
}.

Inductive Result (A : Type) : Type :=
| Ok (a : A)
| Raise (e : Exn).
Arguments Ok {A} a.
Arguments Raise {A} e.

Definition M (A : Type) : Type := World -> Result A * World.

Definition ret {A : Type} (a : A) : M A := fun w => (Ok a, w).

Definition raise {A : Type} (e : Exn) : M A := fun w => (Raise e, w).

Definition bind {A B : Type} (m : M A) (k : A -> M B) : M B :=
  fun w =>
    match m w with
    | (Ok a, w') => k a w'
    | (Raise e, w') => (Raise e, w')
    end.

(** [try: m  except ...: h e]; [h e = None] when no clause catches [e]. *)
Definition try_except {A : Type} (m : M A) (h : Exn -> option (M A)) : M A :=
  fun w =>
    match m w with
    | (Ok a, w') => (Ok a, w')
    | (Raise e, w') =>
        match h e with
        | Some k => k w'
        | None => (Raise e, w')
        end
    end.

Declare Scope prog_scope.
Delimit Scope prog_scope with prog.
Notation "x <- m ;; k" := (bind m (fun x => k))
  (at level 90, m at level 80, right associativity) : prog_scope.
Notation "m ;;; k" := (bind m (fun _ => k))
  (at level 90, right associativity) : prog_scope.
Local Open Scope prog_scope.

(** [except requests.exceptions.RequestException as e] *)
Definition on_request_exception {A : Type} (k : string -> M A) (e : Exn)
  : option (M A) :=
  match e with
  | RequestException msg => Some (k msg)
  | _ => None
  end.

(** [except json.JSONDecodeError] *)
Definition on_json_decode_error {A : Type} (k : M A) (e : Exn) : option (M A) :=
  match e with
  | JSONDecodeError => Some k
  | _ => None
  end.

(** [except Exception as e] *)
Definition on_exception {A : Type} (k : Exn -> M A) (e : Exn) : option (M A) :=
  Some (k e).

Definition print (m : Msg) : M unit :=
  fun w =>
    (Ok tt, mkWorld (files w) (dirs w) (clock w) (sent w) (printed w ++ [m])
              (postid_cache w)).

(** [time.time()] *)
Definition time_time : M Q := fun w => (Ok (clock w), w).

Definition log_request (r : Request) : M unit :=
  fun w =>
    (Ok tt, mkWorld (files w) (dirs w) (clock w) (sent w ++ [r]) (printed w)
              (postid_cache w)).

Definition set_postid_cache (c : list (string * option string)) : M unit :=
  fun w => (Ok tt, mkWorld (files w) (dirs w) (clock w) (sent w) (printed w) c).

(** [os.makedirs(path, exist_ok=True)] *)
Definition makedirs (path : string) : M unit :=
  fun w =>
    (Ok tt, mkWorld (files w) ({[path]} ∪ dirs w) (clock w) (sent w)
              (printed w) (postid_cache w)).

(** [with open(path, "w") as f: f.write(text)] *)
Definition write_file (path text : string) : M unit :=
  fun w =>
    (Ok tt, mkWorld (<[path := mkFile text (clock w)]> (files w)) (dirs w)
              (clock w) (sent w) (printed w) (postid_cache w)).

(** [os.path.exists(path)] and [os.path.getmtime(path)] in one read. *)
Definition stat_file (path : string) : M (option Q) :=
  fun w => (Ok (mtime <$> files w !! path), w).

(** [j.get(key)]: only a [dict] has the method. *)
Definition py_get (j : Json) (key : string) : M Json :=
  match j with
  | JDict d => ret (match dict_get key d with Some v => v | None => JNull end)
  | _ => raise AttributeError
  end.

(** [j[key]] with a string key. *)
Definition py_index (j : Json) (key : string) : M Json :=
  match j with
  | JDict d =>
      match dict_get key d with
      | Some v => ret v
      | None => raise (KeyError key)
      end
  | _ => raise TypeError
  end.

(** [response.raise_for_status()] *)
Definition raise_for_status (r : Response) : M unit :=
  if ((400 <=? status_code r) && (status_code r <? 600))%Z
  then raise (RequestException (http_error r))
  else ret tt.

(** [future.result()]: the value of the task, or its exception again. *)
Definition future_result {A : Type} (r : Result A) : M A := fun w => (r, w).

(** A value or an exception computed without the world. *)
Definition eval {A : Type} (r : Result A) : M A := fun w => (r, w).

(** ** The episode number of a link *)

(** [sys.int_info.default_max_str_digits] *)
Definition MAX_STR_DIGITS : N := 4300.

(** [int(s)] on a run of digits: [ValueError] above the limit. *)
Definition py_int (s : string) : Result N :=
  if (MAX_STR_DIGITS <? N.of_nat (String.length s))%N then Raise ValueError
  else Ok (Text.int_of_digits s).

(** [extract_episode_number(url)] *)
Definition extract_episode_number (url : string) : Result (option N) :=
  match Text.search_episode_digits url with
  | Some ds =>
      match py_int ds with
      | Ok n => Ok (Some n)
      | Raise e => Raise e
      end
  | None => Ok None
  end.

(** [found or index]: [None] and [0] are falsy. *)
Definition number_or (found : option N) (index : N) : N :=
  match found with
  | Some n => if (n =? 0)%N then index else n
  | None => index
  end.

(** [extract_episode_number(link) or index] *)
Definition episode_number_or (link : string) (index : N) : Result N :=
  match extract_episode_number link with
  | Ok found => Ok (number_or found index)
  | Raise e => Raise e
  end.

(** ** [concurrent.futures]: the executor and [as_completed] *)

(** Workers take queued tasks, in submission order, until [max_workers]
    tasks are running. *)
Definition pool_fill {T : Type} (max_workers : nat) (queue running : list T)
  : list T * list T :=
  let free := (max_workers - length running)%nat in
  (drop free queue, running ++ take free queue).

(** Whose turn it is: a worker ends the task it runs, or the main thread
    goes one step on in its loop over [as_completed]. *)
Inductive Turn : Type :=
| Worker (pick : nat)
| Main (pick : nat).

(** The main thread and its loop [for future in as_completed(fs)]: not
    yet at the loop; in the loop, with the futures that [as_completed]
    found finished when it was entered and has not handed out yet (a set);
    or out of the loop by an exception of its body. *)
Inductive Collector (R : Type) : Type :=
| NotBegun
| Begun (found : list (nat * Result R))
| Gone (e : Exn).
Arguments NotBegun {R}.
Arguments Begun {R} found.
Arguments Gone {R} e.

(** The executor with its tasks, numbered at submission, and the main
    thread.  [pool_waiting] lists the futures that finished and were not
    handed out nor found, oldest first; [pool_acc] is what the loop
    carries from one pass to the next.  The last three lists are a record
    of the run: the futures in completion order, the numbers of the tasks
    that were running whenever one ended, and the futures in the order
    [as_completed] handed them out. *)
Record Pool (R S : Type) : Type := mkPool {
  pool_queue : list (nat * M R);
  pool_running : list (nat * M R);
  pool_waiting : list (nat * Result R);
  pool_collector : Collector R;
  pool_acc : S;
  pool_completed : list (nat * Result R);
  pool_snapshots : list (list nat);
  pool_yielded : list (nat * Result R);
  pool_world : World
}.
Arguments mkPool {R S}.
Arguments pool_queue {R S}.
Arguments pool_running {R S}.
Arguments pool_waiting {R S}.
Arguments pool_collector {R S}.
Arguments pool_acc {R S}.
Arguments pool_completed {R S}.
Arguments pool_snapshots {R S}.
Arguments pool_yielded {R S}.
Arguments pool_world {R S}.

(** A worker's turn: the free workers take tasks, then the running task
    picked runs to its end and its future is finished.  [None] when no
    task is left. *)
Definition work {R S : Type} (max_workers pick : nat) (p : Pool R S)
  : option (Pool R S) :=
  let (queue1, running1) := pool_fill max_workers (pool_queue p) (pool_running p) in
  match running1 with
  | [] => None
  | first :: _ =>
      let k := (pick mod length running1)%nat in
      let (i, task) := nth k running1 first in
      let (r, w1) := task (pool_world p) in
      Some (mkPool queue1 (delete k running1) (pool_waiting p ++ [(i, r)])
              (pool_collector p) (pool_acc p) (pool_completed p ++ [(i, r)])
              (pool_snapshots p ++ [map fst running1]) (pool_yielded p) w1)
  end.

(** [as_completed] hands the future [f] out and the body of the loop runs
    on it. *)
Definition yield_to {R S : Type} (body : nat -> Result R -> S -> M S)
    (f : nat * Result R) (found : list (nat * Result R))
    (waiting : list (nat * Result R)) (p : Pool R S) : Pool R S :=
  match body (fst f) (snd f) (pool_acc p) (pool_world p) with
  | (Ok acc, w1) =>
      mkPool (pool_queue p) (pool_running p) waiting (Begun found) acc
        (pool_completed p) (pool_snapshots p) (pool_yielded p ++ [f]) w1
  | (Raise e, w1) =>
      mkPool (pool_queue p) (pool_running p) waiting (Gone e) (pool_acc p)
        (pool_completed p) (pool_snapshots p) (pool_yielded p ++ [f]) w1
  end.

(** The main thread's turn.  Entering the loop, [as_completed] sets the
    futures already finished apart.  It hands those out first, in the
    order of a set, which is any order; then the others as they finish.
    [None] when the main thread has to wait, or has left the loop. *)
Definition collect {R S : Type} (body : nat -> Result R -> S -> M S)
    (pick : nat) (p : Pool R S) : option (Pool R S) :=
  match pool_collector p with
  | NotBegun =>
      Some (mkPool (pool_queue p) (pool_running p) [] (Begun (pool_waiting p))
              (pool_acc p) (pool_completed p) (pool_snapshots p)
              (pool_yielded p) (pool_world p))
  | Begun [] =>
      match pool_waiting p with
      | [] => None
      | f :: waiting => Some (yield_to body f [] waiting p)
      end
  | Begun (first :: others) =>
      let k := (pick mod length (first :: others))%nat in
      Some (yield_to body (nth k (first :: others) first)
              (delete k (first :: others)) (pool_waiting p) p)
  | Gone _ => None
  end.

(** One turn: the thread named takes it, and the other one when the
    thread named has nothing to do. *)
Definition take_turn {R S : Type} (body : nat -> Result R -> S -> M S)
    (max_workers : nat) (t : Turn) (p : Pool R S) : option (Pool R S) :=
  match t with
  | Worker pick =>
      match work max_workers pick p with
      | Some p' => Some p'
      | None => collect body pick p
      end
  | Main pick =>
      match collect body pick p with
      | Some p' => Some p'
      | None => work max_workers pick p
      end
  end.

(** The turns of the schedule, and turns of the workers when it is used
    up, until neither thread has anything to do. *)
Fixpoint pool_turns {R S : Type} (body : nat -> Result R -> S -> M S)
    (max_workers turns : nat) (sched : list Turn) (p : Pool R S) : Pool R S :=
  match turns with
  | O => p
  | S turns' =>
      match take_turn body max_workers (hd (Worker 0) sched) p with
      | Some p' => pool_turns body max_workers turns' (tl sched) p'
      | None => p
      end
  end.

(** [with ThreadPoolExecutor(max_workers) as executor] around the
    submission of [tasks] and the loop over [as_completed]: a turn to end
    each task, a turn to enter the loop and a turn to hand each future
    out. *)
Definition pool_as_completed {R S : Type} (max_workers : nat)
    (sched : list Turn) (tasks : list (nat * M R))
    (body : nat -> Result R -> S -> M S) (init : S) (w : World) : Pool R S :=
  pool_turns body max_workers (2 * length tasks + 1) sched
    (mkPool tasks [] [] NotBegun init [] [] [] w).

(** What the [with] block leaves: the value the loop carried, or the
    exception of its body. *)
Definition pool_result {R S : Type} (p : Pool R S) : Result S :=
  match pool_collector p with
  | Gone e => Raise e
  | _ => Ok (pool_acc p)
  end.

(** Three tasks of three result types on three workers: all of them run
    from the start, the schedule picks the first and the second to finish.
    The three futures are returned in submission order. *)
Definition pool3 {A B C : Type} (sched : list nat) (a : M A) (b : M B) (c : M C)
  : M (Result A * Result B * Result C) :=
  fun w =>
    match (hd O sched mod 3)%nat, (hd O (tl sched) mod 2)%nat with
    | O, O =>
        let (ra, w1) := a w in let (rb, w2) := b w1 in let (rc, w3) := c w2 in
        (Ok (ra, rb, rc), w3)
    | O, S _ =>
        let (ra, w1) := a w in let (rc, w2) := c w1 in let (rb, w3) := b w2 in
        (Ok (ra, rb, rc), w3)
    | S O, O =>
        let (rb, w1) := b w in let (ra, w2) := a w1 in let (rc, w3) := c w2 in
        (Ok (ra, rb, rc), w3)
    | S O, S _ =>
        let (rb, w1) := b w in let (rc, w2) := c w1 in let (ra, w3) := a w2 in
        (Ok (ra, rb, rc), w3)
    | S (S _), O =>
        let (rc, w1) := c w in let (ra, w2) := a w1 in let (rb, w3) := b w2 in
        (Ok (ra, rb, rc), w3)
    | S (S _), S _ =>
        let (rc, w1) := c w in let (rb, w2) := b w1 in let (ra, w3) := a w2 in
        (Ok (ra, rb, rc), w3)
    end.

(** ** [functools.lru_cache] on a function of one string *)

Definition cache_remove (key : string) (c : list (string * option string))
  : list (string * option string) :=
  List.filter (fun e => negb (String.eqb (fst e) key)) c.

(** The table lists the most recently used entry first.  A hit moves its
    entry to the front; a miss calls the function and, when it returns,
    stores the value and drops what exceeds [maxsize].  A call that raises
    stores nothing. *)
Definition lru_cache (maxsize : nat) (f : string -> M (option string))
    (key : string) : M (option string) :=
  fun w =>
    match Html.assoc key (postid_cache w) with
    | Some v =>
        (set_postid_cache ((key, v) :: cache_remove key (postid_cache w)) ;;;
         ret v) w
    | None =>
        (v <- f key ;;
         (fun w1 =>
            set_postid_cache (take maxsize ((key, v) :: postid_cache w1)) w1) ;;;
         ret v) w
    end.

(** ** Constants of web.py *)

Definition dq : string := String (ascii_of_nat 34) EmptyString.

Definition ADMIN_URL : string := "https://web.animerco.org/wp-admin/admin-ajax.php".
Definition USER_AGENT : string :=
  "Mozilla/5.0 (Windows NT 10.0; Win64; x64) AppleWebKit/537.36 (KHTML, like Gecko) Chrome/123.0.0.0 Safari/537.36".
Definition IMG_BB_API_KEY : string := "540a4171008b7d59dbc4cc88e8a8ce4b".
Definition MAX_WORKERS : nat := 10.
Definition IMG_BB_UPLOAD_URL : string := "https://api.imgbb.com/1/upload".
Definition SITE_PREFIX : string := "https://web.animerco.org/".
Definition ONE_DAY : Q := 86400.

(** The headers of the AJAX call of [get_episode_embed]. *)
Definition embed_headers (episode_url : string) : list (string * string) :=
  [ ("accept", "*/*");
    ("accept-language", "en,en-GB;q=0.9,en-US;q=0.8");
    ("content-type", "application/x-www-form-urlencoded; charset=UTF-8");
    ("priority", "u=1, i");
    ("sec-ch-ua",
     dq +:+ "Chromium" +:+ dq +:+ ";v=" +:+ dq +:+ "134" +:+ dq +:+ ", "
     +:+ dq +:+ "Not:A-Brand" +:+ dq +:+ ";v=" +:+ dq +:+ "24" +:+ dq +:+ ", "
     +:+ dq +:+ "Microsoft Edge" +:+ dq +:+ ";v=" +:+ dq +:+ "134" +:+ dq);
    ("sec-ch-ua-mobile", "?0");
    ("sec-ch-ua-platform", dq +:+ "Windows" +:+ dq);
    ("sec-fetch-dest", "empty");
    ("sec-fetch-mode", "cors");
    ("sec-fetch-site", "same-origin");
    ("x-requested-with", "XMLHttpRequest");
    ("Referer", episode_url);
    ("Referrer-Policy", "strict-origin-when-cross-origin") ].

(** [f"action=player_ajax&post={postid_value}&nume=1&type=tv"] *)
Definition embed_payload (postid_value : string) : string :=
  "action=player_ajax&post=" +:+ postid_value +:+ "&nume=1&type=tv".

(** [file_age < 86400] *)
Definition Qltb (a b : Q) : bool := negb (Qle_bool b a).

(** The return statement by which [scrape_and_save] ends.  The Python
    function returns [None] on each of them. *)
Inductive Exit : Type :=
| ExitInvalidUrl
| ExitCached
| ExitNoEpisodes
| ExitSaved.

(** Removal of duplicate links, first occurrences kept in order. *)
Fixpoint unique_links_from (seen_urls : gset string) (links : list string)
  : list string :=
  match links with
  | [] => []
  | link :: rest =>
      if bool_decide (link ∈ seen_urls) then unique_links_from seen_urls rest
      else link :: unique_links_from ({[link]} ∪ seen_urls) rest
  end.

Definition is_postid_input (n : Html.Node) : bool :=
  Html.is_tag "input" n && Html.attr_is "type" "hidden" n
  && Html.attr_is "name" "postid" n.

Definition is_div_of_class (cls : string) (n : Html.Node) : bool :=
  Html.is_tag "div" n && Html.has_class cls n.

(** [{"episode": ep_num, "page_url": link, "embed_url": ..., "type": ...}] *)
Definition episode_record (ep_num : N) (link : string) (embed_url type_ : Json)
  : Json :=
  JDict [ ("episode", JInt (Z.of_N ep_num)); ("page_url", JStr link);
          ("embed_url", embed_url); ("type", type_) ].

(** [data_to_save] of [scrape_and_save] *)
Definition data_to_save (base_url : string) (img_url info : Json)
    (episodes : Dict) : Json :=
  JDict [ ("success", JBool true); ("base_url", JStr base_url);
          ("imgUrl", img_url); ("info", info); ("episodes", JDict episodes) ].

(** ** [json.dumps(value, indent=2)], for the examples *)

Module PyJson.

Definition newline : string := String (ascii_of_nat 10) EmptyString.
Definition backslash : string := String (ascii_of_nat 92) EmptyString.

Definition hex_digit (n : N) : ascii :=
  if (n <? 10)%N then ascii_of_N (48 + n)%N else ascii_of_N (87 + n)%N.

(** One character under [ensure_ascii]: the short escapes of
    [ESCAPE_DCT], [\u00xx] for what is not between the space and the
    tilde, and the character itself otherwise. *)
Definition escape_char (c : ascii) : string :=
  let n := N_of_ascii c in
  if (n =? 34)%N then backslash +:+ dq
  else if (n =? 92)%N then backslash +:+ backslash
  else if (n =? 8)%N then backslash +:+ "b"
  else if (n =? 12)%N then backslash +:+ "f"
  else if (n =? 10)%N then backslash +:+ "n"
  else if (n =? 13)%N then backslash +:+ "r"
  else if (n =? 9)%N then backslash +:+ "t"
  else if ((n <? 32) || (126 <? n))%N then
    backslash +:+ "u00"
    +:+ String (hex_digit (n / 16)%N) (String (hex_digit (n mod 16)%N) EmptyString)
  else String c EmptyString.

Fixpoint escape (s : string) : string :=
  match s with
  | EmptyString => EmptyString
  | String c s' => escape_char c +:+ escape s'
  end.

(** [encode_basestring_ascii(s)] *)
Definition encode_string (s : string) : string := dq +:+ escape s +:+ dq.

(** [int.__repr__] *)
Definition int_repr (z : Z) : string := NilZero.string_of_int (Z.to_int z).

Definition pow10 (k : Z) : Q :=
  if (0 <=? k)%Z then inject_Z (10 ^ k)%Z else (/ inject_Z (10 ^ (- k))%Z)%Q.

Definition pow2 (k : Z) : Q :=
  if (0 <=? k)%Z then inject_Z (2 ^ k)%Z else (/ inject_Z (2 ^ (- k))%Z)%Q.

(** The least [k] from [k0] on with [x < 10^k]. *)
Fixpoint decimal_point (fuel : nat) (k0 : Z) (x : Q) : Z :=
  match fuel with
  | O => k0
  | S fuel' =>
      if Qle_bool (pow10 k0) x then decimal_point fuel' (k0 + 1)%Z x else k0
  end.

Definition Qabs_diff (a b : Q) : Q := if Qle_bool a b then (b - a)%Q else (a - b)%Q.

(** The shortest run of digits that reads back as the float [m * 2^e],
    the nearest one when there are several, and the place of its decimal
    point: the result of [repr] mode of [dtoa]. *)
Fixpoint shortest_digits (tries : nat) (n : Z) (m : positive) (e : Z) (k : Z)
  : Z * Z :=
  let x := (inject_Z (Zpos m) * pow2 e)%Q in
  let up := pow2 (e - 1)%Z in
  let down :=
    if (Pos.eqb m 4503599627370496%positive && (-1074 <? e)%Z)%bool then pow2 (e - 2)%Z
    else pow2 (e - 1)%Z in
  let inside (v : Q) : bool :=
    if Z.even (Zpos m)
    then (Qle_bool (x - down)%Q v && Qle_bool v (x + up)%Q)%bool
    else (negb (Qle_bool v (x - down)%Q) && negb (Qle_bool (x + up)%Q v))%bool in
  let scale := pow10 (k - n)%Z in
  let d := Qfloor (x / scale)%Q in
  let lo := (inject_Z d * scale)%Q in
  let hi := (inject_Z (d + 1)%Z * scale)%Q in
  let pick : option Z :=
    match inside lo, inside hi with
    | true, true =>
        if Qle_bool (Qabs_diff x lo) (Qabs_diff x hi) then Some d
        else Some (d + 1)%Z
    | true, false => Some d
    | false, true => Some (d + 1)%Z
    | false, false => None
    end in
  match pick, tries with
  | Some digits, _ => (digits, (k - n)%Z)
  | None, O => (d, (k - n)%Z)
  | None, S tries' => shortest_digits tries' (n + 1)%Z m e k
  end.

Fixpoint strip_zeros (fuel : nat) (digits exponent : Z) : Z * Z :=
  match fuel with
  | O => (digits, exponent)
  | S fuel' =>
      if ((digits mod 10 =? 0)%Z && negb (digits =? 0)%Z)%bool
      then strip_zeros fuel' (digits / 10)%Z (exponent + 1)%Z
      else (digits, exponent)
  end.

Fixpoint zeros (n : nat) : string :=
  match n with
  | O => EmptyString
  | S n' => String "0" (zeros n')
  end.

Definition two_digits (z : Z) : string :=
  if (z <? 10)%Z then "0" +:+ int_repr z else int_repr z.

(** [float.__repr__] of a positive finite float: exponent notation when
    the decimal point lies more than 16 places right of the first digit or
    more than 3 places left of it. *)
Definition positive_repr (m : positive) (e : Z) : string :=
  let x := (inject_Z (Zpos m) * pow2 e)%Q in
  let k := decimal_point 700 (-330)%Z x in
  let (digits, exponent) :=
    let (d, ex) := shortest_digits 16 1 m e k in strip_zeros 20 d ex in
  let ds := int_repr digits in
  let len := Z.of_nat (String.length ds) in
  let decpt := (len + exponent)%Z in
  if ((decpt <=? -4)%Z || (16 <? decpt)%Z)%bool then
    String.substring 0 1 ds
    +:+ (if (len =? 1)%Z then EmptyString
         else "." +:+ String.substring 1 (String.length ds - 1)%nat ds)
    +:+ "e" +:+ (if (decpt - 1 <? 0)%Z then "-" else "+")
    +:+ two_digits (Z.abs (decpt - 1)%Z)
  else if (decpt <=? 0)%Z then "0." +:+ zeros (Z.to_nat (- decpt)%Z) +:+ ds
  else if (len <=? decpt)%Z then ds +:+ zeros (Z.to_nat (decpt - len)%Z) +:+ ".0"
  else String.substring 0 (Z.to_nat decpt) ds +:+ "."
       +:+ String.substring (Z.to_nat decpt) (String.length ds - Z.to_nat decpt)%nat ds.

(** [floatstr(o)] of the encoder: [float.__repr__], and the three names
    of the values that are no numbers of JSON. *)
Definition float_repr (f : float) : string :=
  match Prim2SF f with
  | S754_nan => "NaN"
  | S754_infinity false => "Infinity"
  | S754_infinity true => "-Infinity"
  | S754_zero false => "0.0"
  | S754_zero true => "-0.0"
  | S754_finite s m e => (if s then "-" else EmptyString) +:+ positive_repr m e
  end.

Fixpoint spaces (n : nat) : string :=
  match n with
  | O => EmptyString
  | S n' => String " " (spaces n')
  end.

(** [_iterencode] at a nesting [level], with [indent=2] and the
    separators [","] and [": "] that go with an indent. *)
Fixpoint encode (level : nat) (j : Json) : string :=
  match j with
  | JNull => "null"
  | JBool b => if b then "true" else "false"
  | JInt z => int_repr z
  | JFloat f => float_repr f
  | JStr s => encode_string s
  | JList [] => "[]"
  | JList (x :: l) =>
      "[" +:+ newline +:+ spaces (2 * S level)%nat +:+ encode (S level) x
      +:+ (fix items (l : list Json) : string :=
             match l with
             | [] => EmptyString
             | y :: l' =>
                 "," +:+ newline +:+ spaces (2 * S level)%nat +:+ encode (S level) y
                 +:+ items l'
             end) l
      +:+ newline +:+ spaces (2 * level)%nat +:+ "]"
  | JDict [] => "{}"
  | JDict ((k, v) :: d) =>
      "{" +:+ newline +:+ spaces (2 * S level)%nat +:+ encode_string k +:+ ": "
      +:+ encode (S level) v
      +:+ (fix items (d : list (string * Json)) : string :=
             match d with
             | [] => EmptyString
             | (k', v') :: d' =>
                 "," +:+ newline +:+ spaces (2 * S level)%nat +:+ encode_string k'
                 +:+ ": " +:+ encode (S level) v' +:+ items d'
             end) d
      +:+ newline +:+ spaces (2 * level)%nat +:+ "}"
  end.

(** [json.dumps(value, indent=2)] *)
Definition dumps (j : Json) : string := encode 0 j.

End PyJson.

(** ** A small site, for the examples *)

Module Site.

Definition TITLE : string := "https://web.animerco.org/seasons/show-season-2/".
Definition EP1 : string := "https://web.animerco.org/episodes/show-season-2-episode-1/".
Definition EP2 : string := "https://web.animerco.org/episodes/show-season-2-episode-2/".
Definition BARE : string := "https://web.animerco.org/seasons/bare/".
Definition BARE_EP : string := "https://web.animerco.org/episodes/bare-special/".
Definition MOVIE : string := "https://web.animerco.org/movies/akira/".
Definition ELSEWHERE : string := "https://example.com/seasons/show/".
Definition IMAGE : string := "https://img.example/show.jpg".
Definition HOSTED : string := "https://i.ibb.co/abc/show.jpg".

(** The page of the title: its image, its info box, with a comment and a
    script in the description, and two episodes. *)
Definition TITLE_HTML : string :=
  "<div class='anime-card player'><a class='image' data-src='https://img.example/show.jpg'></a></div>"
  +:+ "<div class='media-box'><div class='genres'><a>Action</a><a> Drama </a></div>"
  +:+ "<div class='content'><p> A story. <!-- draft --><script>var x = 1;</script></p></div></div>"
  +:+ "<div class='episodes-lists'>"
  +:+ "<a href='https://web.animerco.org/episodes/show-season-2-episode-1/'>1</a>"
  +:+ "<a href='https://web.animerco.org/episodes/show-season-2-episode-2/'>2</a>"
  +:+ "</div>".

Definition TITLE_SOUP : Html.Soup :=
  [ Html.Element "div" ["anime-card"; "player"] []
      [Html.Element "a" ["image"] [("data-src", IMAGE)] []];
    Html.Element "div" ["media-box"] []
      [ Html.Element "div" ["genres"] []
          [ Html.Element "a" [] [] [Html.TextNode "Action"];
            Html.Element "a" [] [] [Html.TextNode " Drama "] ];
        Html.Element "div" ["content"] []
          [Html.Element "p" [] []
             [ Html.TextNode " A story. "; Html.OtherString " draft ";
               Html.Element "script" [] [] [Html.OtherString "var x = 1;"] ]] ];
    Html.Element "div" ["episodes-lists"] []
      [ Html.Element "a" [] [("href", EP1)] [Html.TextNode "1"];
        Html.Element "a" [] [("href", EP2)] [Html.TextNode "2"] ] ].

(** A page with one episode, without image and without info box. *)
Definition BARE_HTML : string :=
  "<div class='episodes-lists'>"
  +:+ "<a href='https://web.animerco.org/episodes/bare-special/'>special</a></div>".

Definition BARE_SOUP : Html.Soup :=
  [ Html.Element "div" ["episodes-lists"] []
      [Html.Element "a" [] [("href", BARE_EP)] [Html.TextNode "special"]] ].

Definition episode_html (postid : string) : string :=
  "<input type='hidden' name='postid' value='" +:+ postid +:+ "'>".

Definition episode_soup (postid : string) : Html.Soup :=
  [ Html.Element "input" []
      [("type", "hidden"); ("name", "postid"); ("value", postid)] [] ].

(** [{"embed_url": "<link>", "type": "iframe"}] *)
Definition embed_json (link : string) : string :=
  "{" +:+ dq +:+ "embed_url" +:+ dq +:+ ": " +:+ dq +:+ link +:+ dq +:+ ", "
  +:+ dq +:+ "type" +:+ dq +:+ ": " +:+ dq +:+ "iframe" +:+ dq +:+ "}".

Definition embed_value (link : string) : Json :=
  JDict [("embed_url", JStr link); ("type", JStr "iframe")].

(** [{"success": true, "data": {"url": "https://i.ibb.co/abc/show.jpg"}}] *)
Definition UPLOAD_JSON : string :=
  "{" +:+ dq +:+ "success" +:+ dq +:+ ": true, " +:+ dq +:+ "data" +:+ dq
  +:+ ": {" +:+ dq +:+ "url" +:+ dq +:+ ": " +:+ dq +:+ HOSTED +:+ dq +:+ "}}".

Definition UPLOAD_VALUE : Json :=
  JDict [("success", JBool true); ("data", JDict [("url", JStr HOSTED)])].

Definition ok (body : string) : Outcome := Answer (mkResponse 200 body EmptyString).

Definition net (r : Request) : Outcome :=
  match method r, data r with
  | GET, _ =>
      if String.eqb (url r) TITLE then ok TITLE_HTML
      else if String.eqb (url r) BARE then ok BARE_HTML
      else if String.eqb (url r) EP1 then ok (episode_html "101")
      else if String.eqb (url r) EP2 then ok (episode_html "102")
      else if String.eqb (url r) BARE_EP then ok (episode_html "201")
      else Failed "connection refused"
  | POST, RawBody payload =>
      if String.eqb payload "action=player_ajax&post=101&nume=1&type=tv"
      then ok (embed_json "https://video.example/e/101")
      else if String.eqb payload "action=player_ajax&post=102&nume=1&type=tv"
      then ok (embed_json "https://video.example/e/102")
      else if String.eqb payload "action=player_ajax&post=201&nume=1&type=tv"
      then ok (embed_json "https://video.example/e/201")
      else ok "0"
  | POST, FormBody _ => ok UPLOAD_JSON
  | POST, NoBody => Failed "connection refused"
  end.

Definition parse_html (text : string) : Html.Soup :=
  if String.eqb text TITLE_HTML then TITLE_SOUP
  else if String.eqb text BARE_HTML then BARE_SOUP
  else if String.eqb text (episode_html "101") then episode_soup "101"
  else if String.eqb text (episode_html "102") then episode_soup "102"
  else if String.eqb text (episode_html "201") then episode_soup "201"
  else [Html.TextNode text].

Definition json_loads (text : string) : option Json :=
  if String.eqb text (embed_json "https://video.example/e/101")
  then Some (embed_value "https://video.example/e/101")
  else if String.eqb text (embed_json "https://video.example/e/102")
  then Some (embed_value "https://video.example/e/102")
  else if String.eqb text (embed_json "https://video.example/e/201")
  then Some (embed_value "https://video.example/e/201")
  else if String.eqb text UPLOAD_JSON then Some UPLOAD_VALUE
  else if String.eqb text "0" then Some (JInt 0)
  else None.

(** [json.dump(value, f, indent=2)], as the text written. *)
Definition json_dumps (j : Json) : string := PyJson.dumps j.

(** The process at its start, on an empty disk. *)
Definition start : World := mkWorld ∅ ∅ 1700000000 [] [] [].

(** The same, an hour after the cache file of the title was written. *)
Definition with_fresh_cache : World :=
  mkWorld {["cache/show-season-2.json" := mkFile "{}" 1699996400]} {["cache"]}
    1700000000 [] [] [].

(** Two days after the cache file of the title was written, with the
    links file beside it. *)
Definition with_stale_cache : World :=
  mkWorld
    {[ "cache/show-season-2.json" := mkFile "{}" 1699827200;
       "all_anime_links.json" := mkFile "{}" 1699827200 ]}
    {["cache"]} 1700000000 [] [] [].

End Site.

(** ** More of the small site, for the further properties *)

Module Lab.

Definition NO_VALUE : string := "https://web.animerco.org/episodes/no-value/".
Definition SOLO1 : string := "https://web.animerco.org/episodes/solo-1/".
Definition SOLO2 : string := "https://web.animerco.org/episodes/solo-2/".

(** An episode whose number has 4301 digits. *)
Definition LONG : string :=
  "https://web.animerco.org/episodes/show-" +:+ PyJson.zeros 4301.

Definition HUGE_IMAGE : string := "https://img.example/huge.jpg".
Definition ODD_IMAGE : string := "https://img.example/odd.jpg".

(** [{"success": false, "status": 400}] *)
Definition REJECT_JSON : string :=
  "{" +:+ dq +:+ "success" +:+ dq +:+ ": false, " +:+ dq +:+ "status" +:+ dq
  +:+ ": 400}".

Definition REJECT_VALUE : Json :=
  JDict [("success", JBool false); ("status", JInt 400)].

(** A page whose hidden input has no [value]. *)
Definition NO_VALUE_HTML : string := "<input type='hidden' name='postid'>".

Definition NO_VALUE_SOUP : Html.Soup :=
  [Html.Element "input" [] [("type", "hidden"); ("name", "postid")] []].

(** [{"anime_links": [" https://web.animerco.org/seasons/bare/ ", 7,
    "https://web.animerco.org/seasons/show-season-2/"]}] *)
Definition LINKS_JSON : string :=
  "{" +:+ dq +:+ "anime_links" +:+ dq +:+ ": [" +:+ dq
  +:+ " https://web.animerco.org/seasons/bare/ " +:+ dq +:+ ", 7, " +:+ dq
  +:+ "https://web.animerco.org/seasons/show-season-2/" +:+ dq +:+ "]}".

Definition LINKS_VALUE : Json :=
  JDict [("anime_links",
          JList [ JStr " https://web.animerco.org/seasons/bare/ "; JInt 7;
                  JStr "https://web.animerco.org/seasons/show-season-2/" ])].

Definition net (r : Request) : Outcome :=
  match method r, data r with
  | GET, _ =>
      if String.eqb (url r) NO_VALUE then Site.ok NO_VALUE_HTML
      else if String.eqb (url r) SOLO1 then Site.ok (Site.episode_html "301")
      else if String.eqb (url r) SOLO2 then Site.ok (Site.episode_html "302")
      else Site.net r
  | POST, RawBody payload =>
      if String.eqb payload "action=player_ajax&post=301&nume=1&type=tv"
      then Site.ok (Site.embed_json "https://video.example/e/301")
      else if String.eqb payload "action=player_ajax&post=302&nume=1&type=tv"
      then Site.ok (Site.embed_json "https://video.example/e/302")
      else Site.net r
  | POST, FormBody fields =>
      match Html.assoc "image" fields with
      | Some image =>
          if String.eqb image HUGE_IMAGE then Site.ok REJECT_JSON
          else if String.eqb image ODD_IMAGE then Site.ok "<html>"
          else Site.net r
      | None => Site.net r
      end
  | _, _ => Site.net r
  end.

Definition parse_html (text : string) : Html.Soup :=
  if String.eqb text NO_VALUE_HTML then NO_VALUE_SOUP
  else if String.eqb text (Site.episode_html "301") then Site.episode_soup "301"
  else if String.eqb text (Site.episode_html "302") then Site.episode_soup "302"
  else Site.parse_html text.

Definition json_loads (text : string) : option Json :=
  if String.eqb text LINKS_JSON then Some LINKS_VALUE
  else if String.eqb text REJECT_JSON then Some REJECT_VALUE
  else if String.eqb text (Site.embed_json "https://video.example/e/301")
  then Some (Site.embed_value "https://video.example/e/301")
  else if String.eqb text (Site.embed_json "https://video.example/e/302")
  then Some (Site.embed_value "https://video.example/e/302")
  else Site.json_loads text.

(** The process at its start, with the links file on the disk. *)
Definition with_links_file : World :=
  mkWorld {["all_anime_links.json" := mkFile LINKS_JSON 1699990000]} ∅
    1700000000 [] [] [].

End Lab.

(** ** The program *)

Section Program.

(** The site and the image host, as seen through [requests]. *)
Variable net : Request -> Outcome.
(** [BeautifulSoup(text, "html.parser")] *)
Variable parse_html : string -> Html.Soup.
(** [json.loads(text)], [None] where it raises [JSONDecodeError]. *)
Variable json_loads : string -> option Json.
(** [json.dump(value, f, indent=2)], as the text written. *)
Variable json_dumps : Json -> string.

(** A request through [session]: it is sent, then [requests] raises or
    hands the response over. *)
Definition send (r : Request) : M Response :=
  log_request r ;;;
  match net r with
  | Failed msg => raise (RequestException msg)
  | Answer response => ret response
  end.

(** [session.get(url, timeout=...)]; the session adds its [User-Agent]. *)
Definition session_get (u : string) (timeout_ : option Z) : M Response :=
  send (mkRequest GET u [("User-Agent", USER_AGENT)] NoBody timeout_).

(** [session.post(url, headers=..., data=..., timeout=...)] *)
Definition session_post (u : string) (hs : list (string * string)) (d : Body)
    (timeout_ : option Z) : M Response :=
  send (mkRequest POST u (("User-Agent", USER_AGENT) :: hs) d timeout_).

(** [json.loads(text)] and [response.json()] *)
Definition loads (s : string) : M Json :=
  match json_loads s with
  | Some j => ret j
  | None => raise JSONDecodeError
  end.

(** The body of [get_postid], under the decorator. *)
Definition get_postid_wrapped (u : string) : M (option string) :=
  try_except
    (response <- session_get u (Some 10%Z) ;;
     raise_for_status response ;;;
     let soup := parse_html (text response) in
     match Html.soup_find is_postid_input soup with
     | Some postid_input =>
         match Html.attr "value" postid_input with
         | Some v => ret (Some v)
         | None => raise (KeyError "value")
         end
     | None => ret None
     end)
    (on_request_exception
       (fun e => print (MsgPageFailed u e) ;;; ret None)).

(** [get_postid(url)], with [@lru_cache(maxsize=128)] *)
Definition get_postid (u : string) : M (option string) :=
  lru_cache 128 get_postid_wrapped u.

(** [get_episode_embed(episode_url)] *)
Definition get_episode_embed (episode_url : string) : M (option string) :=
  postid_value <- get_postid episode_url ;;
  match postid_value with
  | None | Some EmptyString => print (MsgNoPostid episode_url) ;;; ret None
  | Some postid =>
      try_except
        (response <- session_post ADMIN_URL (embed_headers episode_url)
                       (RawBody (embed_payload postid)) (Some 10%Z) ;;
         raise_for_status response ;;;
         ret (Some (text response)))
        (on_request_exception
           (fun e => print (MsgEmbedFailed episode_url e) ;;; ret None))
  end.

(** [process_episode_link(link, index)] *)
Definition process_episode_link (link : string) (index : N)
  : M (option (string * Json)) :=
  ep_num <- eval (episode_number_or link index) ;;
  embed_info <- get_episode_embed link ;;
  match embed_info with
  | None | Some EmptyString => ret None
  | Some info =>
      try_except
        (embed_data <- loads info ;;
         embed_url <- py_get embed_data "embed_url" ;;
         if truthy embed_url then
           type_ <- py_get embed_data "type" ;;
           print (MsgFoundEmbed ep_num embed_url) ;;;
           ret (Some (Text.str_of_N ep_num,
                      episode_record ep_num link embed_url type_))
         else ret None)
        (on_json_decode_error (print (MsgBadJson ep_num) ;;; ret None))
  end.

(** The futures submitted by [get_all_episodes], numbered from 0; the
    task of number [i] is [process_episode_link(link, i + 1)]. *)
Definition episode_tasks (unique_links : list string)
  : list (nat * M (option (string * Json))) :=
  imap (fun i link => (i, process_episode_link link (N.of_nat (i + 1))))
    unique_links.

(** The body of the loop over [as_completed(future_to_link)], on the
    future of number [i]. *)
Definition collect_result (unique_links : list string) (i : nat)
    (future : Result (option (string * Json))) (embed_results : Dict) : M Dict :=
  let link := nth i unique_links EmptyString in
  try_except
    (result <- future_result future ;;
     match result with
     | Some (ep_num, data_) => ret (dict_set ep_num data_ embed_results)
     | None => ret embed_results
     end)
    (on_exception
       (fun e => print (MsgErrorProcessing link e) ;;; ret embed_results)).

(** The run of the parallel part of [get_all_episodes]: the pool of
    [MAX_WORKERS] workers over the unique links, and the loop that
    collects the results into the mapping. *)
Definition episode_pool (sched : list Turn) (unique_links : list string)
    (w : World) : Pool (option (string * Json)) Dict :=
  pool_as_completed MAX_WORKERS sched (episode_tasks unique_links)
    (collect_result unique_links) [] w.

(** The parallel part of [get_all_episodes]. *)
Definition fan_out (sched : list Turn) (unique_links : list string) : M Dict :=
  fun w =>
    let p := episode_pool sched unique_links w in
    (pool_result p, pool_world p).

(** The [href] of every tag selected by [.episodes-lists a[href]]. *)
Definition episode_hrefs (soup : Html.Soup) : list string :=
  omap (Html.attr "href")
    (Html.soup_select (Html.has_class "episodes-lists")
       (fun n => Html.is_tag "a" n && Html.has_attr "href" n) soup).

(** [get_all_episodes(base_url)] *)
Definition get_all_episodes (sched : list Turn) (base_url : string)
  : M (option Dict) :=
  try_except
    (response <- session_get base_url (Some 10%Z) ;;
     raise_for_status response ;;;
     let soup := parse_html (text response) in
     let episodes_list := episode_hrefs soup in
     let unique_links := unique_links_from ∅ episodes_list in
     print (MsgFoundLinks (length episodes_list) (length unique_links) base_url) ;;;
     embed_results <- fan_out sched unique_links ;;
     ret (Some embed_results))
    (on_request_exception
       (fun e => print (MsgMainPageFailed base_url e) ;;; ret None)).

(** [upload_image_from_url(image_url)] *)
Definition upload_image_from_url (image_url : string) : M Json :=
  if negb (Text.nonempty image_url) then ret JNull
  else
    try_except
      (response <- session_post IMG_BB_UPLOAD_URL []
                     (FormBody [("key", IMG_BB_API_KEY); ("image", image_url)])
                     (Some 15%Z) ;;
       raise_for_status response ;;;
       data_ <- loads (text response) ;;
       success <- py_index data_ "success" ;;
       if truthy success then
         inner <- py_index data_ "data" ;;
         py_index inner "url"
       else print (MsgUploadRejected data_) ;;; ret JNull)
      (on_exception (fun e => print (MsgUploadError e) ;;; ret JNull)).

(** [get_bg_image(base_url)] *)
Definition get_bg_image (base_url : string) : M Json :=
  try_except
    (response <- session_get base_url (Some 10%Z) ;;
     raise_for_status response ;;;
     let soup := parse_html (text response) in
     let a_tag :=
       hd_error
         (Html.soup_select
            (fun n => Html.is_tag "div" n && Html.has_class "anime-card" n
                      && Html.has_class "player" n)
            (fun n => Html.is_tag "a" n && Html.has_class "image" n) soup) in
     match a_tag with
     | Some a =>
         match Html.attr "data-src" a with
         | Some bg_image_url => upload_image_from_url bg_image_url
         | None => ret JNull
         end
     | None => ret JNull
     end)
    (on_request_exception
       (fun e => print (MsgBgImageFailed base_url e) ;;; ret JNull)).

(** [extract_info(base_url)] *)
Definition extract_info (base_url : string) : M Json :=
  try_except
    (response <- session_get base_url (Some 10%Z) ;;
     raise_for_status response ;;;
     let soup := parse_html (text response) in
     match Html.soup_find (is_div_of_class "media-box") soup with
     | None => ret (JDict [("error", JStr "media-box not found")])
     | Some media_box =>
         let genre_list :=
           match Html.find (is_div_of_class "genres") media_box with
           | Some genres =>
               map (fun a => JDict [("text", JStr (Text.strip (Html.text a)))])
                 (Html.find_all (Html.is_tag "a") genres)
           | None => []
           end in
         let content_text :=
           match Html.find (is_div_of_class "content") media_box with
           | Some content_div =>
               match Html.find (Html.is_tag "p") content_div with
               | Some p => JStr (Text.strip (Html.text p))
               | None => JNull
               end
           | None => JNull
           end in
         ret (JDict [("genres", JList genre_list); ("content", content_text)])
     end)
    (on_request_exception
       (fun e => ret (JDict [("error", JStr ("Request failed: " +:+ e))]))).

(** The check of the cache file in [scrape_and_save]: [true] on the path
    that returns with the cached data. *)
Definition cache_is_fresh (cache_file : string) : M bool :=
  modified <- stat_file cache_file ;;
  match modified with
  | Some modified_at =>
      now <- time_time ;;
      let file_age := (now - modified_at)%Q in
      if Qltb file_age ONE_DAY then
        print (MsgUsingCache cache_file file_age) ;;; ret true
      else ret false
  | None => ret false
  end.

(** [scrape_and_save(base_url)]; [outer] schedules its three tasks and
    [inner] the episode tasks of [get_all_episodes]. *)
Definition scrape_and_save (outer : list nat) (inner : list Turn)
    (base_url : string) : M Exit :=
  start_time <- time_time ;;
  if negb (Text.startswith base_url SITE_PREFIX) then
    print (MsgInvalidUrl base_url) ;;; ret ExitInvalidUrl
  else
    makedirs "cache" ;;;
    let cache_file := cache_file_of base_url in
    fresh <- cache_is_fresh cache_file ;;
    if fresh then ret ExitCached
    else
      print (MsgScraping base_url) ;;;
      futures <- pool3 outer (get_all_episodes inner base_url)
                   (get_bg_image base_url) (extract_info base_url) ;;
      let '(episodes_future, img_url_future, info_future) := futures in
      episodes <- future_result episodes_future ;;
      img_url <- future_result img_url_future ;;
      info <- future_result info_future ;;
      match episodes with
      | None => print (MsgEpisodesFailed base_url) ;;; ret ExitNoEpisodes
      | Some episodes =>
          write_file cache_file
            (json_dumps (data_to_save base_url img_url info episodes)) ;;;
          now <- time_time ;;
          print (MsgSaved base_url cache_file) ;;;
          print (MsgCompleted (now - start_time)%Q) ;;;
          ret ExitSaved
      end.

(** ** The script run as a program *)

Definition LINKS_FILE : string := "all_anime_links.json".

(** The line of its own that [__main__] prints, always as its last
    output, or [Finished] when the loop ran through all the links. *)
Inductive MainEnd : Type :=
| LinksFileMissing
| NoLinksFound
| LinksNotJson
| UnexpectedError (e : Exn)
| Finished.

(** [time.sleep(seconds)] *)
Definition sleep (seconds : Q) : M unit :=
  fun w =>
    (Ok tt, mkWorld (files w) (dirs w) (clock w + seconds) (sent w) (printed w)
              (postid_cache w)).

(** [data.get(key, default)]: only a [dict] has the method. *)
Definition py_get_default (j : Json) (key : string) (default : Json) : M Json :=
  match j with
  | JDict d => ret (match dict_get key d with Some v => v | None => default end)
  | _ => raise AttributeError
  end.

(** [for x in j]: the items of a list, the characters of a string, the
    keys of a dict; the other values are not iterable. *)
Definition iterate (j : Json) : M (list Json) :=
  match j with
  | JList l => ret l
  | JStr s =>
      ret (map (fun c => JStr (String c EmptyString)) (list_ascii_of_string s))
  | JDict d => ret (map (fun kv => JStr (fst kv)) d)
  | _ => raise TypeError
  end.

(** [base_url.strip()]: only a [str] has the method. *)
Definition py_strip (j : Json) : M string :=
  match j with
  | JStr s => ret (Text.strip s)
  | _ => raise AttributeError
  end.

(** The loop of [__main__] over the links; [scheds] gives the two
    schedules of each call of [scrape_and_save]. *)
Fixpoint scrape_each (scheds : list (list nat * list Turn)) (links : list Json)
  : M unit :=
  match links with
  | [] => ret tt
  | base_url :: rest =>
      stripped <- py_strip base_url ;;
      scrape_and_save (fst (hd ([], []) scheds)) (snd (hd ([], []) scheds))
        stripped ;;;
      sleep 1 ;;;
      scrape_each (tl scheds) rest
  end.

(** The block under [if __name__ == "__main__"].  The test of
    [os.path.exists] and the reading of the file are one look at the
    disk. *)
Definition main (scheds : list (list nat * list Turn)) : M MainEnd :=
  fun w =>
    match files w !! LINKS_FILE with
    | None => (Ok LinksFileMissing, w)
    | Some f =>
        try_except
          (data_ <- loads (content f) ;;
           anime_links <- py_get_default data_ "anime_links" (JList []) ;;
           if negb (truthy anime_links) then ret NoLinksFound
           else
             links <- iterate anime_links ;;
             scrape_each scheds links ;;;
             ret Finished)
          (fun e =>
             match e with
             | JSONDecodeError => Some (ret LinksNotJson)
             | _ => Some (ret (UnexpectedError e))
             end) w
    end.

(** ** Vocabulary of the properties *)

(** The world [w] with another disk and clock. *)
Definition with_disk (fs : gmap string File) (ds : gset string) (t : Q)
    (w : World) : World :=
  mkWorld fs ds t (sent w) (printed w) (postid_cache w).

(** A computation that neither reads nor writes the files, the
    directories and the clock. *)
Definition disk_blind {A : Type} (m : M A) : Prop :=
  forall fs ds t w,
    m (with_disk fs ds t w) = (fst (m w), with_disk fs ds t (snd (m w))).

(** A computation that leaves the lines printed before it in place. *)
Definition keeps_prints {A : Type} (m : M A) : Prop :=
  forall w, exists new, printed (snd (m w)) = printed w ++ new.

(** The tasks of a pool that have not ended, and the finished futures
    that [as_completed] has not handed out. *)
Definition pool_tasks {R S : Type} (p : Pool R S) : list (nat * M R) :=
  pool_running p ++ pool_queue p.

Definition found_of {R : Type} (c : Collector R) : list (nat * Result R) :=
  match c with
  | Begun found => found
  | _ => []
  end.

Definition pool_pending {R S : Type} (p : Pool R S) : list (nat * Result R) :=
  found_of (pool_collector p) ++ pool_waiting p.

(** The turns a pool still takes when the body of the loop does not
    raise: two for a task, to end it and to hand its future out, one for
    a future that waits, and the one that enters the loop. *)
Definition pool_left {R S : Type} (p : Pool R S) : nat :=
  (2 * length (pool_tasks p) + length (pool_pending p)
   + match pool_collector p with NotBegun => 1 | _ => 0 end)%nat.

(** The pool [p] in another world. *)
Definition pool_at {R S : Type} (w : World) (p : Pool R S) : Pool R S :=
  mkPool (pool_queue p) (pool_running p) (pool_waiting p) (pool_collector p)
    (pool_acc p) (pool_completed p) (pool_snapshots p) (pool_yielded p) w.

(** The exceptions that may leave a computation. *)
Definition raises_only {A : Type} (C : Exn -> Prop) (m : M A) : Prop :=
  forall w e, fst (m w) = Raise e -> C e.

Definition never_raises {A : Type} (m : M A) : Prop :=
  raises_only (fun _ => False) m.

Definition is_request_exception (e : Exn) : Prop :=
  match e with
  | RequestException _ => True
  | _ => False
  end.

Definition any_exception (e : Exn) : Prop := True.

(** A string in which [https://web.animerco.org/seasons/<name>/] occurs,
    with a name of one character or more and without a slash. *)
Definition has_no_slash (name : string) : Prop :=
  forall c, In c (list_ascii_of_string name) -> Text.is_slash c = false.

Definition matches_seasons_pattern (s : string) : Prop :=
  exists before name after,
    s = before +:+ Text.SEASONS_PREFIX +:+ name +:+ "/" +:+ after
    /\ name <> EmptyString /\ has_no_slash name.

(** The request of [session.get(url, timeout=10)]. *)
Definition page_request (u : string) : Request :=
  mkRequest GET u [("User-Agent", USER_AGENT)] NoBody (Some 10%Z).

(** The request of the AJAX call for a post identifier. *)
Definition embed_request (episode_url postid : string) : Request :=
  mkRequest POST ADMIN_URL (("User-Agent", USER_AGENT) :: embed_headers episode_url)
    (RawBody (embed_payload postid)) (Some 10%Z).

(** The request of the image upload. *)
Definition upload_request (image_url : string) : Request :=
  mkRequest POST IMG_BB_UPLOAD_URL [("User-Agent", USER_AGENT)]
    (FormBody [("key", IMG_BB_API_KEY); ("image", image_url)]) (Some 15%Z).

(** The statuses for which [raise_for_status] raises. *)
Definition http_failed (r : Response) : bool :=
  ((400 <=? status_code r) && (status_code r <? 600))%Z.

(** The message of the [RequestException] that ends a fetch, when one
    does. *)
Definition fetch_error (r : Request) : option string :=
  match net r with
  | Failed msg => Some msg
  | Answer response =>
      if http_failed response then Some (http_error response) else None
  end.

(** The page fetched at [u], parsed; [None] when the fetch fails. *)
Definition fetched_page (u : string) : option Html.Soup :=
  match net (page_request u) with
  | Failed _ => None
  | Answer response =>
      if http_failed response then None
      else Some (parse_html (text response))
  end.

(** What the body of [get_postid] makes of the page at [u]. *)
Definition postid_of_page (u : string) : Result (option string) :=
  match fetched_page u with
  | None => Ok None
  | Some soup =>
      match Html.soup_find is_postid_input soup with
      | Some postid_input =>
          match Html.attr "value" postid_input with
          | Some v => Ok (Some v)
          | None => Raise (KeyError "value")
          end
      | None => Ok None
      end
  end.

(** The table of [lru_cache] holds what the site answers. *)
Definition cache_ok (w : World) : Prop :=
  forall u v, Html.assoc u (postid_cache w) = Some v -> postid_of_page u = Ok v.

(** The world after a request is sent. *)
Definition after_request (r : Request) (w : World) : World :=
  mkWorld (files w) (dirs w) (clock w) (sent w ++ [r]) (printed w)
    (postid_cache w).

(** The shapes of the [info] field. *)
Definition info_record (j : Json) : Prop :=
  exists genres content,
    j = JDict [("genres", JList genres); ("content", content)]
    /\ Forall (fun g => exists t, g = JDict [("text", JStr t)]) genres
    /\ (content = JNull \/ exists s, content = JStr s).

Definition error_record (j : Json) : Prop :=
  exists msg, j = JDict [("error", JStr msg)].

(** An entry of the episodes mapping: the key is [str(ep_num)] and the
    record holds the number, the page, the embed link and its type. *)
Definition episode_entry (e : string * Json) : Prop :=
  exists ep_num link embed_url type_,
    e = (Text.str_of_N ep_num, episode_record ep_num link embed_url type_)
    /\ truthy embed_url = true.

(** The results that the loop over [as_completed] stores in the mapping,
    in the order of the futures [done]. *)
Definition successes (done : list (nat * Result (option (string * Json))))
  : list (string * Json) :=
  omap (fun d => match snd d with Ok (Some kv) => Some kv | _ => None end) done.

Definition store_all (entries : list (string * Json)) (acc : Dict) : Dict :=
  fold_left (fun d kv => dict_set (fst kv) (snd kv) d) entries acc.

(** What one pass of the loop does to the mapping. *)
Definition store_result (f : nat * Result (option (string * Json))) (acc : Dict)
  : Dict :=
  match snd f with
  | Ok (Some (ep_num, data_)) => dict_set ep_num data_ acc
  | _ => acc
  end.


(** Three readings of the specification that the script does not bear
    out, named to state where they fail: one deadline for all requests; an
    [info] field that is null or a record of genres and description; a
    failed step that prints a line and yields [None]. *)
Definition same_deadline_everywhere (requests : list Request) : Prop :=
  exists t, Forall (fun r => timeout r = Some t) requests.

Definition info_as_specified (j : Json) : Prop := j = JNull \/ info_record j.


(** The age test, on the file as the world has it. *)
Definition fresh_in (w : World) (cache_file : string) : bool :=
  match files w !! cache_file with
  | Some f => Qltb (clock w - mtime f) ONE_DAY
  | None => false
  end.

(** The world after [os.makedirs("cache", exist_ok=True)]. *)
Definition after_makedirs (w : World) : World :=
  mkWorld (files w) ({["cache"]} ∪ dirs w) (clock w) (sent w) (printed w)
    (postid_cache w).

(** The world after [print(msg)]. *)
Definition after_print (msg : Msg) (w : World) : World :=
  mkWorld (files w) (dirs w) (clock w) (sent w) (printed w ++ [msg])
    (postid_cache w).

(** ** More vocabulary *)

Definition all_chars (p : ascii -> bool) (s : string) : Prop :=
  forall c, In c (list_ascii_of_string s) -> p c = true.

(** What may follow the digits of [-(\d+)(?:-|$)]: a dash, the end of the
    string, or the newline that ends it. *)
Definition ends_group (after : string) : Prop :=
  after = EmptyString \/ after = String (ascii_of_nat 10) EmptyString
  \/ exists rest, after = String "-" rest.

(** A place of [url] where [-(\d+)(?:-|$)] matches with the digits [ds]. *)
Definition has_number_group (url ds : string) : Prop :=
  exists before after,
    url = before +:+ "-" +:+ ds +:+ after
    /\ ds <> EmptyString /\ all_chars Text.is_digit ds /\ ends_group after.

(** The place of [url] where [re.search] matches [-(\d+)(?:-|$)]: the
    leftmost one, with the digits [ds]. *)
Definition first_number_group (url ds : string) : Prop :=
  exists before after,
    url = before +:+ "-" +:+ ds +:+ after
    /\ ds <> EmptyString /\ all_chars Text.is_digit ds /\ ends_group after
    /\ forall before' ds' after',
         url = before' +:+ "-" +:+ ds' +:+ after' ->
         ds' <> EmptyString -> all_chars Text.is_digit ds' -> ends_group after' ->
         (String.length before <= String.length before')%nat.

(** The numbers that [process_episode_link] derives for the links, in
    the order of submission; a link whose number raises has none. *)
Definition derived_numbers (links : list string) : list N :=
  omap (fun r => match r with Ok n => Some n | Raise _ => None end)
    (imap (fun i link => episode_number_or link (N.of_nat (i + 1))) links).

(** The unique links of the page at [u]; none when its fetch fails. *)
Definition listed_links (u : string) : list string :=
  match fetched_page u with
  | Some soup => unique_links_from ∅ (episode_hrefs soup)
  | None => []
  end.

(** The three requests the script ever builds. *)
Definition request_of_the_script (r : Request) : Prop :=
  (exists u, r = page_request u)
  \/ (exists u postid, r = embed_request u postid)
  \/ (exists image_url, r = upload_request image_url).

(** The deadline of a request, by its kind: 10 seconds for the fetch of a
    page and for the AJAX call, 15 seconds for the upload to the image
    host. *)
Definition carries_its_deadline (r : Request) : Prop :=
  match method r with
  | GET => timeout r = Some 10%Z
  | POST =>
      (url r = ADMIN_URL /\ timeout r = Some 10%Z)
      \/ (url r = IMG_BB_UPLOAD_URL /\ timeout r = Some 15%Z)
  end.

(** The exit that the URL, the cache file and the site decide. *)
Definition expected_exit (base_url : string) (w : World) : Exit :=
  if negb (Text.startswith base_url SITE_PREFIX) then ExitInvalidUrl
  else if fresh_in w (cache_file_of base_url) then ExitCached
  else match fetch_error (page_request base_url) with
       | Some _ => ExitNoEpisodes
       | None => ExitSaved
       end.

(** The world [w] after [dt] seconds. *)
Definition later_by (dt : Q) (w : World) : World :=
  with_disk (files w) (dirs w) (clock w + dt) w.

(** The [data-src] of the first tag that [div.anime-card.player a.image]
    selects. *)
Definition background_of (soup : Html.Soup) : option string :=
  match hd_error
          (Html.soup_select
             (fun n => Html.is_tag "div" n && Html.has_class "anime-card" n
                       && Html.has_class "player" n)
             (fun n => Html.is_tag "a" n && Html.has_class "image" n) soup) with
  | Some a => Html.attr "data-src" a
  | None => None
  end.

(** The table of [lru_cache(maxsize=128)]: at most 128 entries, one for a
    URL. *)
Definition cache_within_bounds (w : World) : Prop :=
  (length (postid_cache w) <= 128)%nat /\ NoDup (map fst (postid_cache w)).

(** A computation that sends some requests [new] with [P new], after
    those sent before. *)
Definition has_trace {A : Type} (P : list Request -> Prop) (m : M A) : Prop :=
  forall w, exists new, sent (snd (m w)) = sent w ++ new /\ P new.

(** The requests of the task of one of the links: its page, then the
    AJAX call for it, each at most once. *)
Definition episode_requests (links : list string) (new : list Request) : Prop :=
  exists link postid,
    link ∈ links /\ sublist new [page_request link; embed_request link postid].

(** ** Laws of the combinators *)

Lemma with_disk_same (w : World) : with_disk (files w) (dirs w) (clock w) w = w.
Proof. destruct w; reflexivity. Qed.

Lemma disk_blind_frame {A : Type} (m : M A) (w : World) :
  disk_blind m ->
  files (snd (m w)) = files w /\ dirs (snd (m w)) = dirs w
  /\ clock (snd (m w)) = clock w.
Proof.
  intros H. specialize (H (files w) (dirs w) (clock w) w).
  rewrite with_disk_same in H.
  destruct (m w) as [r w']; simpl in *.
  injection H as H. rewrite H. simpl. auto.
Qed.

Lemma disk_blind_ret {A : Type} (a : A) : disk_blind (ret a).
Proof. intros fs ds t w; reflexivity. Qed.

Lemma disk_blind_raise {A : Type} (e : Exn) : disk_blind (@raise A e).
Proof. intros fs ds t w; reflexivity. Qed.

Lemma disk_blind_bind {A B : Type} (m : M A) (k : A -> M B) :
  disk_blind m -> (forall a, disk_blind (k a)) -> disk_blind (bind m k).
Proof.
  intros Hm Hk fs ds t w. unfold bind. rewrite Hm.
  destruct (m w) as [[a | e] w1]; simpl; [apply Hk | reflexivity].
Qed.

Lemma disk_blind_try {A : Type} (m : M A) (h : Exn -> option (M A)) :
  disk_blind m -> (forall e k, h e = Some k -> disk_blind k) ->
  disk_blind (try_except m h).
Proof.
  intros Hm Hh fs ds t w. unfold try_except. rewrite Hm.
  destruct (m w) as [[a | e] w1]; simpl; [reflexivity |].
  destruct (h e) as [k |] eqn:E; [apply (Hh _ _ E) | reflexivity].
Qed.

Lemma disk_blind_print (msg : Msg) : disk_blind (print msg).
Proof. intros fs ds t w; reflexivity. Qed.

Lemma disk_blind_log_request (r : Request) : disk_blind (log_request r).
Proof. intros fs ds t w; reflexivity. Qed.

Lemma disk_blind_set_postid_cache c : disk_blind (set_postid_cache c).
Proof. intros fs ds t w; reflexivity. Qed.

Lemma disk_blind_future_result {A : Type} (r : Result A) :
  disk_blind (future_result r).
Proof. intros fs ds t w; reflexivity. Qed.

Lemma disk_blind_eval {A : Type} (r : Result A) : disk_blind (eval r).
Proof. intros fs ds t w; reflexivity. Qed.

Lemma keeps_prints_same {A : Type} (m : M A) :
  (forall w, printed (snd (m w)) = printed w) -> keeps_prints m.
Proof. intros H w. exists []. rewrite app_nil_r. apply H. Qed.

Lemma keeps_prints_ret {A : Type} (a : A) : keeps_prints (ret a).
Proof. apply keeps_prints_same. reflexivity. Qed.

Lemma keeps_prints_raise {A : Type} (e : Exn) : keeps_prints (@raise A e).
Proof. apply keeps_prints_same. reflexivity. Qed.

Lemma keeps_prints_eval {A : Type} (r : Result A) : keeps_prints (eval r).
Proof. apply keeps_prints_same. reflexivity. Qed.

Lemma keeps_prints_future_result {A : Type} (r : Result A) :
  keeps_prints (future_result r).
Proof. apply keeps_prints_same. reflexivity. Qed.

Lemma keeps_prints_log_request (r : Request) : keeps_prints (log_request r).
Proof. apply keeps_prints_same. reflexivity. Qed.

Lemma keeps_prints_set_postid_cache c : keeps_prints (set_postid_cache c).
Proof. apply keeps_prints_same. reflexivity. Qed.

Lemma keeps_prints_print (msg : Msg) : keeps_prints (print msg).
Proof. intros w. exists [msg]. reflexivity. Qed.

Lemma keeps_prints_bind {A B : Type} (m : M A) (k : A -> M B) :
  keeps_prints m -> (forall a, keeps_prints (k a)) -> keeps_prints (bind m k).
Proof.
  intros Hm Hk w. unfold bind. destruct (Hm w) as [n1 E1].
  destruct (m w) as [[a | e] w1]; simpl in *; [| exists n1; exact E1].
  destruct (Hk a w1) as [n2 E2]. exists (n1 ++ n2).
  rewrite E2, E1. symmetry. apply app_assoc.
Qed.

Lemma keeps_prints_try {A : Type} (m : M A) (h : Exn -> option (M A)) :
  keeps_prints m -> (forall e k, h e = Some k -> keeps_prints k) ->
  keeps_prints (try_except m h).
Proof.
  intros Hm Hh w. unfold try_except. destruct (Hm w) as [n1 E1].
  destruct (m w) as [[a | e] w1]; simpl in *; [exists n1; exact E1 |].
  destruct (h e) as [k |] eqn:E; simpl; [| exists n1; exact E1].
  destruct (Hh _ _ E w1) as [n2 E2]. exists (n1 ++ n2).
  rewrite E2, E1. symmetry. apply app_assoc.
Qed.

Lemma raises_only_weaken {A : Type} (C D : Exn -> Prop) (m : M A) :
  (forall e, C e -> D e) -> raises_only C m -> raises_only D m.
Proof. intros HCD Hm w e E. apply HCD, (Hm w e E). Qed.

Lemma never_raises_only {A : Type} (C : Exn -> Prop) (m : M A) :
  never_raises m -> raises_only C m.
Proof. apply raises_only_weaken. intros e []. Qed.

Lemma raises_only_ret {A : Type} (C : Exn -> Prop) (a : A) : raises_only C (ret a).
Proof. intros w e E. discriminate E. Qed.

Lemma raises_only_raise {A : Type} (C : Exn -> Prop) (e : Exn) :
  C e -> raises_only C (@raise A e).
Proof. intros H w e' E. injection E as <-. exact H. Qed.

Lemma raises_only_bind {A B : Type} (C : Exn -> Prop) (m : M A) (k : A -> M B) :
  raises_only C m -> (forall a, raises_only C (k a)) -> raises_only C (bind m k).
Proof.
  intros Hm Hk w e. unfold bind. specialize (Hm w).
  destruct (m w) as [[a | e'] w1]; simpl in *.
  - apply Hk.
  - intros E. injection E as <-. apply Hm. reflexivity.
Qed.

Lemma raises_only_try {A : Type} (C D : Exn -> Prop) (m : M A)
    (h : Exn -> option (M A)) :
  raises_only C m ->
  (forall e, C e ->
     match h e with Some k => raises_only D k | None => D e end) ->
  raises_only D (try_except m h).
Proof.
  intros Hm Hh w e. unfold try_except. specialize (Hm w).
  destruct (m w) as [[a | e'] w1]; simpl in *; [discriminate |].
  specialize (Hh e' (Hm e' eq_refl)).
  destruct (h e') as [k |]; simpl.
  - apply Hh.
  - intros E. injection E as <-. exact Hh.
Qed.

Lemma never_raises_ok {A : Type} (m : M A) (w : World) :
  never_raises m -> exists a, fst (m w) = Ok a.
Proof.
  intros H. specialize (H w). destruct (m w) as [[a | e] w1]; simpl in *.
  - exists a; reflexivity.
  - destruct (H e eq_refl).
Qed.

(** ** The regular expressions *)

Lemma append_cons (c : ascii) (a b : string) :
  String c a +:+ b = String c (a +:+ b).
Proof. reflexivity. Qed.

Lemma append_nil (b : string) : EmptyString +:+ b = b.
Proof. reflexivity. Qed.

Lemma strip_prefix_app (p s rest : string) :
  Text.strip_prefix p s = Some rest -> s = p +:+ rest.
Proof.
  revert s. induction p as [| a p IH]; intros s H; simpl in *.
  - injection H as ->. reflexivity.
  - destruct s as [| b s]; [discriminate |].
    destruct (Ascii.eqb a b) eqn:E; [| discriminate].
    apply Ascii.eqb_eq in E as ->. rewrite append_cons. f_equal. apply IH, H.
Qed.

Lemma strip_prefix_here (p rest : string) :
  Text.strip_prefix p (p +:+ rest) = Some rest.
Proof.
  induction p as [| a p IH]; [reflexivity |].
  rewrite append_cons. simpl. rewrite Ascii.eqb_refl. exact IH.
Qed.

Lemma span_app (p : ascii -> bool) (s a b : string) :
  Text.span p s = (a, b) ->
  s = a +:+ b /\ (forall c, In c (list_ascii_of_string a) -> p c = true).
Proof.
  revert a b. induction s as [| c s IH]; intros a b H; simpl in H.
  - injection H as <- <-. split; [reflexivity | intros c []].
  - destruct (p c) eqn:Hc.
    + destruct (Text.span p s) as [a' b'].
      injection H as <- <-. destruct (IH a' b' eq_refl) as [-> Hall].
      split; [reflexivity |]. intros c' [<- | Hin]; [exact Hc | apply Hall, Hin].
    + injection H as <- <-. split; [reflexivity | intros c' []].
Qed.

Lemma span_stop (p : ascii -> bool) (a : string) (c : ascii) (rest : string) :
  (forall x, In x (list_ascii_of_string a) -> p x = true) -> p c = false ->
  Text.span p (a +:+ String c rest) = (a, String c rest).
Proof.
  intros Hall Hc. induction a as [| x a IH].
  - rewrite append_nil. simpl. rewrite Hc. reflexivity.
  - rewrite append_cons. simpl.
    rewrite (Hall x (or_introl eq_refl)), IH; [reflexivity |].
    intros y Hy. apply Hall. right. exact Hy.
Qed.

Lemma is_slash_eq (c : ascii) : Text.is_slash c = true -> c = "/"%char.
Proof.
  unfold Text.is_slash, Text.code. intros H. apply N.eqb_eq in H.
  rewrite <- (ascii_N_embedding c), H. reflexivity.
Qed.

Lemma match_seasons_here_sound (s name : string) :
  Text.match_seasons_here s = Some name ->
  exists after,
    s = Text.SEASONS_PREFIX +:+ name +:+ "/" +:+ after
    /\ name <> EmptyString /\ has_no_slash name.
Proof.
  unfold Text.match_seasons_here. intros H.
  destruct (Text.strip_prefix Text.SEASONS_PREFIX s) as [rest |] eqn:Hp;
    [| discriminate].
  apply strip_prefix_app in Hp as ->.
  destruct (Text.span (fun c => negb (Text.is_slash c)) rest) as [nm tail] eqn:Hs.
  apply span_app in Hs as [-> Hall].
  destruct (Text.nonempty nm) eqn:Hne; [| discriminate]. simpl in H.
  destruct tail as [| c tail]; [discriminate |]. simpl in H.
  destruct (Text.is_slash c) eqn:Hc; [| discriminate].
  injection H as <-. apply is_slash_eq in Hc as ->.
  exists tail. split; [reflexivity |]. split.
  - intros ->. discriminate.
  - intros c Hin. apply negb_true_iff, Hall, Hin.
Qed.

Lemma string_app_assoc (a b c : string) : (a +:+ b) +:+ c = a +:+ (b +:+ c).
Proof.
  induction a as [| x a IH]; [reflexivity |].
  rewrite !append_cons. f_equal. exact IH.
Qed.

(** [pattern.search] finds a name exactly in the strings that hold the
    pattern. *)
Lemma search_seasons_name_sound (s name : string) :
  Text.search_seasons_name s = Some name -> matches_seasons_pattern s.
Proof.
  induction s as [| c s IH].
  - simpl. destruct (Text.match_seasons_here EmptyString) eqn:E; discriminate.
  - intros H. cbn [Text.search_seasons_name] in H.
    destruct (Text.match_seasons_here (String c s)) as [nm |] eqn:E.
    + apply match_seasons_here_sound in E as (after & -> & Hne & Hns).
      exists EmptyString, nm, after. auto.
    + destruct (IH H) as (before & nm & after & -> & Hne & Hns).
      exists (String c before), nm, after. auto.
Qed.

Lemma search_seasons_name_complete (s : string) :
  matches_seasons_pattern s -> exists name, Text.search_seasons_name s = Some name.
Proof.
  intros (before & nm & after & -> & Hne & Hns).
  induction before as [| c before IH].
  - exists nm. rewrite append_nil.
    assert (E : Text.match_seasons_here
                  (Text.SEASONS_PREFIX +:+ nm +:+ "/" +:+ after) = Some nm).
    { unfold Text.match_seasons_here. rewrite strip_prefix_here.
      change ("/" +:+ after) with (String "/" after).
      rewrite span_stop; [| intros x Hx; rewrite (Hns x Hx); reflexivity
                          | reflexivity].
      destruct nm; [contradiction | reflexivity]. }
    destruct (Text.SEASONS_PREFIX +:+ nm +:+ "/" +:+ after) eqn:Es;
      cbn [Text.search_seasons_name]; rewrite E; reflexivity.
  - destruct IH as [name IH].
    change (String c before +:+ Text.SEASONS_PREFIX +:+ nm +:+ "/" +:+ after)
      with (String c (before +:+ Text.SEASONS_PREFIX +:+ nm +:+ "/" +:+ after)).
    cbn [Text.search_seasons_name].
    destruct (Text.match_seasons_here _) as [name' |];
      [exists name' | exists name]; [reflexivity | exact IH].
Qed.

Lemma str_of_N_inj (n m : N) : Text.str_of_N n = Text.str_of_N m -> n = m.
Proof.
  unfold Text.str_of_N. intros H.
  assert (E : Some (N.to_uint n) = Some (N.to_uint m)).
  { rewrite <- !NilEmpty.usu. f_equal. exact H. }
  injection E as E.
  rewrite <- (DecimalN.Unsigned.of_to n), <- (DecimalN.Unsigned.of_to m).
  f_equal. exact E.
Qed.

(** ** The executor *)

Lemma pool_fill_Forall {T : Type} (P : T -> Prop) (mw : nat) (queue running : list T) :
  Forall P queue -> Forall P running ->
  Forall P (fst (pool_fill mw queue running))
  /\ Forall P (snd (pool_fill mw queue running)).
Proof.
  intros Hq Hr. unfold pool_fill; simpl. split.
  - apply Forall_drop, Hq.
  - apply Forall_app; split; [exact Hr | apply Forall_take, Hq].
Qed.

Lemma pool_fill_length {T : Type} (mw : nat) (queue running : list T) :
  (length running <= mw)%nat ->
  (length (snd (pool_fill mw queue running)) <= mw)%nat.
Proof.
  intros H. unfold pool_fill; simpl. rewrite length_app, length_take. lia.
Qed.

Lemma pool_fill_perm {T : Type} (mw : nat) (queue running : list T) :
  Permutation
    (snd (pool_fill mw queue running) ++ fst (pool_fill mw queue running))
    (running ++ queue).
Proof.
  unfold pool_fill; simpl. rewrite <- app_assoc, take_drop. reflexivity.
Qed.

Lemma pool_fill_idle {T : Type} (mw : nat) (queue running : list T) :
  (0 < mw)%nat -> snd (pool_fill mw queue running) = [] ->
  queue = [] /\ running = [].
Proof.
  unfold pool_fill; simpl. intros Hmw E.
  apply app_eq_nil in E as [-> E]. simpl in E.
  rewrite Nat.sub_0_r in E. split; [| reflexivity].
  destruct queue as [| q queue]; [reflexivity |].
  destruct mw; [lia | discriminate].
Qed.

Lemma pick_lt {T : Type} (n : nat) (x : T) (l : list T) :
  (n mod length (x :: l) < length (x :: l))%nat.
Proof. apply Nat.mod_upper_bound. discriminate. Qed.

Lemma pick_Forall {T : Type} (P : T -> Prop) (n : nat) (x : T) (l : list T) :
  Forall P (x :: l) -> P (nth (n mod length (x :: l)) (x :: l) x).
Proof.
  intros H. rewrite Forall_nth in H. apply H, pick_lt.
Qed.

Lemma delete_nth_perm {T : Type} (k : nat) (l : list T) (d : T) :
  (k < length l)%nat -> Permutation (nth k l d :: delete k l) l.
Proof.
  revert k. induction l as [| x l IH]; intros k Hk; simpl in Hk; [lia |].
  destruct k as [| k]; simpl; [reflexivity |].
  rewrite perm_swap. constructor. apply IH. lia.
Qed.

Lemma delete_length_le {T : Type} (k : nat) (l : list T) :
  (length (delete k l) <= length l)%nat.
Proof.
  revert k. induction l as [| x l IH]; intros [| k]; simpl; try lia.
  specialize (IH k). lia.
Qed.

(** *** One turn *)

Lemma work_inv {R S : Type} (mw k : nat) (p p' : Pool R S) :
  work mw k p = Some p' ->
  exists i task snap,
    In (i, task) (pool_tasks p)
    /\ Permutation ((i, task) :: pool_tasks p') (pool_tasks p)
    /\ p' = mkPool (pool_queue p') (pool_running p')
              (pool_waiting p ++ [(i, fst (task (pool_world p)))])
              (pool_collector p) (pool_acc p)
              (pool_completed p ++ [(i, fst (task (pool_world p)))])
              (pool_snapshots p ++ [snap]) (pool_yielded p)
              (snd (task (pool_world p)))
    /\ ((length (pool_running p) <= mw)%nat ->
        (length snap <= mw)%nat /\ (length (pool_running p') <= mw)%nat).
Proof.
  unfold work, pool_tasks.
  pose proof (pool_fill_perm mw (pool_queue p) (pool_running p)) as Hperm.
  pose proof (pool_fill_length mw (pool_queue p) (pool_running p)) as Hlen.
  destruct (pool_fill mw (pool_queue p) (pool_running p)) as [queue1 running1];
    cbn [fst snd] in *.
  destruct running1 as [| first running2]; [discriminate |].
  set (j := (k mod length (first :: running2))%nat).
  assert (Hj : (j < length (first :: running2))%nat) by apply pick_lt.
  pose proof (delete_nth_perm j (first :: running2) first Hj) as Hpick.
  pose proof (delete_length_le j (first :: running2)) as Hdel.
  destruct (nth j (first :: running2) first) as [i task] eqn:Enth.
  destruct (task (pool_world p)) as [r w1] eqn:Etask.
  intros [= <-]. cbn [pool_queue pool_running].
  exists i, task, (map fst (first :: running2)).
  split; [| split; [| split]].
  - eapply Permutation_in; [exact Hperm |].
    apply in_or_app. left. rewrite <- Enth. apply nth_In, Hj.
  - rewrite <- Hperm.
    change ((i, task) :: delete j (first :: running2) ++ queue1)
      with (((i, task) :: delete j (first :: running2)) ++ queue1).
    apply Permutation_app_tail, Hpick.
  - rewrite Etask. reflexivity.
  - intros Hcap. specialize (Hlen Hcap). rewrite length_map. split; lia.
Qed.

Lemma work_none {R S : Type} (mw k : nat) (p : Pool R S) :
  (0 < mw)%nat -> work mw k p = None -> pool_tasks p = [].
Proof.
  unfold work, pool_tasks. intros Hmw.
  pose proof (pool_fill_idle mw (pool_queue p) (pool_running p) Hmw) as Hidle.
  destruct (pool_fill mw (pool_queue p) (pool_running p)) as [queue1 running1];
    cbn [fst snd] in *.
  destruct running1 as [| first running2].
  - intros _. destruct (Hidle eq_refl) as [-> ->]. reflexivity.
  - destruct (nth _ _ _) as [i task]. destruct (task _). discriminate.
Qed.

Lemma yield_to_inv {R S : Type} (body : nat -> Result R -> S -> M S)
    (f : nat * Result R) found waiting (p : Pool R S) :
  yield_to body f found waiting p
  = mkPool (pool_queue p) (pool_running p) waiting
      match fst (body (fst f) (snd f) (pool_acc p) (pool_world p)) with
      | Ok _ => Begun found
      | Raise e => Gone e
      end
      match fst (body (fst f) (snd f) (pool_acc p) (pool_world p)) with
      | Ok acc => acc
      | Raise _ => pool_acc p
      end
      (pool_completed p) (pool_snapshots p) (pool_yielded p ++ [f])
      (snd (body (fst f) (snd f) (pool_acc p) (pool_world p))).
Proof.
  unfold yield_to.
  destruct (body (fst f) (snd f) (pool_acc p) (pool_world p)) as [[acc | e] w1];
    reflexivity.
Qed.

Lemma collect_inv {R S : Type} (body : nat -> Result R -> S -> M S) (k : nat)
    (p p' : Pool R S) :
  collect body k p = Some p' ->
  (pool_collector p = NotBegun
   /\ p' = mkPool (pool_queue p) (pool_running p) [] (Begun (pool_waiting p))
             (pool_acc p) (pool_completed p) (pool_snapshots p)
             (pool_yielded p) (pool_world p))
  \/ exists f found found' waiting',
       pool_collector p = Begun found
       /\ Permutation (f :: found' ++ waiting') (found ++ pool_waiting p)
       /\ p' = yield_to body f found' waiting' p.
Proof.
  unfold collect.
  destruct (pool_collector p) as [| [| first others] | e] eqn:Ec.
  - intros [= <-]. left. split; reflexivity.
  - destruct (pool_waiting p) as [| f waiting] eqn:Ew; [discriminate |].
    intros [= <-]. right. exists f, [], [], waiting.
    split; [reflexivity |]. split; reflexivity.
  - intros [= <-]. right.
    set (j := (k mod length (first :: others))%nat).
    exists (nth j (first :: others) first), (first :: others),
      (delete j (first :: others)), (pool_waiting p).
    split; [reflexivity |]. split; [| reflexivity].
    change (nth j (first :: others) first
            :: delete j (first :: others) ++ pool_waiting p)
      with ((nth j (first :: others) first :: delete j (first :: others))
            ++ pool_waiting p).
    apply Permutation_app_tail, delete_nth_perm, pick_lt.
  - discriminate.
Qed.

Lemma collect_none {R S : Type} (body : nat -> Result R -> S -> M S) (k : nat)
    (p : Pool R S) :
  collect body k p = None ->
  (pool_collector p = Begun [] /\ pool_waiting p = [])
  \/ exists e, pool_collector p = Gone e.
Proof.
  unfold collect.
  destruct (pool_collector p) as [| [| first others] | e]; try discriminate.
  - destruct (pool_waiting p); [left; split; reflexivity | discriminate].
  - right. exists e. reflexivity.
Qed.

(** *** The run *)

(** What holds at the start and is kept by every turn holds at the end. *)
Lemma pool_turns_inv {R S : Type} (body : nat -> Result R -> S -> M S)
    (mw : nat) (I : Pool R S -> Prop) :
  (forall k p p', I p -> work mw k p = Some p' -> I p') ->
  (forall k p p', I p -> collect body k p = Some p' -> I p') ->
  forall turns sched p, I p -> I (pool_turns body mw turns sched p).
Proof.
  intros Hwork Hcollect.
  induction turns as [| turns IH]; intros sched p Hp; [exact Hp |].
  cbn [pool_turns]. unfold take_turn.
  destruct (hd (Worker 0) sched) as [k | k].
  - destruct (work mw k p) as [p' |] eqn:Ew; [eapply IH, Hwork; eassumption |].
    destruct (collect body k p) as [p' |] eqn:Ec; [| exact Hp].
    eapply IH, Hcollect; eassumption.
  - destruct (collect body k p) as [p' |] eqn:Ec;
      [eapply IH, Hcollect; eassumption |].
    destruct (work mw k p) as [p' |] eqn:Ew; [| exact Hp].
    eapply IH, Hwork; eassumption.
Qed.

(** A property of the tasks still to end. *)
Lemma pool_tasks_work {R S : Type} (T : nat * M R -> Prop) (mw k : nat)
    (p p' : Pool R S) :
  Forall T (pool_tasks p) -> work mw k p = Some p' -> Forall T (pool_tasks p').
Proof.
  intros HT Hw. destruct (work_inv mw k p p' Hw) as (i & task & snap & _ & Hperm & _).
  rewrite <- Hperm in HT. apply Forall_cons in HT as [_ HT]. exact HT.
Qed.

Lemma pool_tasks_collect {R S : Type} (body : nat -> Result R -> S -> M S)
    (k : nat) (p p' : Pool R S) :
  collect body k p = Some p' -> pool_tasks p' = pool_tasks p.
Proof.
  intros Hc.
  destruct (collect_inv body k p p' Hc)
    as [[_ ->] | (f & found & found' & waiting' & _ & _ & ->)];
    [| rewrite yield_to_inv]; reflexivity.
Qed.

(** The workers never exceed [max_workers]. *)
Lemma pool_turns_cap {R S : Type} (body : nat -> Result R -> S -> M S)
    (mw turns : nat) (sched : list Turn) (p : Pool R S) :
  (length (pool_running p) <= mw)%nat ->
  Forall (fun snap => (length snap <= mw)%nat) (pool_snapshots p) ->
  Forall (fun snap => (length snap <= mw)%nat)
    (pool_snapshots (pool_turns body mw turns sched p)).
Proof.
  intros Hrun Hsnap.
  apply (pool_turns_inv body mw
           (fun q => (length (pool_running q) <= mw)%nat
                     /\ Forall (fun snap => (length snap <= mw)%nat)
                          (pool_snapshots q)));
    [| | split; assumption].
  - intros k q q' [Hr Hs] Hw.
    destruct (work_inv mw k q q' Hw) as (i & task & snap & _ & _ & E & Hcap).
    destruct (Hcap Hr) as [Hsn Hr']. split; [exact Hr' |].
    rewrite E. cbn [pool_snapshots]. apply Forall_app. split; [exact Hs |].
    constructor; [exact Hsn | constructor].
  - intros k q q' [Hr Hs] Hc.
    destruct (collect_inv body k q q' Hc)
      as [[_ ->] | (f & found & found' & waiting' & _ & _ & ->)];
      [| rewrite yield_to_inv]; split; assumption.
Qed.

(** What every task guarantees of its result, every future holds. *)
Lemma pool_turns_results {R S : Type} (Q : nat -> Result R -> Prop)
    (body : nat -> Result R -> S -> M S) (mw turns : nat) (sched : list Turn)
    (p : Pool R S) :
  Forall (fun t => forall w0, Q (fst t) (fst (snd t w0))) (pool_tasks p) ->
  Forall (fun d => Q (fst d) (snd d)) (pool_completed p) ->
  Forall (fun d => Q (fst d) (snd d))
    (pool_completed (pool_turns body mw turns sched p)).
Proof.
  intros Htasks Hdone.
  apply (pool_turns_inv body mw
           (fun q => Forall (fun t => forall w0, Q (fst t) (fst (snd t w0)))
                       (pool_tasks q)
                     /\ Forall (fun d => Q (fst d) (snd d)) (pool_completed q)));
    [| | split; assumption].
  - intros k q q' [Ht Hd] Hw.
    split; [eapply pool_tasks_work; eassumption |].
    destruct (work_inv mw k q q' Hw) as (i & task & snap & Hin & _ & E & _).
    rewrite E. cbn [pool_completed]. apply Forall_app. split; [exact Hd |].
    constructor; [| constructor].
    rewrite List.Forall_forall in Ht. apply (Ht (i, task) Hin).
  - intros k q q' [Ht Hd] Hc.
    rewrite (pool_tasks_collect body k q q' Hc). split; [exact Ht |].
    destruct (collect_inv body k q q' Hc)
      as [[_ ->] | (f & found & found' & waiting' & _ & _ & ->)];
      [| rewrite yield_to_inv]; exact Hd.
Qed.

(** The futures that finish are those of the tasks, each once. *)
Lemma pool_turns_ids {R S : Type} (body : nat -> Result R -> S -> M S)
    (mw turns : nat) (sched : list Turn) (p : Pool R S) :
  Permutation
    (map fst (pool_completed (pool_turns body mw turns sched p))
     ++ map fst (pool_tasks (pool_turns body mw turns sched p)))
    (map fst (pool_completed p) ++ map fst (pool_tasks p)).
Proof.
  apply (pool_turns_inv body mw
           (fun q => Permutation
                       (map fst (pool_completed q) ++ map fst (pool_tasks q))
                       (map fst (pool_completed p) ++ map fst (pool_tasks p))));
    [| | reflexivity].
  - intros k q q' Hq Hw.
    destruct (work_inv mw k q q' Hw) as (i & task & snap & _ & Hperm & E & _).
    rewrite <- Hq, <- Hperm. rewrite E at 1. cbn [pool_completed].
    rewrite map_app, <- app_assoc. reflexivity.
  - intros k q q' Hq Hc.
    rewrite (pool_tasks_collect body k q q' Hc).
    destruct (collect_inv body k q q' Hc)
      as [[_ ->] | (f & found & found' & waiting' & _ & _ & ->)];
      [| rewrite yield_to_inv]; exact Hq.
Qed.

(** With a body that does not raise, the loop is never left by an
    exception, and the futures handed out and those still to hand out are
    the finished ones. *)
Lemma pool_turns_handed {R S : Type} (body : nat -> Result R -> S -> M S)
    (mw turns : nat) (sched : list Turn) (p : Pool R S) :
  (forall i r acc, never_raises (body i r acc)) ->
  (forall e, pool_collector p <> Gone e) ->
  Permutation (pool_yielded p ++ pool_pending p) (pool_completed p) ->
  (forall e, pool_collector (pool_turns body mw turns sched p) <> Gone e)
  /\ Permutation
       (pool_yielded (pool_turns body mw turns sched p)
        ++ pool_pending (pool_turns body mw turns sched p))
       (pool_completed (pool_turns body mw turns sched p)).
Proof.
  intros Hbody Hgone Hperm.
  apply (pool_turns_inv body mw
           (fun q => (forall e, pool_collector q <> Gone e)
                     /\ Permutation (pool_yielded q ++ pool_pending q)
                          (pool_completed q)));
    [| | split; assumption].
  - intros k q q' [Hg Hq] Hw.
    destruct (work_inv mw k q q' Hw) as (i & task & snap & _ & _ & E & _).
    rewrite E. unfold pool_pending. cbn. split; [exact Hg |].
    rewrite !app_assoc. apply Permutation_app_tail.
    rewrite <- app_assoc. exact Hq.
  - intros k q q' [Hg Hq] Hc.
    destruct (collect_inv body k q q' Hc)
      as [[Eq ->] | (f & found & found' & waiting' & Eq & Hp & ->)].
    + unfold pool_pending in *. rewrite Eq in Hq. cbn in *.
      split; [discriminate |]. rewrite app_nil_r. exact Hq.
    + rewrite yield_to_inv.
      pose proof (Hbody (fst f) (snd f) (pool_acc q) (pool_world q)) as Hnr.
      destruct (fst (body (fst f) (snd f) (pool_acc q) (pool_world q)))
        as [acc | e]; [| destruct (Hnr e eq_refl)].
      unfold pool_pending in *. rewrite Eq in Hq. cbn in *.
      split; [discriminate |].
      rewrite <- Hq, <- app_assoc. apply Permutation_app_head.
      cbn. exact Hp.
Qed.

Lemma pool_left_work {R S : Type} (mw k : nat) (p p' : Pool R S) :
  work mw k p = Some p' -> (pool_left p' + 1 = pool_left p)%nat.
Proof.
  intros Hw. destruct (work_inv mw k p p' Hw) as (i & task & snap & _ & Hperm & E & _).
  apply Permutation_length in Hperm. cbn [length] in Hperm.
  unfold pool_left. rewrite <- Hperm.
  rewrite E at 2 3. unfold pool_pending. cbn [pool_collector pool_waiting].
  rewrite !length_app. cbn [length]. lia.
Qed.

Lemma pool_left_collect {R S : Type} (body : nat -> Result R -> S -> M S)
    (k : nat) (p p' : Pool R S) :
  (forall i r acc, never_raises (body i r acc)) ->
  collect body k p = Some p' -> (pool_left p' + 1 = pool_left p)%nat.
Proof.
  intros Hbody Hc. unfold pool_left.
  rewrite (pool_tasks_collect body k p p' Hc).
  destruct (collect_inv body k p p' Hc)
    as [[Eq ->] | (f & found & found' & waiting' & Eq & Hp & ->)].
  - unfold pool_pending. rewrite Eq. cbn. rewrite app_nil_r. lia.
  - rewrite yield_to_inv.
    pose proof (Hbody (fst f) (snd f) (pool_acc p) (pool_world p)) as Hnr.
    destruct (fst (body (fst f) (snd f) (pool_acc p) (pool_world p)))
      as [acc | e]; [| destruct (Hnr e eq_refl)].
    apply Permutation_length in Hp. cbn [length] in Hp.
    unfold pool_pending. rewrite Eq. cbn [pool_collector pool_waiting found_of].
    lia.
Qed.

(** With turns enough, every task ends and every future is handed out. *)
Lemma pool_turns_done {R S : Type} (body : nat -> Result R -> S -> M S)
    (mw : nat) :
  (0 < mw)%nat ->
  (forall i r acc, never_raises (body i r acc)) ->
  forall turns sched (p : Pool R S),
    (forall e, pool_collector p <> Gone e) ->
    (pool_left p <= turns)%nat ->
    pool_tasks (pool_turns body mw turns sched p) = []
    /\ pool_pending (pool_turns body mw turns sched p) = [].
Proof.
  intros Hmw Hbody.
  assert (Hidle : forall k (p : Pool R S),
            (forall e, pool_collector p <> Gone e) ->
            work mw k p = None -> collect body k p = None ->
            pool_tasks p = [] /\ pool_pending p = []).
  { intros k p Hg Hw Hc. split; [apply (work_none mw k p Hmw Hw) |].
    destruct (collect_none body k p Hc) as [[Ec Ew] | [e Ee]];
      [| destruct (Hg e Ee)].
    unfold pool_pending. rewrite Ec, Ew. reflexivity. }
  assert (Hkeep : forall k (p p' : Pool R S),
            (forall e, pool_collector p <> Gone e) ->
            collect body k p = Some p' -> forall e, pool_collector p' <> Gone e).
  { intros k p p' Hg Hc.
    destruct (collect_inv body k p p' Hc)
      as [[_ ->] | (f & found & found' & waiting' & _ & _ & ->)];
      [discriminate |].
    rewrite yield_to_inv.
    pose proof (Hbody (fst f) (snd f) (pool_acc p) (pool_world p)) as Hnr.
    destruct (fst (body (fst f) (snd f) (pool_acc p) (pool_world p)))
      as [acc | e]; [discriminate | destruct (Hnr e eq_refl)]. }
  assert (Hkeepw : forall k (p p' : Pool R S),
            (forall e, pool_collector p <> Gone e) ->
            work mw k p = Some p' -> forall e, pool_collector p' <> Gone e).
  { intros k p p' Hg Hw.
    destruct (work_inv mw k p p' Hw) as (i & task & snap & _ & _ & -> & _).
    exact Hg. }
  induction turns as [| turns IH]; intros sched p Hg Hleft.
  - cbn [pool_turns]. unfold pool_left in Hleft.
    destruct (pool_tasks p); [| simpl in Hleft; lia].
    destruct (pool_pending p); [| simpl in Hleft; lia].
    split; reflexivity.
  - cbn [pool_turns]. unfold take_turn.
    destruct (hd (Worker 0) sched) as [k | k].
    + destruct (work mw k p) as [p' |] eqn:Ew.
      * apply IH; [eapply Hkeepw; eassumption |].
        pose proof (pool_left_work mw k p p' Ew). lia.
      * destruct (collect body k p) as [p' |] eqn:Ec;
          [| apply (Hidle k); assumption].
        apply IH; [eapply Hkeep; eassumption |].
        pose proof (pool_left_collect body k p p' Hbody Ec). lia.
    + destruct (collect body k p) as [p' |] eqn:Ec.
      * apply IH; [eapply Hkeep; eassumption |].
        pose proof (pool_left_collect body k p p' Hbody Ec). lia.
      * destruct (work mw k p) as [p' |] eqn:Ew;
          [| apply (Hidle k); assumption].
        apply IH; [eapply Hkeepw; eassumption |].
        pose proof (pool_left_work mw k p p' Ew). lia.
Qed.

(** The value the loop carries is built from the futures handed out, in
    their order. *)
Lemma pool_turns_acc {R S : Type} (step : nat * Result R -> S -> S)
    (body : nat -> Result R -> S -> M S) (mw turns : nat) (sched : list Turn)
    (init : S) (p : Pool R S) :
  (forall i r acc w, fst (body i r acc w) = Ok (step (i, r) acc)) ->
  pool_acc p = fold_left (fun acc f => step f acc) (pool_yielded p) init ->
  pool_acc (pool_turns body mw turns sched p)
  = fold_left (fun acc f => step f acc)
      (pool_yielded (pool_turns body mw turns sched p)) init.
Proof.
  intros Hbody Hacc.
  apply (pool_turns_inv body mw
           (fun q => pool_acc q
                     = fold_left (fun acc f => step f acc) (pool_yielded q) init));
    [| | exact Hacc].
  - intros k q q' Hq Hw.
    destruct (work_inv mw k q q' Hw) as (i & task & snap & _ & _ & -> & _).
    exact Hq.
  - intros k q q' Hq Hc.
    destruct (collect_inv body k q q' Hc)
      as [[_ ->] | (f & found & found' & waiting' & _ & _ & ->)]; [exact Hq |].
    rewrite yield_to_inv. cbn [pool_acc pool_yielded].
    destruct f as [i r]. cbn [fst snd]. rewrite Hbody, fold_left_app, <- Hq.
    reflexivity.
Qed.

(** The lines printed stay, through the tasks and the loop. *)
Lemma pool_turns_keeps_prints {R S : Type} (body : nat -> Result R -> S -> M S)
    (mw turns : nat) (sched : list Turn) (p : Pool R S) :
  Forall (fun t => keeps_prints (snd t)) (pool_tasks p) ->
  (forall i r acc, keeps_prints (body i r acc)) ->
  exists new,
    printed (pool_world (pool_turns body mw turns sched p))
    = printed (pool_world p) ++ new.
Proof.
  intros Htasks Hbody.
  apply (pool_turns_inv body mw
           (fun q => Forall (fun t => keeps_prints (snd t)) (pool_tasks q)
                     /\ exists new, printed (pool_world q)
                                    = printed (pool_world p) ++ new));
    [| | split; [exact Htasks | exists []; rewrite app_nil_r; reflexivity]].
  - intros k q q' [Ht [n1 E1]] Hw.
    split; [eapply pool_tasks_work; eassumption |].
    destruct (work_inv mw k q q' Hw) as (i & task & snap & Hin & _ & -> & _).
    rewrite List.Forall_forall in Ht.
    destruct (Ht (i, task) Hin (pool_world q)) as [n2 E2].
    exists (n1 ++ n2). cbn [pool_world snd] in *. rewrite E2, E1.
    symmetry. apply app_assoc.
  - intros k q q' [Ht [n1 E1]] Hc.
    rewrite (pool_tasks_collect body k q q' Hc). split; [exact Ht |].
    destruct (collect_inv body k q q' Hc)
      as [[_ ->] | (f & found & found' & waiting' & _ & _ & ->)];
      [exists n1; exact E1 |].
    rewrite yield_to_inv. cbn [pool_world].
    destruct (Hbody (fst f) (snd f) (pool_acc q) (pool_world q)) as [n2 E2].
    exists (n1 ++ n2). rewrite E2, E1. symmetry. apply app_assoc.
Qed.


(** The pool neither reads nor writes the disk when its tasks and the
    body of the loop do not. *)
Lemma work_blind {R S : Type} (mw k : nat) (p : Pool R S) fs ds t :
  Forall (fun t => disk_blind (snd t)) (pool_tasks p) ->
  work mw k (pool_at (with_disk fs ds t (pool_world p)) p)
  = option_map (fun q => pool_at (with_disk fs ds t (pool_world q)) q)
      (work mw k p).
Proof.
  intros Ht. unfold work, pool_at. cbn [pool_queue pool_running pool_world
    pool_waiting pool_collector pool_acc pool_completed pool_snapshots
    pool_yielded].
  assert (Hrun : Forall (fun t => disk_blind (snd t))
                   (snd (pool_fill mw (pool_queue p) (pool_running p)))).
  { unfold pool_tasks in Ht. apply Forall_app in Ht as [Hr Hq].
    apply (pool_fill_Forall _ mw _ _ Hq Hr). }
  destruct (pool_fill mw (pool_queue p) (pool_running p)) as [queue1 running1];
    cbn [fst snd] in *.
  destruct running1 as [| first running2]; [reflexivity |].
  pose proof (pick_Forall _ k first running2 Hrun) as Hpick.
  destruct (nth (k mod length (first :: running2)) (first :: running2) first)
    as [i task].
  cbn [snd] in Hpick. rewrite Hpick.
  destruct (task (pool_world p)) as [r w1]; reflexivity.
Qed.

Lemma collect_blind {R S : Type} (body : nat -> Result R -> S -> M S) (k : nat)
    (p : Pool R S) fs ds t :
  (forall i r acc, disk_blind (body i r acc)) ->
  collect body k (pool_at (with_disk fs ds t (pool_world p)) p)
  = option_map (fun q => pool_at (with_disk fs ds t (pool_world q)) q)
      (collect body k p).
Proof.
  intros Hbody. unfold collect, pool_at, yield_to.
  cbn [pool_queue pool_running pool_world pool_waiting pool_collector pool_acc
       pool_completed pool_snapshots pool_yielded].
  destruct (pool_collector p) as [| [| first others] | e]; try reflexivity.
  - destruct (pool_waiting p) as [| f waiting]; [reflexivity |].
    rewrite Hbody.
    destruct (body (fst f) (snd f) (pool_acc p) (pool_world p)) as [[acc | e] w1];
      reflexivity.
  - rewrite Hbody.
    destruct (body _ _ (pool_acc p) (pool_world p)) as [[acc | e] w1];
      reflexivity.
Qed.

Lemma pool_turns_blind {R S : Type} (body : nat -> Result R -> S -> M S)
    (mw : nat) fs ds t :
  (forall i r acc, disk_blind (body i r acc)) ->
  forall turns sched (p : Pool R S),
    Forall (fun t => disk_blind (snd t)) (pool_tasks p) ->
    pool_turns body mw turns sched (pool_at (with_disk fs ds t (pool_world p)) p)
    = pool_at (with_disk fs ds t (pool_world (pool_turns body mw turns sched p)))
        (pool_turns body mw turns sched p).
Proof.
  intros Hbody.
  assert (Hsame : forall (q : Pool R S) w, pool_world (pool_at w q) = w)
    by reflexivity.
  induction turns as [| turns IH]; intros sched p Ht; [reflexivity |].
  cbn [pool_turns]. unfold take_turn.
  destruct (hd (Worker 0) sched) as [k | k].
  - rewrite (work_blind mw k p fs ds t Ht).
    destruct (work mw k p) as [p' |] eqn:Ew; cbn [option_map].
    + apply IH. eapply pool_tasks_work; eassumption.
    + rewrite (collect_blind body k p fs ds t Hbody).
      destruct (collect body k p) as [p' |] eqn:Ec; cbn [option_map];
        [| reflexivity].
      apply IH. rewrite (pool_tasks_collect body k p p' Ec). exact Ht.
  - rewrite (collect_blind body k p fs ds t Hbody).
    destruct (collect body k p) as [p' |] eqn:Ec; cbn [option_map].
    + apply IH. rewrite (pool_tasks_collect body k p p' Ec). exact Ht.
    + rewrite (work_blind mw k p fs ds t Ht).
      destruct (work mw k p) as [p' |] eqn:Ew; cbn [option_map];
        [| reflexivity].
      apply IH. eapply pool_tasks_work; eassumption.
Qed.

Lemma pool3_blind {A B C : Type} (sched : list nat) (a : M A) (b : M B) (c : M C) :
  disk_blind a -> disk_blind b -> disk_blind c -> disk_blind (pool3 sched a b c).
Proof.
  intros Ha Hb Hc fs ds t w. unfold pool3.
  destruct (hd O sched mod 3)%nat as [| [| n]];
    destruct (hd O (tl sched) mod 2)%nat as [| n'];
    repeat first
      [ rewrite Ha;
        match goal with |- context [a ?x] => destruct (a x) as [? ?] end;
        cbn [fst snd]
      | rewrite Hb;
        match goal with |- context [b ?x] => destruct (b x) as [? ?] end;
        cbn [fst snd]
      | rewrite Hc;
        match goal with |- context [c ?x] => destruct (c x) as [? ?] end;
        cbn [fst snd] ];
    reflexivity.
Qed.

(** The three futures of [pool3] hold the results of the three tasks, each
    run in some world. *)
Lemma pool3_results {A B C : Type} (sched : list nat) (a : M A) (b : M B)
    (c : M C) (w : World) :
  exists wa wb wc,
    fst (pool3 sched a b c w) = Ok (fst (a wa), fst (b wb), fst (c wc)).
Proof.
  unfold pool3.
  destruct (hd O sched mod 3)%nat as [| [| n]];
    destruct (hd O (tl sched) mod 2)%nat as [| n'];
    repeat match goal with
      | |- context [let (_, _) := ?m ?x in _] =>
          let E := fresh "E" in destruct (m x) as [? ?] eqn:E
      end; simpl;
    repeat match goal with
      | E : ?m ?x = (?r, _) |- _ =>
          replace r with (fst (m x)) by (rewrite E; reflexivity); clear E
      end;
    eauto.
Qed.

(** ** The handlers and the cache, for the three properties *)

Lemma disk_blind_try_request {A : Type} (m : M A) (k : string -> M A) :
  disk_blind m -> (forall msg, disk_blind (k msg)) ->
  disk_blind (try_except m (on_request_exception k)).
Proof.
  intros Hm Hk. apply disk_blind_try; [exact Hm |].
  intros [msg | | | | |] k' E; simpl in E; try discriminate.
  injection E as <-. apply Hk.
Qed.

Lemma disk_blind_try_json {A : Type} (m k : M A) :
  disk_blind m -> disk_blind k ->
  disk_blind (try_except m (on_json_decode_error k)).
Proof.
  intros Hm Hk. apply disk_blind_try; [exact Hm |].
  intros [msg | | | | |] k' E; simpl in E; try discriminate.
  injection E as <-. apply Hk.
Qed.

Lemma disk_blind_try_any {A : Type} (m : M A) (k : Exn -> M A) :
  disk_blind m -> (forall e, disk_blind (k e)) ->
  disk_blind (try_except m (on_exception k)).
Proof.
  intros Hm Hk. apply disk_blind_try; [exact Hm |].
  intros e k' E. injection E as <-. apply Hk.
Qed.

Lemma keeps_prints_try_request {A : Type} (m : M A) (k : string -> M A) :
  keeps_prints m -> (forall msg, keeps_prints (k msg)) ->
  keeps_prints (try_except m (on_request_exception k)).
Proof.
  intros Hm Hk. apply keeps_prints_try; [exact Hm |].
  intros [msg | | | | |] k' E; simpl in E; try discriminate.
  injection E as <-. apply Hk.
Qed.

Lemma keeps_prints_try_json {A : Type} (m k : M A) :
  keeps_prints m -> keeps_prints k ->
  keeps_prints (try_except m (on_json_decode_error k)).
Proof.
  intros Hm Hk. apply keeps_prints_try; [exact Hm |].
  intros [msg | | | | |] k' E; simpl in E; try discriminate.
  injection E as <-. apply Hk.
Qed.

Lemma keeps_prints_try_any {A : Type} (m : M A) (k : Exn -> M A) :
  keeps_prints m -> (forall e, keeps_prints (k e)) ->
  keeps_prints (try_except m (on_exception k)).
Proof.
  intros Hm Hk. apply keeps_prints_try; [exact Hm |].
  intros e k' E. injection E as <-. apply Hk.
Qed.

(** A handler for [RequestException] leaves the other exceptions of the body
    to the caller. *)
Lemma raises_only_try_request {A : Type} (C D : Exn -> Prop) (m : M A)
    (k : string -> M A) :
  raises_only C m -> (forall msg, raises_only D (k msg)) ->
  (forall e, C e -> ~ is_request_exception e -> D e) ->
  raises_only D (try_except m (on_request_exception k)).
Proof.
  intros Hm Hk HCD. apply (raises_only_try C); [exact Hm |].
  intros [msg | key | | | |] He; simpl; try (apply HCD; [exact He | tauto]).
  apply Hk.
Qed.

Lemma never_raises_try_request {A : Type} (m : M A) (k : string -> M A) :
  raises_only is_request_exception m -> (forall msg, never_raises (k msg)) ->
  never_raises (try_except m (on_request_exception k)).
Proof.
  intros Hm Hk. apply (raises_only_try_request is_request_exception); auto.
Qed.

Lemma raises_only_try_json {A : Type} (C D : Exn -> Prop) (m k : M A) :
  raises_only C m -> raises_only D k ->
  (forall e, C e -> e <> JSONDecodeError -> D e) ->
  raises_only D (try_except m (on_json_decode_error k)).
Proof.
  intros Hm Hk HCD. apply (raises_only_try C); [exact Hm |].
  intros [msg | key | | | |] He; simpl;
    try (apply HCD; [exact He | discriminate]).
  apply Hk.
Qed.

Lemma raises_only_try_any {A : Type} (D : Exn -> Prop) (m : M A) (k : Exn -> M A) :
  (forall e, raises_only D (k e)) -> raises_only D (try_except m (on_exception k)).
Proof.
  intros Hk. apply (raises_only_try any_exception).
  - intros w e _. exact I.
  - intros e _. simpl. apply Hk.
Qed.

Lemma raises_only_print (C : Exn -> Prop) (msg : Msg) : raises_only C (print msg).
Proof. intros w e E. discriminate E. Qed.

Lemma raises_only_log_request (C : Exn -> Prop) (r : Request) :
  raises_only C (log_request r).
Proof. intros w e E. discriminate E. Qed.

Lemma raises_only_set_postid_cache (C : Exn -> Prop) c :
  raises_only C (set_postid_cache c).
Proof. intros w e E. discriminate E. Qed.

Lemma lru_cache_blind (n : nat) (f : string -> M (option string)) (key : string) :
  (forall k, disk_blind (f k)) -> disk_blind (lru_cache n f key).
Proof.
  intros Hf fs ds t w. unfold lru_cache.
  change (postid_cache (with_disk fs ds t w)) with (postid_cache w).
  destruct (Html.assoc key (postid_cache w)) as [v |].
  - reflexivity.
  - apply disk_blind_bind; [apply Hf |]. intros v.
    apply disk_blind_bind; [| intros ?; apply disk_blind_ret].
    intros fs' ds' t' w'. reflexivity.
Qed.

Lemma lru_cache_keeps_prints (n : nat) (f : string -> M (option string))
    (key : string) :
  (forall k, keeps_prints (f k)) -> keeps_prints (lru_cache n f key).
Proof.
  intros Hf w. unfold lru_cache.
  destruct (Html.assoc key (postid_cache w)) as [v |].
  - exists []. rewrite app_nil_r. reflexivity.
  - apply keeps_prints_bind; [apply Hf |]. intros v.
    apply keeps_prints_bind; [| intros ?; apply keeps_prints_ret].
    apply keeps_prints_same. reflexivity.
Qed.

Lemma lru_cache_raises (C : Exn -> Prop) (n : nat)
    (f : string -> M (option string)) (key : string) :
  (forall k, raises_only C (f k)) -> raises_only C (lru_cache n f key).
Proof.
  intros Hf w. unfold lru_cache.
  destruct (Html.assoc key (postid_cache w)) as [v |].
  - intros e E. discriminate E.
  - apply raises_only_bind; [apply Hf |]. intros v.
    apply raises_only_bind; [| intros ?; apply raises_only_ret].
    intros w' e E. discriminate E.
Qed.

Create HintDb prog discriminated.

Ltac prog_cases :=
  match goal with
  | |- _ (match ?x with _ => _ end) => destruct x
  | |- _ (let _ := _ in _) => cbv zeta
  end.

Ltac blind :=
  repeat first
    [ progress intros
    | apply disk_blind_ret | apply disk_blind_raise | apply disk_blind_print
    | apply disk_blind_log_request | apply disk_blind_future_result
    | apply disk_blind_eval
    | solve [auto with prog]
    | apply disk_blind_try_request | apply disk_blind_try_json
    | apply disk_blind_try_any | apply disk_blind_bind
    | prog_cases ].

Ltac prints :=
  repeat first
    [ progress intros
    | apply keeps_prints_ret | apply keeps_prints_raise
    | apply keeps_prints_print | apply keeps_prints_log_request
    | apply keeps_prints_future_result | apply keeps_prints_eval
    | solve [auto with prog]
    | apply keeps_prints_try_request | apply keeps_prints_try_json
    | apply keeps_prints_try_any | apply keeps_prints_bind
    | prog_cases ].

(** ** The functions of web.py neither read nor write the disk, and keep
    the lines printed *)

Lemma send_blind (r : Request) : disk_blind (send r).
Proof. unfold send. blind. Qed.

Lemma send_keeps_prints (r : Request) : keeps_prints (send r).
Proof. unfold send. prints. Qed.

Lemma raise_for_status_blind (r : Response) : disk_blind (raise_for_status r).
Proof. unfold raise_for_status. blind. Qed.

Lemma raise_for_status_keeps_prints (r : Response) :
  keeps_prints (raise_for_status r).
Proof. unfold raise_for_status. prints. Qed.

Lemma loads_blind (s : string) : disk_blind (loads s).
Proof. unfold loads. blind. Qed.

Lemma loads_keeps_prints (s : string) : keeps_prints (loads s).
Proof. unfold loads. prints. Qed.

Lemma py_get_blind (j : Json) (k : string) : disk_blind (py_get j k).
Proof. unfold py_get. blind. Qed.

Lemma py_get_keeps_prints (j : Json) (k : string) : keeps_prints (py_get j k).
Proof. unfold py_get. prints. Qed.

Lemma py_index_blind (j : Json) (k : string) : disk_blind (py_index j k).
Proof. unfold py_index. blind. Qed.

Lemma py_index_keeps_prints (j : Json) (k : string) :
  keeps_prints (py_index j k).
Proof. unfold py_index. prints. Qed.

#[local] Hint Resolve send_blind send_keeps_prints raise_for_status_blind
  raise_for_status_keeps_prints loads_blind loads_keeps_prints py_get_blind
  py_get_keeps_prints py_index_blind py_index_keeps_prints : prog.

Lemma get_postid_wrapped_blind (u : string) : disk_blind (get_postid_wrapped u).
Proof. unfold get_postid_wrapped, session_get. blind. Qed.

Lemma get_postid_wrapped_keeps_prints (u : string) :
  keeps_prints (get_postid_wrapped u).
Proof. unfold get_postid_wrapped, session_get. prints. Qed.

Lemma get_postid_blind (u : string) : disk_blind (get_postid u).
Proof. apply lru_cache_blind, get_postid_wrapped_blind. Qed.

Lemma get_postid_keeps_prints (u : string) : keeps_prints (get_postid u).
Proof. apply lru_cache_keeps_prints, get_postid_wrapped_keeps_prints. Qed.

#[local] Hint Resolve get_postid_blind get_postid_keeps_prints : prog.

Lemma get_episode_embed_blind (u : string) : disk_blind (get_episode_embed u).
Proof. unfold get_episode_embed, session_post. blind. Qed.

Lemma get_episode_embed_keeps_prints (u : string) :
  keeps_prints (get_episode_embed u).
Proof. unfold get_episode_embed, session_post. prints. Qed.

#[local] Hint Resolve get_episode_embed_blind get_episode_embed_keeps_prints
  : prog.

Lemma process_episode_link_blind (link : string) (index : N) :
  disk_blind (process_episode_link link index).
Proof. unfold process_episode_link. blind. Qed.

Lemma process_episode_link_keeps_prints (link : string) (index : N) :
  keeps_prints (process_episode_link link index).
Proof. unfold process_episode_link. prints. Qed.

Lemma collect_result_blind links i r acc :
  disk_blind (collect_result links i r acc).
Proof. unfold collect_result. blind. Qed.

Lemma collect_result_keeps_prints links i r acc :
  keeps_prints (collect_result links i r acc).
Proof. unfold collect_result. prints. Qed.

Lemma episode_tasks_Forall (P : M (option (string * Json)) -> Prop) links :
  (forall link index, P (process_episode_link link index)) ->
  Forall (fun t => P (snd t)) (episode_tasks links).
Proof.
  intros H. unfold episode_tasks. apply Forall_forall. intros [i m] Hin.
  apply elem_of_lookup_imap in Hin as (j & link & E & _).
  injection E as -> ->. apply H.
Qed.

Lemma fan_out_blind (sched : list Turn) links : disk_blind (fan_out sched links).
Proof.
  intros fs ds t w. unfold fan_out, episode_pool, pool_as_completed.
  pose proof (pool_turns_blind (collect_result links) MAX_WORKERS fs ds t
                (collect_result_blind links)
                (2 * length (episode_tasks links) + 1) sched
                (mkPool (episode_tasks links) [] [] NotBegun [] [] [] [] w)) as H.
  unfold pool_at in H. cbn [pool_queue pool_running pool_waiting pool_collector
    pool_acc pool_completed pool_snapshots pool_yielded pool_world] in H.
  rewrite H; [reflexivity |].
  apply (episode_tasks_Forall disk_blind), process_episode_link_blind.
Qed.

#[local] Hint Resolve fan_out_blind : prog.

Lemma get_all_episodes_blind (sched : list Turn) (base_url : string) :
  disk_blind (get_all_episodes sched base_url).
Proof. unfold get_all_episodes, session_get. blind. Qed.

Lemma upload_image_from_url_blind (u : string) : disk_blind (upload_image_from_url u).
Proof. unfold upload_image_from_url, session_post. blind. Qed.

#[local] Hint Resolve upload_image_from_url_blind : prog.

Lemma get_bg_image_blind (base_url : string) : disk_blind (get_bg_image base_url).
Proof. unfold get_bg_image, session_get. blind. Qed.

Lemma extract_info_blind (base_url : string) : disk_blind (extract_info base_url).
Proof. unfold extract_info, session_get. blind. Qed.

#[local] Hint Resolve get_all_episodes_blind get_bg_image_blind
  extract_info_blind : prog.

(** ** Which exceptions leave which function *)

Ltac raises :=
  repeat first
    [ progress intros
    | apply raises_only_ret | apply raises_only_print
    | apply raises_only_log_request
    | apply raises_only_raise; solve [simpl; auto]
    | solve [auto with prog]
    | apply never_raises_try_request | apply raises_only_try_any
    | apply raises_only_bind
    | prog_cases ].

Lemma send_raises (r : Request) : raises_only is_request_exception (send r).
Proof. unfold send. raises. Qed.

Lemma raise_for_status_raises (r : Response) :
  raises_only is_request_exception (raise_for_status r).
Proof. unfold raise_for_status. raises. Qed.

#[local] Hint Resolve send_raises raise_for_status_raises : prog.

Lemma collect_result_never_raises links i r acc :
  never_raises (collect_result links i r acc).
Proof. unfold collect_result, never_raises. raises. Qed.

Lemma episode_pool_handed (sched : list Turn) links (w : World) :
  (forall e, pool_collector (episode_pool sched links w) <> Gone e)
  /\ Permutation
       (pool_yielded (episode_pool sched links w)
        ++ pool_pending (episode_pool sched links w))
       (pool_completed (episode_pool sched links w)).
Proof.
  unfold episode_pool, pool_as_completed.
  apply pool_turns_handed;
    [apply collect_result_never_raises | discriminate | reflexivity].
Qed.

Lemma fan_out_never_raises (sched : list Turn) links :
  never_raises (fan_out sched links).
Proof.
  intros w e. unfold fan_out, pool_result. cbn [fst].
  destruct (episode_pool_handed sched links w) as [Hg _].
  destruct (pool_collector (episode_pool sched links w)) as [| found | e'];
    try discriminate.
  destruct (Hg e' eq_refl).
Qed.

Lemma fan_out_raises C (sched : list Turn) links :
  raises_only C (fan_out sched links).
Proof. apply never_raises_only, fan_out_never_raises. Qed.

#[local] Hint Resolve fan_out_raises : prog.

Lemma get_all_episodes_never_raises (sched : list Turn) (base_url : string) :
  never_raises (get_all_episodes sched base_url).
Proof.
  unfold get_all_episodes, session_get. apply never_raises_try_request; raises.
Qed.

Lemma upload_image_from_url_never_raises (u : string) :
  never_raises (upload_image_from_url u).
Proof. unfold upload_image_from_url. unfold never_raises. raises. Qed.

Lemma upload_image_from_url_raises C (u : string) :
  raises_only C (upload_image_from_url u).
Proof. apply never_raises_only, upload_image_from_url_never_raises. Qed.

#[local] Hint Resolve upload_image_from_url_raises : prog.

Lemma get_bg_image_never_raises (base_url : string) :
  never_raises (get_bg_image base_url).
Proof.
  unfold get_bg_image, session_get. apply never_raises_try_request; raises.
Qed.

Lemma extract_info_never_raises (base_url : string) :
  never_raises (extract_info base_url).
Proof.
  unfold extract_info, session_get. apply never_raises_try_request; raises.
Qed.

(** The three futures of [scrape_and_save] hold values, and the disk and
    the clock are as before. *)
Lemma fetch_all_spec (outer : list nat) (inner : list Turn) (base_url : string) (w : World) :
  exists episodes img_url info w3,
    pool3 outer (get_all_episodes inner base_url) (get_bg_image base_url)
      (extract_info base_url) w
    = (Ok (Ok episodes, Ok img_url, Ok info), w3)
    /\ files w3 = files w /\ dirs w3 = dirs w /\ clock w3 = clock w
    /\ (exists wa, fst (get_all_episodes inner base_url wa) = Ok episodes)
    /\ (exists wb, fst (get_bg_image base_url wb) = Ok img_url)
    /\ (exists wc, fst (extract_info base_url wc) = Ok info).
Proof.
  set (p := pool3 outer (get_all_episodes inner base_url) (get_bg_image base_url)
              (extract_info base_url)).
  assert (Hblind : disk_blind p) by (apply pool3_blind; auto with prog).
  destruct (pool3_results outer (get_all_episodes inner base_url)
              (get_bg_image base_url) (extract_info base_url) w)
    as (wa & wb & wc & Hres).
  fold p in Hres.
  destruct (never_raises_ok _ wa (get_all_episodes_never_raises inner base_url))
    as [episodes Ha].
  destruct (never_raises_ok _ wb (get_bg_image_never_raises base_url))
    as [img_url Hb].
  destruct (never_raises_ok _ wc (extract_info_never_raises base_url))
    as [info Hc].
  destruct (disk_blind_frame p w Hblind) as (Hf & Hd & Hc').
  exists episodes, img_url, info, (snd (p w)).
  rewrite Ha, Hb, Hc in Hres.
  split; [destruct (p w); simpl in *; congruence |].
  repeat split; eauto.
Qed.

(** ** [scrape_and_save] *)

Lemma Qltb_lt (a b : Q) : Qltb a b = true <-> (a < b)%Q.
Proof.
  unfold Qltb. rewrite negb_true_iff, <- not_true_iff_false, Qle_bool_iff.
  split; [apply Qnot_le_lt | apply Qlt_not_le].
Qed.

Lemma Qltb_ge (a b : Q) : Qltb a b = false <-> (b <= a)%Q.
Proof.
  unfold Qltb. rewrite negb_false_iff. apply Qle_bool_iff.
Qed.

Lemma cache_is_fresh_spec (cache_file : string) (w : World) :
  exists w', cache_is_fresh cache_file w = (Ok (fresh_in w cache_file), w')
    /\ files w' = files w /\ dirs w' = dirs w /\ clock w' = clock w
    /\ sent w' = sent w /\ postid_cache w' = postid_cache w
    /\ (fresh_in w cache_file = false -> w' = w).
Proof.
  unfold cache_is_fresh, fresh_in, bind, stat_file, time_time. simpl.
  destruct (files w !! cache_file) as [f |]; simpl.
  - destruct (Qltb (clock w - mtime f) ONE_DAY); simpl.
    + eexists; split; [reflexivity |]. simpl. repeat split. discriminate.
    + eexists; split; [reflexivity |]. repeat split.
  - eexists; split; [reflexivity |]. repeat split.
Qed.

(** The run of [scrape_and_save] on a URL of the site whose cache file is
    missing or a day old: the three tasks, then the file or the error
    line. *)
Lemma scrape_and_save_fetches (outer : list nat) (inner : list Turn) (base_url : string)
    (w : World) :
  Text.startswith base_url SITE_PREFIX = true ->
  fresh_in w (cache_file_of base_url) = false ->
  exists episodes img_url info w3,
    pool3 outer (get_all_episodes inner base_url) (get_bg_image base_url)
      (extract_info base_url)
      (after_print (MsgScraping base_url) (after_makedirs w))
    = (Ok (Ok episodes, Ok img_url, Ok info), w3)
    /\ files w3 = files w /\ clock w3 = clock w
    /\ scrape_and_save outer inner base_url w
       = match episodes with
         | None => (Ok ExitNoEpisodes, after_print (MsgEpisodesFailed base_url) w3)
         | Some eps =>
             (Ok ExitSaved,
              after_print (MsgCompleted (clock w3 - clock w))
                (after_print (MsgSaved base_url (cache_file_of base_url))
                   (mkWorld
                      (<[cache_file_of base_url :=
                           mkFile (json_dumps (data_to_save base_url img_url info eps))
                             (clock w3)]> (files w3))
                      (dirs w3) (clock w3) (sent w3) (printed w3)
                      (postid_cache w3))))
         end.
Proof.
  intros Hurl Hstale.
  destruct (fetch_all_spec outer inner base_url
              (after_print (MsgScraping base_url) (after_makedirs w)))
    as (episodes & img_url & info & w3 & Hpool & Hfiles & _ & Hclock & _).
  exists episodes, img_url, info, w3.
  split; [exact Hpool |]. split; [exact Hfiles |]. split; [exact Hclock |].
  unfold scrape_and_save, bind, time_time. rewrite Hurl. cbn [negb].
  destruct (cache_is_fresh_spec (cache_file_of base_url) (after_makedirs w))
    as (w1 & Hfresh & _ & _ & _ & _ & _ & Hsame).
  change (makedirs "cache" w) with (Ok tt, after_makedirs w). cbv iota.
  change (fresh_in (after_makedirs w) (cache_file_of base_url))
    with (fresh_in w (cache_file_of base_url)) in *.
  rewrite Hstale in *. rewrite Hfresh, (Hsame eq_refl). cbv iota beta.
  change (print (MsgScraping base_url) (after_makedirs w))
    with (Ok tt, after_print (MsgScraping base_url) (after_makedirs w)).
  cbv iota. rewrite Hpool. cbv iota beta. unfold future_result.
  destruct episodes as [eps |]; reflexivity.
Qed.

(** The run on a URL of the site whose cache file is less than a day old. *)
Lemma scrape_and_save_cached (outer : list nat) (inner : list Turn) (base_url : string)
    (w : World) (f : File) :
  Text.startswith base_url SITE_PREFIX = true ->
  files w !! cache_file_of base_url = Some f ->
  (clock w - mtime f < ONE_DAY)%Q ->
  scrape_and_save outer inner base_url w
  = (Ok ExitCached,
     after_print (MsgUsingCache (cache_file_of base_url) (clock w - mtime f))
       (after_makedirs w)).
Proof.
  intros Hurl Hfile Hage.
  unfold scrape_and_save, bind, time_time. rewrite Hurl. cbn [negb].
  change (makedirs "cache" w) with (Ok tt, after_makedirs w). cbv iota.
  unfold cache_is_fresh, bind, stat_file, time_time.
  change (files (after_makedirs w)) with (files w).
  change (clock (after_makedirs w)) with (clock w).
  rewrite Hfile. cbn [fmap option_fmap option_map].
  change (clock (after_makedirs w)) with (clock w).
  apply Qltb_lt in Hage. rewrite Hage. reflexivity.
Qed.

Lemma scrape_and_save_never_raises (outer : list nat) (inner : list Turn) (base_url : string) :
  never_raises (scrape_and_save outer inner base_url).
Proof.
  intros w e.
  destruct (Text.startswith base_url SITE_PREFIX) eqn:Hurl.
  - destruct (fresh_in w (cache_file_of base_url)) eqn:Hfresh.
    + unfold fresh_in in Hfresh.
      destruct (files w !! cache_file_of base_url) as [f |] eqn:Hf;
        [| discriminate].
      apply Qltb_lt in Hfresh.
      rewrite (scrape_and_save_cached outer inner base_url w f Hurl Hf Hfresh).
      discriminate.
    + destruct (scrape_and_save_fetches outer inner base_url w Hurl Hfresh)
        as (episodes & img & info & w3 & _ & _ & _ & ->).
      destruct episodes; discriminate.
  - unfold scrape_and_save, bind, time_time. rewrite Hurl. discriminate.
Qed.

(** ** [get_postid] and [get_episode_embed] *)

Lemma send_run (r : Request) (w : World) :
  send r w
  = (match net r with
     | Failed msg => Raise (RequestException msg)
     | Answer response => Ok response
     end, after_request r w).
Proof. unfold send, bind, log_request. destruct (net r); reflexivity. Qed.

(** A fetch, [raise_for_status] included. *)
Lemma fetch_run {A : Type} (r : Request) (k : Response -> M A) (w : World) :
  bind (send r) (fun response => bind (raise_for_status response)
                                   (fun _ => k response)) w
  = match net r with
    | Failed msg => (Raise (RequestException msg), after_request r w)
    | Answer response =>
        if http_failed response
        then (Raise (RequestException (http_error response)), after_request r w)
        else k response (after_request r w)
    end.
Proof.
  unfold bind at 1. rewrite send_run.
  destruct (net r) as [msg | response]; [reflexivity |].
  unfold bind, raise_for_status, http_failed.
  destruct ((400 <=? status_code response) && (status_code response <? 600))%Z;
    reflexivity.
Qed.

Lemma get_postid_wrapped_result (u : string) (w : World) :
  fst (get_postid_wrapped u w) = postid_of_page u
  /\ postid_cache (snd (get_postid_wrapped u w)) = postid_cache w.
Proof.
  unfold get_postid_wrapped, try_except, session_get, postid_of_page, fetched_page.
  fold (page_request u). rewrite fetch_run.
  destruct (net (page_request u)) as [msg | response]; [split; reflexivity |].
  destruct (http_failed response); [split; reflexivity |].
  destruct (Html.soup_find is_postid_input (parse_html (text response)))
    as [input |]; [| split; reflexivity].
  destruct (Html.attr "value" input); split; reflexivity.
Qed.




Lemma cache_ok_empty (w : World) : postid_cache w = [] -> cache_ok w.
Proof. intros E u v. rewrite E. discriminate. Qed.

Lemma get_episode_embed_without_postid (u : string) (w : World) :
  fst (get_postid u w) = Ok None \/ fst (get_postid u w) = Ok (Some EmptyString) ->
  get_episode_embed u w
  = (Ok None, after_print (MsgNoPostid u) (snd (get_postid u w))).
Proof.
  unfold get_episode_embed, bind.
  destruct (get_postid u w) as [r w1]; simpl.
  intros [-> | ->]; reflexivity.
Qed.

Lemma get_episode_embed_with_postid (u postid : string) (w : World) :
  fst (get_postid u w) = Ok (Some postid) -> postid <> EmptyString ->
  get_episode_embed u w
  = match fetch_error (embed_request u postid), net (embed_request u postid) with
    | None, Answer response =>
        (Ok (Some (text response)),
         after_request (embed_request u postid) (snd (get_postid u w)))
    | Some e, _ =>
        (Ok None,
         after_print (MsgEmbedFailed u e)
           (after_request (embed_request u postid) (snd (get_postid u w))))
    | None, Failed msg =>
        (Ok None,
         after_print (MsgEmbedFailed u msg)
           (after_request (embed_request u postid) (snd (get_postid u w))))
    end.
Proof.
  unfold get_episode_embed. unfold bind at 1.
  destruct (get_postid u w) as [r w1]; simpl. intros -> Hne.
  destruct postid as [| c postid]; [contradiction |].
  unfold try_except, session_post. fold (embed_request u (String c postid)).
  rewrite fetch_run. unfold fetch_error.
  destruct (net (embed_request u (String c postid))) as [msg | response];
    [reflexivity |].
  destruct (http_failed response); reflexivity.
Qed.




(** ** The episodes mapping *)

Lemma dict_get_set_eq (k : string) (v : Json) (d : Dict) :
  dict_get k (dict_set k v d) = Some v.
Proof.
  unfold dict_get.
  induction d as [| [k' v'] d IH]; simpl; [rewrite String.eqb_refl; reflexivity |].
  destruct (String.eqb k' k) eqn:E; simpl.
  - rewrite String.eqb_refl. reflexivity.
  - rewrite E. exact IH.
Qed.

Lemma dict_get_set_ne (k k' : string) (v : Json) (d : Dict) :
  k <> k' -> dict_get k' (dict_set k v d) = dict_get k' d.
Proof.
  intros Hne. unfold dict_get.
  induction d as [| [k2 v2] d IH]; simpl.
  - apply String.eqb_neq in Hne. rewrite Hne. reflexivity.
  - destruct (String.eqb k2 k) eqn:E; simpl.
    + apply String.eqb_eq in E as ->.
      apply String.eqb_neq in Hne. rewrite Hne. reflexivity.
    + destruct (String.eqb k2 k'); [reflexivity | exact IH].
Qed.

Lemma dict_set_keys (k : string) (v : Json) (d : Dict) :
  dict_keys (dict_set k v d)
  = if existsb (String.eqb k) (dict_keys d) then dict_keys d
    else dict_keys d ++ [k].
Proof.
  unfold dict_keys. induction d as [| [k' v'] d IH]; simpl; [reflexivity |].
  rewrite (String.eqb_sym k k').
  destruct (String.eqb k' k) eqn:E; simpl.
  - apply String.eqb_eq in E as ->. reflexivity.
  - rewrite IH. destruct (existsb (String.eqb k) (map fst d)); reflexivity.
Qed.

Lemma dict_set_NoDup (k : string) (v : Json) (d : Dict) :
  NoDup (dict_keys d) -> NoDup (dict_keys (dict_set k v d)).
Proof.
  intros H. rewrite dict_set_keys.
  destruct (existsb (String.eqb k) (dict_keys d)) eqn:E; [exact H |].
  apply NoDup_app. split; [exact H |]. split; [| apply NoDup_singleton].
  intros x Hx Hk. apply list_elem_of_singleton in Hk as ->.
  apply not_true_iff_false in E. apply E.
  apply existsb_exists. exists k. split; [| apply String.eqb_refl].
  apply list_elem_of_In, Hx.
Qed.

Lemma dict_set_Forall (P : string * Json -> Prop) (k : string) (v : Json) (d : Dict) :
  P (k, v) -> Forall P d -> Forall P (dict_set k v d).
Proof.
  intros Hkv H. induction H as [| [k' v'] d Hx Hd IH]; simpl.
  - repeat constructor. exact Hkv.
  - destruct (String.eqb k' k); constructor; assumption.
Qed.

Lemma store_all_Forall (P : string * Json -> Prop) entries : forall acc,
  Forall P entries -> Forall P acc -> Forall P (store_all entries acc).
Proof.
  unfold store_all.
  induction entries as [| [k v] entries IH]; intros acc He Ha; simpl;
    [exact Ha |].
  apply Forall_cons in He as [Hkv He].
  apply IH; [exact He | apply dict_set_Forall; assumption].
Qed.

Lemma store_all_NoDup entries : forall acc,
  NoDup (dict_keys acc) -> NoDup (dict_keys (store_all entries acc)).
Proof.
  unfold store_all.
  induction entries as [| [k v] entries IH]; intros acc Ha; simpl; [exact Ha |].
  apply IH, dict_set_NoDup, Ha.
Qed.

(** Under a key, the mapping holds the last record stored under it. *)
Lemma store_all_last (k : string) (v : Json) earlier later : forall acc,
  ~ In k (map fst later) ->
  dict_get k (store_all (earlier ++ (k, v) :: later) acc) = Some v.
Proof.
  unfold store_all. intros acc Hlater.
  rewrite fold_left_app. simpl.
  set (d := dict_set k v _).
  assert (Hd : dict_get k d = Some v) by apply dict_get_set_eq.
  clearbody d. revert d Hd.
  induction later as [| [k' v'] later IH]; intros d Hd; simpl; [exact Hd |].
  apply IH.
  - intros Hin. apply Hlater. right. exact Hin.
  - rewrite dict_get_set_ne; [exact Hd |].
    intros ->. apply Hlater. left. reflexivity.
Qed.

(** A key of the mapping was stored by some result. *)
Lemma store_all_origin (k : string) (v : Json) entries : forall acc,
  dict_get k (store_all entries acc) = Some v ->
  In (k, v) entries \/ dict_get k acc = Some v.
Proof.
  unfold store_all.
  induction entries as [| [k' v'] entries IH]; intros acc H; simpl in *;
    [right; exact H |].
  destruct (IH _ H) as [Hin | Hacc]; [left; right; exact Hin |].
  destruct (String.eqb_spec k' k) as [-> | Hne].
  - rewrite dict_get_set_eq in Hacc. injection Hacc as ->. left; left; reflexivity.
  - rewrite dict_get_set_ne in Hacc by exact Hne. right. exact Hacc.
Qed.

(** One pass of the loop over [as_completed]. *)
Lemma collect_result_run links i r acc (w : World) :
  collect_result links i r acc w
  = match r with
    | Ok (Some (k, v)) => (Ok (dict_set k v acc), w)
    | Ok None => (Ok acc, w)
    | Raise e =>
        (Ok acc, after_print (MsgErrorProcessing (nth i links EmptyString) e) w)
    end.
Proof. destruct r as [[[k v] |] | e]; reflexivity. Qed.

Lemma store_results_all (done : list (nat * Result (option (string * Json)))) :
  forall acc,
    fold_left (fun acc f => store_result f acc) done acc
    = store_all (successes done) acc.
Proof.
  unfold store_all, successes.
  induction done as [| [i r] done IH]; intros acc; [reflexivity |].
  cbn [fold_left omap]. rewrite IH. unfold store_result. cbn [snd].
  destruct r as [[[k v] |] | e]; reflexivity.
Qed.

(** The loop stores the successful results, in the order in which
    [as_completed] hands the futures out, and nothing else. *)
Lemma fan_out_result (sched : list Turn) links (w : World) :
  fst (fan_out sched links w)
  = Ok (store_all (successes (pool_yielded (episode_pool sched links w))) []).
Proof.
  unfold fan_out, pool_result. cbn [fst].
  destruct (episode_pool_handed sched links w) as [Hg _].
  assert (Hacc : pool_acc (episode_pool sched links w)
                 = store_all
                     (successes (pool_yielded (episode_pool sched links w))) []).
  { rewrite <- store_results_all. unfold episode_pool, pool_as_completed.
    apply pool_turns_acc; [| reflexivity].
    intros i r acc w0. rewrite collect_result_run.
    destruct r as [[[k v] |] | e]; reflexivity. }
  destruct (pool_collector (episode_pool sched links w)) as [| found | e];
    [rewrite Hacc; reflexivity.. |].
  destruct (Hg e eq_refl).
Qed.

Lemma imap_ids {A B : Type} (l : list A) : forall (g : nat -> nat) (h : nat -> A -> B),
  map fst (imap (fun i x => (g i, h i x)) l) = map g (seq 0 (length l)).
Proof.
  induction l as [| x l IH]; intros g h; [reflexivity |].
  rewrite imap_cons. simpl. f_equal.
  rewrite <- seq_shift, map_map.
  apply (IH (fun i => g (S i)) (fun i => h (S i))).
Qed.

Lemma episode_tasks_ids links :
  map fst (episode_tasks links) = seq 0 (length links).
Proof.
  unfold episode_tasks.
  rewrite (imap_ids links (fun i => i)
             (fun i link => process_episode_link link (N.of_nat (i + 1)))).
  apply map_id.
Qed.

(** Every task ends once, and every future is handed out once. *)
Lemma episode_pool_complete (sched : list Turn) links (w : World) :
  Permutation (pool_yielded (episode_pool sched links w))
    (pool_completed (episode_pool sched links w))
  /\ Permutation (map fst (pool_completed (episode_pool sched links w)))
       (seq 0 (length links)).
Proof.
  destruct (episode_pool_handed sched links w) as [_ Hperm].
  unfold episode_pool, pool_as_completed in *.
  set (p0 := mkPool (episode_tasks links) [] [] NotBegun ([] : Dict) [] [] [] w)
    in *.
  destruct (pool_turns_done (collect_result links) MAX_WORKERS
              ltac:(unfold MAX_WORKERS; lia) (collect_result_never_raises links)
              (2 * length (episode_tasks links) + 1) sched p0
              ltac:(discriminate))
    as [Htasks Hpending].
  { unfold pool_left, pool_tasks, pool_pending, p0. simpl. lia. }
  rewrite Hpending, app_nil_r in Hperm. split; [exact Hperm |].
  pose proof (pool_turns_ids (collect_result links) MAX_WORKERS
                (2 * length (episode_tasks links) + 1) sched p0) as Hids.
  rewrite Htasks in Hids. cbn [map] in Hids. rewrite app_nil_r in Hids.
  rewrite Hids. unfold p0, pool_tasks. cbn [pool_completed pool_running
    pool_queue map app]. rewrite ?app_nil_r.
  rewrite episode_tasks_ids. reflexivity.
Qed.

(** What a task that succeeds returns: the key of its own number, and a
    record of that number and of its own link. *)
Lemma process_episode_link_result (link : string) (index : N) (w : World)
    (k : string) (rec : Json) :
  fst (process_episode_link link index w) = Ok (Some (k, rec)) ->
  exists ep_num embed_url type_,
    episode_number_or link index = Ok ep_num
    /\ k = Text.str_of_N ep_num
    /\ rec = episode_record ep_num link embed_url type_
    /\ truthy embed_url = true.
Proof.
  unfold process_episode_link. unfold bind at 1. unfold eval.
  destruct (episode_number_or link index) as [ep_num | e]; [| discriminate].
  unfold bind at 1.
  destruct (get_episode_embed link w) as [[[info |] | e] w1]; simpl;
    try discriminate.
  destruct info as [| c info]; [discriminate |].
  unfold try_except, bind, loads.
  destruct (json_loads (String c info)) as [j |]; [| simpl; discriminate].
  simpl. destruct j; simpl; try discriminate.
  destruct (truthy _) eqn:Ht; simpl; [| discriminate].
  intros [= <- <-]. eauto 8.
Qed.

(** What every task guarantees of its result holds of every future. *)
Lemma episode_pool_results
    (Q : nat -> Result (option (string * Json)) -> Prop)
    (sched : list Turn) links (w : World) :
  (forall i link w0,
     links !! i = Some link ->
     Q i (fst (process_episode_link link (N.of_nat (i + 1)) w0))) ->
  Forall (fun d => Q (fst d) (snd d))
    (pool_completed (episode_pool sched links w)).
Proof.
  intros HQ. unfold episode_pool, pool_as_completed.
  apply pool_turns_results; [| constructor].
  unfold pool_tasks. cbn [pool_running pool_queue app].
  apply Forall_forall. intros [i m] Hin.
  apply elem_of_lookup_imap in Hin as (j & link & E & Hlink).
  injection E as -> ->. intros w0. apply HQ, Hlink.
Qed.

Lemma successes_Forall (P : string * Json -> Prop)
    (done : list (nat * Result (option (string * Json)))) :
  Forall (fun d => forall kv, snd d = Ok (Some kv) -> P kv) done ->
  Forall P (successes done).
Proof.
  unfold successes. induction 1 as [| [i r] done Hd Hdone IH]; simpl;
    [constructor |].
  destruct r as [[kv |] | e]; simpl; try exact IH.
  constructor; [apply Hd; reflexivity | exact IH].
Qed.

Lemma fan_out_entries (sched : list Turn) links (w : World) (episodes : Dict) :
  fst (fan_out sched links w) = Ok episodes ->
  Forall episode_entry episodes /\ NoDup (dict_keys episodes).
Proof.
  rewrite fan_out_result. intros [= <-]. split.
  - apply store_all_Forall; [| constructor].
    apply successes_Forall.
    destruct (episode_pool_complete sched links w) as [Hperm _].
    rewrite Hperm.
    apply (episode_pool_results
             (fun _ r => forall kv, r = Ok (Some kv) -> episode_entry kv)).
    intros i link w0 _ [k rec] H.
    apply process_episode_link_result in H as (n & eu & ty & _ & -> & -> & Ht).
    unfold episode_entry. eauto 6.
  - apply store_all_NoDup. constructor.
Qed.

Lemma get_all_episodes_entries (sched : list Turn) (base_url : string)
    (w : World) (episodes : Dict) :
  fst (get_all_episodes sched base_url w) = Ok (Some episodes) ->
  Forall episode_entry episodes /\ NoDup (dict_keys episodes).
Proof.
  unfold get_all_episodes, try_except, session_get. rewrite fetch_run.
  destruct (net _) as [msg | response]; [discriminate |].
  destruct (http_failed response); [discriminate |].
  unfold bind at 1. simpl. unfold bind.
  set (w1 := mkWorld _ _ _ _ _ _).
  pose proof (fan_out_entries sched
                (unique_links_from ∅ (episode_hrefs (parse_html (text response))))
                w1) as H.
  destruct (fan_out sched _ w1) as [[eps | e] w2]; simpl in *;
    [| destruct e; discriminate].
  intros [= <-]. apply H. reflexivity.
Qed.

(** The shapes [extract_info] returns. *)
Lemma extract_info_shape (base_url : string) (w : World) (info : Json) :
  fst (extract_info base_url w) = Ok info ->
  info_record info \/ error_record info.
Proof.
  unfold extract_info, try_except, session_get. rewrite fetch_run.
  destruct (net _) as [msg | response];
    [intros [= <-]; right; eexists; reflexivity |].
  destruct (http_failed response);
    [intros [= <-]; right; eexists; reflexivity |].
  destruct (Html.soup_find (is_div_of_class "media-box") _) as [media_box |];
    simpl; [| intros [= <-]; right; eexists; reflexivity].
  intros [= <-]. left. eexists _, _. split; [reflexivity |]. split.
  - destruct (Html.find (is_div_of_class "genres") media_box) as [genres |];
      [| constructor].
    apply Forall_forall. intros g Hg.
    apply list_elem_of_fmap in Hg as (a & -> & _). eexists; reflexivity.
  - destruct (Html.find (is_div_of_class "content") media_box) as [content_div |];
      [| left; reflexivity].
    destruct (Html.find (Html.is_tag "p") content_div);
      [right; eexists; reflexivity | left; reflexivity].
Qed.

Lemma scrape_and_save_invalid (outer : list nat) (inner : list Turn) (base_url : string)
    (w : World) :
  Text.startswith base_url SITE_PREFIX = false ->
  scrape_and_save outer inner base_url w
  = (Ok ExitInvalidUrl, after_print (MsgInvalidUrl base_url) w).
Proof.
  intros Hurl. unfold scrape_and_save, bind, time_time. rewrite Hurl.
  reflexivity.
Qed.

(** A run that ends with the file written started on a URL of the site,
    with the cache file missing or a day old. *)
Lemma scrape_and_save_saved_inv (outer : list nat) (inner : list Turn) (base_url : string)
    (w w' : World) :
  scrape_and_save outer inner base_url w = (Ok ExitSaved, w') ->
  Text.startswith base_url SITE_PREFIX = true
  /\ fresh_in w (cache_file_of base_url) = false.
Proof.
  intros H.
  destruct (Text.startswith base_url SITE_PREFIX) eqn:Hurl.
  - split; [reflexivity |].
    destruct (fresh_in w (cache_file_of base_url)) eqn:Hfresh; [| reflexivity].
    unfold fresh_in in Hfresh.
    destruct (files w !! cache_file_of base_url) as [f |] eqn:Hf; [| discriminate].
    apply Qltb_lt in Hfresh.
    rewrite (scrape_and_save_cached outer inner base_url w f Hurl Hf Hfresh) in H.
    discriminate.
  - rewrite (scrape_and_save_invalid outer inner base_url w Hurl) in H.
    discriminate.
Qed.

(** What a run that writes the file leaves on the disk. *)
Lemma scrape_and_save_saved (outer : list nat) (inner : list Turn) (base_url : string)
    (w w' : World) :
  scrape_and_save outer inner base_url w = (Ok ExitSaved, w') ->
  exists img_url info episodes w3 wa wb wc,
    pool3 outer (get_all_episodes inner base_url) (get_bg_image base_url)
      (extract_info base_url)
      (after_print (MsgScraping base_url) (after_makedirs w))
    = (Ok (Ok (Some episodes), Ok img_url, Ok info), w3)
    /\ fst (get_all_episodes inner base_url wa) = Ok (Some episodes)
    /\ fst (get_bg_image base_url wb) = Ok img_url
    /\ fst (extract_info base_url wc) = Ok info
    /\ files w'
       = <[cache_file_of base_url :=
             mkFile (json_dumps (data_to_save base_url img_url info episodes))
               (clock w)]> (files w)
    /\ clock w' = clock w
    /\ forall fs ds t w2',
         scrape_and_save outer inner base_url (with_disk fs ds t w)
         = (Ok ExitSaved, w2') ->
         files w2'
         = <[cache_file_of base_url :=
               mkFile (json_dumps (data_to_save base_url img_url info episodes)) t]>
             fs.
Proof.
  intros H.
  destruct (scrape_and_save_saved_inv _ _ _ _ _ H) as [Hurl Hstale].
  destruct (scrape_and_save_fetches outer inner base_url w Hurl Hstale)
    as (episodes & img_url & info & w3 & Hpool & Hfiles & Hclock & Hrun).
  rewrite Hrun in H. destruct episodes as [eps |]; [| discriminate].
  injection H as <-.
  pose proof (fetch_all_spec outer inner base_url
                (after_print (MsgScraping base_url) (after_makedirs w)))
    as (e' & i' & n' & w3' & Hpool' & _ & _ & _ & Ha & Hb & Hc).
  rewrite Hpool in Hpool'. injection Hpool' as <- <- <- <-.
  destruct Ha as [wa Ha], Hb as [wb Hb], Hc as [wc Hc].
  exists img_url, info, eps, w3, wa, wb, wc.
  split; [exact Hpool |].
  split; [exact Ha |]. split; [exact Hb |]. split; [exact Hc |].
  split; [simpl; rewrite Hfiles, Hclock; reflexivity |].
  split; [exact Hclock |].
  intros fs ds t w2' H2.
  destruct (scrape_and_save_saved_inv _ _ _ _ _ H2) as [_ Hstale2].
  destruct (scrape_and_save_fetches outer inner base_url (with_disk fs ds t w)
              Hurl Hstale2)
    as (episodes2 & img2 & info2 & w4 & Hpool2 & Hfiles2 & Hclock2 & Hrun2).
  change (after_print (MsgScraping base_url) (after_makedirs (with_disk fs ds t w)))
    with (with_disk fs ({["cache"]} ∪ ds) t
            (after_print (MsgScraping base_url) (after_makedirs w))) in Hpool2.
  rewrite pool3_blind in Hpool2 by auto with prog.
  rewrite Hpool in Hpool2. cbn [fst snd] in Hpool2.
  injection Hpool2 as <- <- <- <-.
  rewrite Hrun2 in H2. injection H2 as <-. reflexivity.
Qed.

(** ** The claims on the cache *)

(** C9: for every [base_url] that does not start with
    [https://web.animerco.org/], [scrape_and_save] prints the error line and
    returns: no request is sent, no file is written and no directory is
    created; the world is the one before with one more printed line. *)
Theorem invalid_url_returns_at_once (outer : list nat) (inner : list Turn) (base_url : string)
    (w : World) :
  Text.startswith base_url SITE_PREFIX = false ->
  scrape_and_save outer inner base_url w
  = (Ok ExitInvalidUrl,
     mkWorld (files w) (dirs w) (clock w) (sent w)
       (printed w ++ [MsgInvalidUrl base_url]) (postid_cache w)).
Proof.
  intros Hurl. unfold scrape_and_save, bind.
  change (time_time w) with (Ok (clock w), w). cbv iota beta.
  rewrite Hurl. reflexivity.
Qed.

(** C2: on a URL of the site whose cache file exists and is less than
    86400 seconds old, [scrape_and_save] returns by the cached path, sends
    no request and leaves every file as it was; and a run that sends a
    request found the file absent or at least one day old. *)
Theorem fresh_cache_is_not_refetched (outer : list nat) (inner : list Turn) (base_url : string)
    (w : World) :
  Text.startswith base_url SITE_PREFIX = true ->
  (forall f,
     files w !! cache_file_of base_url = Some f ->
     (clock w - mtime f < ONE_DAY)%Q ->
     fst (scrape_and_save outer inner base_url w) = Ok ExitCached
     /\ sent (snd (scrape_and_save outer inner base_url w)) = sent w
     /\ files (snd (scrape_and_save outer inner base_url w)) = files w)
  /\ (sent (snd (scrape_and_save outer inner base_url w)) <> sent w ->
      files w !! cache_file_of base_url = None
      \/ exists f, files w !! cache_file_of base_url = Some f
                   /\ (ONE_DAY <= clock w - mtime f)%Q).
Proof.
  intros Hurl. split.
  - intros f Hf Hage.
    rewrite (scrape_and_save_cached outer inner base_url w f Hurl Hf Hage).
    repeat split.
  - intros Hsent.
    destruct (files w !! cache_file_of base_url) as [f |] eqn:Hf; [| left; reflexivity].
    right. exists f. split; [reflexivity |].
    destruct (Qlt_le_dec (clock w - mtime f) ONE_DAY) as [Hage | Hage];
      [| exact Hage].
    rewrite (scrape_and_save_cached outer inner base_url w f Hurl Hf Hage) in Hsent.
    destruct Hsent. reflexivity.
Qed.

(** C6: a run of [scrape_and_save] that fetches the episodes and saves
    leaves in the per-title cache file exactly the serialization of the
    record it built: the URL, and the episodes, the image link and the
    info that its three futures returned.  The file is stamped with the
    time of the run; every other file is as before; and the text written
    is the same whatever the files held before the run. *)
Theorem cache_file_overwritten_wholesale (outer : list nat) (inner : list Turn)
    (base_url : string) (w w' : World) :
  scrape_and_save outer inner base_url w = (Ok ExitSaved, w') ->
  exists img_url info episodes w3,
    pool3 outer (get_all_episodes inner base_url) (get_bg_image base_url)
      (extract_info base_url)
      (after_print (MsgScraping base_url) (after_makedirs w))
    = (Ok (Ok (Some episodes), Ok img_url, Ok info), w3)
    /\ files w'
       = <[cache_file_of base_url :=
             mkFile (json_dumps (data_to_save base_url img_url info episodes))
               (clock w)]> (files w)
    /\ (forall path, path <> cache_file_of base_url ->
          files w' !! path = files w !! path)
    /\ (forall fs ds t w2',
          scrape_and_save outer inner base_url (with_disk fs ds t w)
          = (Ok ExitSaved, w2') ->
          files w2' !! cache_file_of base_url
          = Some (mkFile (json_dumps (data_to_save base_url img_url info episodes)) t)
          /\ forall path, path <> cache_file_of base_url ->
               files w2' !! path = fs !! path).
Proof.
  intros H.
  destruct (scrape_and_save_saved _ _ _ _ _ H)
    as (img_url & info & eps & w3 & _ & _ & _ & Hpool & _ & _ & _ & Hfiles & _
        & Hany).
  exists img_url, info, eps, w3. split; [exact Hpool |].
  split; [exact Hfiles |]. split.
  - intros path Hne. rewrite Hfiles. apply lookup_insert_ne. congruence.
  - intros fs ds t w2' H2. rewrite (Hany fs ds t w2' H2). split.
    + apply lookup_insert_eq.
    + intros path Hne. apply lookup_insert_ne. congruence.
Qed.

(** ** The fan-out: worker cap and association of results *)

(** For every list of links and every schedule: at no time more than
    [MAX_WORKERS] tasks run; every task ends once and its future is handed
    out once; a task that succeeds returns the key of its own number with
    a record of its own link; and the mapping holds, under each of its
    keys, a record that a task returned under that key. *)
Lemma fan_out_association (sched : list Turn) (links : list string) (w : World) :
  Forall (fun snap => (length snap <= 10)%nat)
    (pool_snapshots (episode_pool sched links w))
  /\ Permutation (map fst (pool_completed (episode_pool sched links w)))
       (seq 0 (length links))
  /\ Permutation (pool_yielded (episode_pool sched links w))
       (pool_completed (episode_pool sched links w))
  /\ Forall (fun d =>
       forall k rec, snd d = Ok (Some (k, rec)) ->
         exists link ep_num,
           links !! fst d = Some link
           /\ episode_number_or link (N.of_nat (fst d + 1)) = Ok ep_num
           /\ k = Text.str_of_N ep_num
           /\ exists embed_url type_,
                rec = episode_record ep_num link embed_url type_)
       (pool_completed (episode_pool sched links w))
  /\ forall k rec episodes,
       fst (fan_out sched links w) = Ok episodes ->
       dict_get k episodes = Some rec ->
       exists i, In (i, Ok (Some (k, rec)))
                   (pool_completed (episode_pool sched links w)).
Proof.
  destruct (episode_pool_complete sched links w) as [Hhanded Hids].
  split; [| split; [exact Hids | split; [exact Hhanded | split]]].
  - unfold episode_pool, pool_as_completed.
    apply (pool_turns_cap (collect_result links) MAX_WORKERS);
      [cbn; unfold MAX_WORKERS; lia | constructor].
  - apply (episode_pool_results
             (fun i r => forall k rec, r = Ok (Some (k, rec)) ->
                exists link ep_num,
                  links !! i = Some link
                  /\ episode_number_or link (N.of_nat (i + 1)) = Ok ep_num
                  /\ k = Text.str_of_N ep_num
                  /\ exists embed_url type_,
                       rec = episode_record ep_num link embed_url type_)).
    intros i link w0 Hlink k rec H.
    apply process_episode_link_result in H as (n & eu & ty & Hn & -> & -> & _).
    exists link, n. eauto 8.
  - intros k rec episodes. rewrite fan_out_result. intros [= <-] Hget.
    apply store_all_origin in Hget as [Hin | Habs]; [| discriminate].
    unfold successes in Hin. rewrite <- list_elem_of_In in Hin.
    apply list_elem_of_omap in Hin as ([i r] & Hin & Hr). simpl in Hr.
    destruct r as [[kv |] | e]; try discriminate. injection Hr as ->.
    exists i. apply list_elem_of_In. rewrite <- Hhanded. exact Hin.
Qed.

(** Distinct numbers give distinct keys. *)
Lemma distinct_numbers_distinct_keys (n m : N) :
  n <> m -> Text.str_of_N n <> Text.str_of_N m.
Proof. intros Hne E. apply Hne, str_of_N_inj, E. Qed.

(** ** Failures *)

Lemma fetch_failed {A : Type} (r : Request) (k : Response -> M A) (w : World)
    (e : string) :
  fetch_error r = Some e ->
  bind (send r) (fun response => bind (raise_for_status response)
                                   (fun _ => k response)) w
  = (Raise (RequestException e), after_request r w).
Proof.
  intros H. rewrite fetch_run. unfold fetch_error in H.
  destruct (net r) as [msg | response]; [injection H as ->; reflexivity |].
  destruct (http_failed response); [injection H as ->; reflexivity | discriminate].
Qed.

Lemma get_all_episodes_fetch_failed (sched : list Turn) (u : string) (w : World)
    (e : string) :
  fetch_error (page_request u) = Some e ->
  get_all_episodes sched u w
  = (Ok None, after_print (MsgMainPageFailed u e) (after_request (page_request u) w)).
Proof.
  intros H. unfold get_all_episodes, try_except, session_get.
  fold (page_request u). rewrite (fetch_failed _ _ _ e H). reflexivity.
Qed.








(** A number that [int] refuses: the task raises before any request. *)
Lemma process_episode_link_no_number (link : string) (index : N) (w : World)
    (e : Exn) :
  episode_number_or link index = Raise e ->
  process_episode_link link index w = (Raise e, w).
Proof.
  intros Hnum. unfold process_episode_link, bind, eval. rewrite Hnum.
  reflexivity.
Qed.

Lemma fan_out_keeps_prints (sched : list Turn) links :
  keeps_prints (fan_out sched links).
Proof.
  intros w. unfold fan_out, episode_pool, pool_as_completed. cbn [snd].
  apply (pool_turns_keeps_prints (collect_result links));
    [| apply collect_result_keeps_prints].
  unfold pool_tasks. cbn [pool_running pool_queue app].
  apply (episode_tasks_Forall keeps_prints), process_episode_link_keeps_prints.
Qed.


(** ** The claims on failures and on the saved record *)

(** What [get_bg_image] returns: [None], or the value the image host gave
    under [data.url] for the image of the page. *)
Lemma upload_image_value (image_url : string) (w : World) (v : Json) :
  fst (upload_image_from_url image_url w) = Ok v ->
  v = JNull
  \/ exists response answer inner,
       net (upload_request image_url) = Answer response
       /\ json_loads (text response) = Some (JDict answer)
       /\ dict_get "data" answer = Some (JDict inner)
       /\ dict_get "url" inner = Some v.
Proof.
  unfold upload_image_from_url.
  destruct image_url as [| c s]; [intros [= <-]; left; reflexivity |].
  cbn [Text.nonempty negb]. unfold try_except, session_post.
  fold (upload_request (String c s)). rewrite fetch_run.
  destruct (net (upload_request (String c s))) as [msg | response];
    [intros [= <-]; left; reflexivity |].
  destruct (http_failed response); [intros [= <-]; left; reflexivity |].
  unfold bind, loads.
  destruct (json_loads (text response)) as [j |] eqn:Hj;
    [| intros [= <-]; left; reflexivity].
  destruct j; try (intros [= <-]; left; reflexivity).
  simpl. destruct (dict_get "success" d) as [ok |];
    [| intros [= <-]; left; reflexivity].
  simpl. destruct (truthy ok); [| intros [= <-]; left; reflexivity].
  simpl. destruct (dict_get "data" d) as [inner |] eqn:Hinner;
    [| intros [= <-]; left; reflexivity].
  simpl. destruct inner; try (intros [= <-]; left; reflexivity).
  simpl. destruct (dict_get "url" d0) as [u |] eqn:Hu;
    [| intros [= <-]; left; reflexivity].
  intros [= <-]. right. exists response, d, d0. auto.
Qed.

Lemma get_bg_image_value (base_url : string) (w : World) (v : Json) :
  fst (get_bg_image base_url w) = Ok v ->
  v = JNull
  \/ exists image_url response answer inner,
       net (upload_request image_url) = Answer response
       /\ json_loads (text response) = Some (JDict answer)
       /\ dict_get "data" answer = Some (JDict inner)
       /\ dict_get "url" inner = Some v.
Proof.
  unfold get_bg_image, try_except, session_get. rewrite fetch_run.
  destruct (net _) as [msg | response]; [intros [= <-]; left; reflexivity |].
  destruct (http_failed response); [intros [= <-]; left; reflexivity |].
  destruct (hd_error _) as [a |]; [| intros [= <-]; left; reflexivity].
  destruct (Html.attr "data-src" a) as [src |];
    [| intros [= <-]; left; reflexivity].
  pose proof (upload_image_from_url_never_raises src) as Hnr.
  pose proof (upload_image_value src (after_request
    (mkRequest GET base_url [("User-Agent", USER_AGENT)] NoBody (Some 10%Z)) w))
    as Hval.
  specialize (Hnr (after_request
    (mkRequest GET base_url [("User-Agent", USER_AGENT)] NoBody (Some 10%Z)) w)).
  destruct (upload_image_from_url src _) as [[v' | e] w1]; simpl in *.
  - intros [= ->]. destruct (Hval v eq_refl) as [-> | H]; [left; reflexivity |].
    right. exists src. exact H.
  - destruct (Hnr e eq_refl).
Qed.





(** C4, as amended: after a run of [scrape_and_save] that saves, the cache
    file holds the serialization of one object with exactly the keys
    [success] (true), [base_url] (the source URL), [imgUrl] (null, or the
    value the image host returned), [info] and [episodes].  [info] is
    either a record of a genre list and a description, or, when the info
    extraction failed, a record [{"error": message}].  [episodes] maps
    distinct keys, each the string of an episode number, to a record of
    that number, the page URL, the embed URL and the embed type. *)
Theorem saved_record_shape (outer : list nat) (inner : list Turn) (base_url : string)
    (w w' : World) :
  scrape_and_save outer inner base_url w = (Ok ExitSaved, w') ->
  exists img_url info episodes,
    files w' !! cache_file_of base_url
    = Some (mkFile
              (json_dumps
                 (JDict [ ("success", JBool true); ("base_url", JStr base_url);
                          ("imgUrl", img_url); ("info", info);
                          ("episodes", JDict episodes) ]))
              (clock w))
    /\ (img_url = JNull
        \/ exists image_url response answer inner,
             net (upload_request image_url) = Answer response
             /\ json_loads (text response) = Some (JDict answer)
             /\ dict_get "data" answer = Some (JDict inner)
             /\ dict_get "url" inner = Some img_url)
    /\ (info_record info \/ error_record info)
    /\ Forall episode_entry episodes
    /\ NoDup (dict_keys episodes).
Proof.
  intros H.
  destruct (scrape_and_save_saved _ _ _ _ _ H)
    as (img_url & info & eps & _ & wa & wb & wc & _ & Ha & Hb & Hc & Hfiles & _ & _).
  exists img_url, info, eps.
  split; [rewrite Hfiles; apply lookup_insert_eq |].
  split; [eapply get_bg_image_value, Hb |].
  split; [eapply extract_info_shape, Hc |].
  eapply get_all_episodes_entries, Ha.
Qed.

(** C10: a [base_url] in which the pattern
    [https://web.animerco.org/seasons/<name>/] does not occur gets the name
    [unknown_anime] and the cache file [cache/unknown_anime.json].  All such
    URLs share that file: a run that saves for one of them overwrites it
    with the record of that URL, and while the file is less than a day old
    a run for any other of them returns by the cached path, without a
    request, the file left as it is. *)
Theorem unmatched_urls_share_one_cache_file (base_url : string) :
  ~ matches_seasons_pattern base_url ->
  get_anime_name_from_url base_url = "unknown_anime"
  /\ cache_file_of base_url = "cache/unknown_anime.json"
  /\ forall outer inner w w',
       scrape_and_save outer inner base_url w = (Ok ExitSaved, w') ->
       (exists img_url info episodes,
          files w' !! "cache/unknown_anime.json"
          = Some (mkFile (json_dumps (data_to_save base_url img_url info episodes))
                    (clock w)))
       /\ forall other outer2 inner2 dt,
            ~ matches_seasons_pattern other ->
            Text.startswith other SITE_PREFIX = true ->
            (dt < ONE_DAY)%Q ->
            let later := with_disk (files w') (dirs w') (clock w' + dt) w' in
            fst (scrape_and_save outer2 inner2 other later) = Ok ExitCached
            /\ sent (snd (scrape_and_save outer2 inner2 other later)) = sent later
            /\ files (snd (scrape_and_save outer2 inner2 other later)) = files w'.
Proof.
  assert (Hname : forall u, ~ matches_seasons_pattern u ->
                    get_anime_name_from_url u = "unknown_anime").
  { intros u Hno. unfold get_anime_name_from_url.
    destruct (Text.search_seasons_name u) as [name |] eqn:E; [| reflexivity].
    destruct Hno. eapply search_seasons_name_sound, E. }
  assert (Hfile : forall u, ~ matches_seasons_pattern u ->
                    cache_file_of u = "cache/unknown_anime.json").
  { intros u Hno. unfold cache_file_of. rewrite (Hname u Hno). reflexivity. }
  intros Hno. split; [apply Hname, Hno |]. split; [apply Hfile, Hno |].
  intros outer inner w w' H.
  destruct (scrape_and_save_saved _ _ _ _ _ H)
    as (img_url & info & eps & _ & _ & _ & _ & _ & _ & _ & _ & Hfiles & Hclock & _).
  rewrite (Hfile base_url Hno) in Hfiles.
  assert (Hlook : files w' !! "cache/unknown_anime.json"
                  = Some (mkFile (json_dumps (data_to_save base_url img_url info eps))
                            (clock w)))
    by (rewrite Hfiles; apply lookup_insert_eq).
  split; [exists img_url, info, eps; exact Hlook |].
  intros other outer2 inner2 dt Hother Hurl Hdt later.
  assert (Hage : (clock later
                  - mtime (mkFile (json_dumps (data_to_save base_url img_url info eps))
                             (clock w)) < ONE_DAY)%Q).
  { unfold later. simpl. rewrite Hclock. unfold ONE_DAY in *. lra. }
  assert (Hlater : files later !! cache_file_of other
                   = Some (mkFile (json_dumps (data_to_save base_url img_url info eps))
                             (clock w)))
    by (rewrite (Hfile other Hother); exact Hlook).
  rewrite (scrape_and_save_cached outer2 inner2 other later _ Hurl Hlater Hage).
  repeat split.
Qed.


Set Warnings "-clear-no-such-hyp".

(** ** Further properties: links, names and numbers *)

Lemma unique_links_from_spec (links : list string) : forall seen : gset string,
  NoDup (unique_links_from seen links)
  /\ (forall x, x ∈ unique_links_from seen links <-> x ∈ links /\ x ∉ seen)
  /\ sublist (unique_links_from seen links) links.
Proof using.
  clear net parse_html json_loads json_dumps.
  induction links as [| link rest IH]; intros seen; simpl.
  - split; [constructor |]. split; [| constructor].
    intros x. split; [intros H; inversion H | intros [H _]; inversion H].
  - case_bool_decide as Hseen.
    + destruct (IH seen) as (Hnd & Hin & Hsub).
      split; [exact Hnd |]. split; [| apply sublist_cons, Hsub].
      intros x. rewrite Hin, elem_of_cons. split; [tauto |].
      intros [[-> | H] Hx]; [contradiction | tauto].
    + destruct (IH ({[link]} ∪ seen)) as (Hnd & Hin & Hsub).
      split; [| split; [| apply sublist_skip, Hsub]].
      * constructor; [| exact Hnd]. rewrite Hin. set_solver.
      * intros x. rewrite !elem_of_cons, Hin.
        split.
        -- intros [-> | [H1 H2]]; [tauto |]. split; [tauto | set_solver].
        -- intros [[-> | H1] H2]; [tauto |].
           destruct (decide (x = link)) as [-> | Hne]; [tauto |].
           right. split; [exact H1 | set_solver].
Qed.

Lemma unique_links_from_fixed (links : list string) : forall seen : gset string,
  NoDup links -> (forall x, x ∈ links -> x ∉ seen) ->
  unique_links_from seen links = links.
Proof using.
  clear net parse_html json_loads json_dumps.
  induction links as [| link rest IH]; intros seen Hnd Hfresh; simpl;
    [reflexivity |].
  apply NoDup_cons in Hnd as [Hlink Hnd].
  case_bool_decide as Hseen.
  - destruct (Hfresh link); [left | exact Hseen].
  - f_equal. apply IH; [exact Hnd |].
    intros x Hx. pose proof (Hfresh x). set_solver.
Qed.

Lemma unique_links_from_app (l1 l2 : list string) : forall seen : gset string,
  unique_links_from seen (l1 ++ l2)
  = unique_links_from seen l1 ++ unique_links_from (list_to_set l1 ∪ seen) l2.
Proof using.
  clear net parse_html json_loads json_dumps.
  induction l1 as [| link l1 IH]; intros seen; cbn [app unique_links_from].
  - f_equal. set_solver.
  - case_bool_decide as Hseen.
    + rewrite IH. f_equal. f_equal. set_solver.
    + cbn [app]. f_equal. rewrite IH. f_equal. f_equal. set_solver.
Qed.

(** X1: the duplicate removal of [get_all_episodes] keeps every link of
    the page once, in the order of first occurrence: a link stands where it
    occurs first, after the links that occur before it, each once.  A list
    without duplicates is left as it is, removing duplicates twice is the
    same as once, and a link added at the end is added to the result
    exactly when it is new. *)
Theorem unique_links_are_the_links_once (links : list string) :
  NoDup (unique_links_from ∅ links)
  /\ (forall x, x ∈ unique_links_from ∅ links <-> x ∈ links)
  /\ sublist (unique_links_from ∅ links) links
  /\ (NoDup links -> unique_links_from ∅ links = links)
  /\ unique_links_from ∅ (unique_links_from ∅ links) = unique_links_from ∅ links
  /\ (forall before x after,
        links = before ++ x :: after -> x ∉ before ->
        exists rest,
          unique_links_from ∅ links = unique_links_from ∅ before ++ x :: rest)
  /\ (forall x,
        unique_links_from ∅ (links ++ [x])
        = unique_links_from ∅ links ++ if bool_decide (x ∈ links) then [] else [x]).
Proof using.
  clear net parse_html json_loads json_dumps.
  destruct (unique_links_from_spec links ∅) as (Hnd & Hin & Hsub).
  split; [exact Hnd |]. split; [| split; [exact Hsub |]].
  - intros x. rewrite Hin. set_solver.
  - assert (Hfix : forall l : list string,
              NoDup l -> unique_links_from ∅ l = l)
      by (intros l Hl; apply unique_links_from_fixed; [exact Hl | set_solver]).
    split; [apply Hfix |]. split; [apply Hfix, Hnd |]. split.
    + intros before x after -> Hx. rewrite unique_links_from_app.
      cbn [unique_links_from]. rewrite bool_decide_eq_false_2 by set_solver.
      eexists. reflexivity.
    + intros x. rewrite unique_links_from_app. f_equal.
      cbn [unique_links_from].
      destruct (decide (x ∈ links)) as [Hx | Hx].
      * rewrite !bool_decide_eq_true_2 by set_solver. reflexivity.
      * rewrite !bool_decide_eq_false_2 by set_solver. reflexivity.
Qed.

Lemma filter_chars_all (p : ascii -> bool) (s : string) :
  all_chars p (Text.filter_chars p s).
Proof.
  induction s as [| c s IH]; simpl; [intros x [] |].
  destruct (p c) eqn:Hc; [| exact IH].
  intros x [<- | Hx]; [exact Hc | apply IH, Hx].
Qed.

Lemma filter_chars_fixed (p : ascii -> bool) (s : string) :
  all_chars p s -> Text.filter_chars p s = s.
Proof.
  induction s as [| c s IH]; intros H; simpl; [reflexivity |].
  rewrite (H c (or_introl eq_refl)). f_equal. apply IH.
  intros x Hx. apply H. right. exact Hx.
Qed.

Lemma map_chars_fixed (f : ascii -> ascii) (s : string) :
  (forall c, In c (list_ascii_of_string s) -> f c = c) -> Text.map_chars f s = s.
Proof.
  induction s as [| c s IH]; intros H; simpl; [reflexivity |].
  rewrite (H c (or_introl eq_refl)). f_equal. apply IH.
  intros x Hx. apply H. right. exact Hx.
Qed.

(** A character kept by [sanitize_filename] is no space, no slash, no
    backslash and no dot. *)
Lemma kept_char_is_plain (c : ascii) :
  Text.is_word c || Text.is_dash c = true ->
  (Text.code c =? 32)%N = false
  /\ c <> "/"%char /\ c <> "."%char /\ c <> ascii_of_nat 92.
Proof.
  destruct c as [[] [] [] [] [] [] [] []]; vm_compute; intros H;
    try discriminate H; repeat split; discriminate.
Qed.

(** X2: [sanitize_filename] keeps only word characters and dashes, so its
    result holds no space, slash, backslash or dot, and sanitizing twice is
    sanitizing once. *)
Theorem sanitize_filename_is_safe (filename : string) :
  all_chars (fun c => Text.is_word c || Text.is_dash c)
    (sanitize_filename filename)
  /\ (forall c, In c (list_ascii_of_string (sanitize_filename filename)) ->
        c <> " "%char /\ c <> "/"%char /\ c <> "."%char /\ c <> ascii_of_nat 92)
  /\ sanitize_filename (sanitize_filename filename) = sanitize_filename filename.
Proof.
  assert (Hall : all_chars (fun c => Text.is_word c || Text.is_dash c)
                   (sanitize_filename filename))
    by apply filter_chars_all.
  split; [exact Hall |]. split.
  - intros c Hc. destruct (kept_char_is_plain c (Hall c Hc)) as (Hsp & H1 & H2 & H3).
    repeat split; try assumption. intros ->. discriminate Hsp.
  - unfold sanitize_filename at 1.
    rewrite map_chars_fixed.
    + apply filter_chars_fixed, Hall.
    + intros c Hc. destruct (kept_char_is_plain c (Hall c Hc)) as (-> & _).
      reflexivity.
Qed.

Lemma is_dash_eq (c : ascii) : Text.is_dash c = true -> c = "-"%char.
Proof.
  unfold Text.is_dash, Text.code. intros H. apply N.eqb_eq in H.
  rewrite <- (ascii_N_embedding c), H. reflexivity.
Qed.

Lemma span_all (p : ascii -> bool) (a : string) :
  all_chars p a -> Text.span p a = (a, EmptyString).
Proof.
  induction a as [| x a IH]; intros Hall; simpl; [reflexivity |].
  rewrite (Hall x (or_introl eq_refl)), IH; [reflexivity |].
  intros y Hy. apply Hall. right. exact Hy.
Qed.

Lemma append_empty (s : string) : s +:+ EmptyString = s.
Proof.
  induction s as [| c s IH]; [reflexivity |]. rewrite append_cons, IH. reflexivity.
Qed.

Lemma search_episode_digits_sound (url ds : string) :
  Text.search_episode_digits url = Some ds -> has_number_group url ds.
Proof.
  induction url as [| c rest IH]; simpl; [discriminate |].
  assert (Hrec : Text.search_episode_digits rest = Some ds ->
                 has_number_group (String c rest) ds).
  { intros H. destruct (IH H) as (before & after & -> & Hrest).
    exists (String c before), after. split; [reflexivity | exact Hrest]. }
  destruct (Text.is_dash c) eqn:Hc; [| exact Hrec].
  destruct (Text.span Text.is_digit rest) as [run tail] eqn:Hspan.
  destruct (Text.nonempty run
            && (Text.starts_with Text.is_dash tail || Text.at_dollar tail))
    eqn:Hcond; [| exact Hrec].
  intros [= <-]. apply is_dash_eq in Hc as ->.
  apply span_app in Hspan as [-> Hdigits].
  apply andb_true_iff in Hcond as [Hne Hend].
  exists EmptyString, tail. split; [reflexivity |]. split; [| split].
  - intros ->. discriminate Hne.
  - exact Hdigits.
  - apply orb_true_iff in Hend as [Hd | Hd].
    + destruct tail as [| x tail]; [discriminate |]. simpl in Hd.
      apply is_dash_eq in Hd as ->. right; right. eexists; reflexivity.
    + destruct tail as [| x [| y tail]]; [left; reflexivity | | discriminate].
      simpl in Hd. right; left. f_equal.
      unfold Text.code in Hd. apply N.eqb_eq in Hd.
      rewrite <- (ascii_N_embedding x), Hd. reflexivity.
Qed.

(** A number group at the head of a string: what the search sees
    there. *)
Lemma number_group_check (c : ascii) (rest ds after : string) :
  String c rest = "-" +:+ ds +:+ after ->
  ds <> EmptyString -> all_chars Text.is_digit ds -> ends_group after ->
  Text.is_dash c = true
  /\ Text.span Text.is_digit rest = (ds, after)
  /\ Text.nonempty ds
     && (Text.starts_with Text.is_dash after || Text.at_dollar after) = true.
Proof.
  change ("-" +:+ ds +:+ after) with (String "-" (ds +:+ after)).
  intros [= -> ->] Hne Hdigits Hend. split; [reflexivity |]. split.
  - destruct Hend as [-> | [-> | [r ->]]].
    + rewrite append_empty. apply span_all, Hdigits.
    + apply span_stop; [exact Hdigits | reflexivity].
    + apply span_stop; [exact Hdigits | reflexivity].
  - apply andb_true_iff. split; [destruct ds; [contradiction | reflexivity] |].
    destruct Hend as [-> | [-> | [r ->]]]; reflexivity.
Qed.

Lemma search_episode_digits_complete (url ds : string) :
  has_number_group url ds -> exists ds', Text.search_episode_digits url = Some ds'.
Proof.
  intros (before & after & -> & Hne & Hdigits & Hend).
  induction before as [| c before IH].
  - rewrite append_nil. exists ds.
    destruct (number_group_check "-" (ds +:+ after) ds after eq_refl Hne Hdigits
                Hend) as (_ & Hspan & Hcond).
    change ("-" +:+ ds +:+ after) with (String "-" (ds +:+ after)).
    cbn [Text.search_episode_digits].
    change (Text.is_dash "-") with true. cbv iota.
    rewrite Hspan, Hcond. reflexivity.
  - destruct IH as [ds' IH].
    change (String c before +:+ "-" +:+ ds +:+ after)
      with (String c (before +:+ "-" +:+ ds +:+ after)).
    cbn [Text.search_episode_digits].
    destruct (Text.is_dash c); [| exists ds'; exact IH].
    destruct (Text.span Text.is_digit _) as [run tail].
    destruct (Text.nonempty run && _); [eexists; reflexivity | exists ds'; exact IH].
Qed.

(** The search returns the digits of the leftmost group. *)
Lemma search_episode_digits_first (url ds : string) :
  Text.search_episode_digits url = Some ds -> first_number_group url ds.
Proof.
  revert ds. induction url as [| c rest IH]; intros ds; [discriminate |].
  assert (Hskip : (forall ds' after',
                     String c rest = "-" +:+ ds' +:+ after' ->
                     ds' <> EmptyString -> all_chars Text.is_digit ds' ->
                     ends_group after' -> False) ->
                  Text.search_episode_digits rest = Some ds ->
                  first_number_group (String c rest) ds).
  { intros Hhead H.
    destruct (IH ds H) as (before & after & Hurl & Hne & Hdigits & Hend & Hmin).
    exists (String c before), after.
    split; [rewrite Hurl; reflexivity |]. split; [exact Hne |].
    split; [exact Hdigits |]. split; [exact Hend |].
    intros before' ds' after' Hurl' Hne' Hdigits' Hend'.
    destruct before' as [| c' before'].
    - destruct (Hhead ds' after' Hurl' Hne' Hdigits' Hend').
    - change (String c' before' +:+ "-" +:+ ds' +:+ after')
        with (String c' (before' +:+ "-" +:+ ds' +:+ after')) in Hurl'.
      injection Hurl' as _ Hrest. cbn [String.length].
      apply le_n_S. apply (Hmin before' ds' after'); assumption. }
  cbn [Text.search_episode_digits].
  destruct (Text.is_dash c) eqn:Hc.
  - destruct (Text.span Text.is_digit rest) as [run tail] eqn:Hspan.
    destruct (Text.nonempty run
              && (Text.starts_with Text.is_dash tail || Text.at_dollar tail))
      eqn:Hcond.
    + intros [= <-].
      assert (Hgroup : has_number_group (String c rest) run).
      { apply search_episode_digits_sound. cbn [Text.search_episode_digits].
        rewrite Hc, Hspan, Hcond. reflexivity. }
      apply is_dash_eq in Hc as ->.
      apply span_app in Hspan as [-> Hdigits].
      apply andb_true_iff in Hcond as [Hne Hend].
      exists EmptyString, tail. split; [reflexivity |].
      split; [intros ->; discriminate Hne |]. split; [exact Hdigits |].
      split.
      * apply orb_true_iff in Hend as [Hd | Hd].
        -- destruct tail as [| x tail]; [discriminate |]. simpl in Hd.
           apply is_dash_eq in Hd as ->. right; right. eexists; reflexivity.
        -- destruct tail as [| x [| y tail]]; [left; reflexivity | | discriminate].
           simpl in Hd. right; left. f_equal.
           unfold Text.code in Hd. apply N.eqb_eq in Hd.
           rewrite <- (ascii_N_embedding x), Hd. reflexivity.
      * intros; cbn [String.length]; lia.
    + apply Hskip. intros ds' after' Hurl' Hne' Hdigits' Hend'.
      destruct (number_group_check c rest ds' after' Hurl' Hne' Hdigits' Hend')
        as (_ & Hspan' & Hcond').
      rewrite Hspan in Hspan'. injection Hspan' as -> ->.
      rewrite Hcond in Hcond'. discriminate.
  - apply Hskip. intros ds' after' Hurl' Hne' Hdigits' Hend'.
    destruct (number_group_check c rest ds' after' Hurl' Hne' Hdigits' Hend')
      as (Hc' & _). rewrite Hc in Hc'. discriminate.
Qed.

Lemma append_same_length (a a' b b' : string) :
  a +:+ b = a' +:+ b' -> String.length a = String.length a' ->
  a = a' /\ b = b'.
Proof.
  revert a'. induction a as [| x a IH]; intros [| x' a'] H Hlen;
    try discriminate Hlen.
  - rewrite !append_nil in H. split; [reflexivity | exact H].
  - rewrite !append_cons in H. injection H as -> H. injection Hlen as Hlen.
    destruct (IH a' H Hlen) as [-> ->]. split; reflexivity.
Qed.

(** A string has one leftmost group. *)
Lemma first_number_group_unique (url ds ds' : string) :
  first_number_group url ds -> first_number_group url ds' -> ds = ds'.
Proof.
  intros (b1 & a1 & E1 & Hne1 & Hd1 & He1 & Hmin1)
         (b2 & a2 & E2 & Hne2 & Hd2 & He2 & Hmin2).
  assert (Hlen : String.length b1 = String.length b2).
  { pose proof (Hmin1 b2 ds' a2 E2 Hne2 Hd2 He2).
    pose proof (Hmin2 b1 ds a1 E1 Hne1 Hd1 He1). lia. }
  rewrite E1 in E2.
  destruct (append_same_length _ _ _ _ E2 Hlen) as [_ Hrest].
  destruct (number_group_check "-" (ds +:+ a1) ds a1 eq_refl Hne1 Hd1 He1)
    as (_ & Hs1 & _).
  destruct (number_group_check "-" (ds +:+ a1) ds' a2 Hrest Hne2 Hd2 He2)
    as (_ & Hs2 & _).
  rewrite Hs1 in Hs2. injection Hs2 as -> _. reflexivity.
Qed.

(** X4: [extract_episode_number] on a URL that holds a dash, one digit or
    more, and then a dash, the end of the string or its final newline,
    takes the digits of the leftmost such place: it returns their value
    when they are 4300 at most, and raises [ValueError] when they are
    more.  On any other URL it returns [None]: a run of digits followed
    by anything else, a slash for one, is not seen. *)
Theorem extract_episode_number_meets_the_pattern (url : string) :
  (forall ds,
     first_number_group url ds ->
     extract_episode_number url
     = if (4300 <? N.of_nat (String.length ds))%N then Raise ValueError
       else Ok (Some (Text.int_of_digits ds)))
  /\ (extract_episode_number url = Ok None
      <-> forall ds, ~ has_number_group url ds)
  /\ (forall n,
        extract_episode_number url = Ok (Some n) ->
        exists ds,
          first_number_group url ds
          /\ (N.of_nat (String.length ds) <= 4300)%N
          /\ n = Text.int_of_digits ds)
  /\ (forall e,
        extract_episode_number url = Raise e ->
        e = ValueError
        /\ exists ds,
             first_number_group url ds
             /\ (4300 < N.of_nat (String.length ds))%N).
Proof.
  unfold extract_episode_number, py_int, MAX_STR_DIGITS.
  split; [| split; [| split]].
  - intros ds Hfirst.
    assert (Hgroup : has_number_group url ds).
    { destruct Hfirst as (b & a & E & Hne & Hd & He & _).
      exists b, a. auto. }
    destruct (search_episode_digits_complete url ds Hgroup) as [ds' E].
    rewrite E.
    rewrite (first_number_group_unique url ds' ds
               (search_episode_digits_first url ds' E) Hfirst).
    destruct (4300 <? N.of_nat (String.length ds))%N; reflexivity.
  - split.
    + intros H ds Hgroup.
      destruct (search_episode_digits_complete url ds Hgroup) as [ds' E].
      rewrite E in H.
      destruct (4300 <? N.of_nat (String.length ds'))%N; discriminate H.
    + intros H.
      destruct (Text.search_episode_digits url) as [ds |] eqn:E; [| reflexivity].
      destruct (H ds). apply search_episode_digits_sound, E.
  - intros n H.
    destruct (Text.search_episode_digits url) as [ds |] eqn:E; [| discriminate].
    destruct (4300 <? N.of_nat (String.length ds))%N eqn:Hlen; [discriminate |].
    injection H as <-. exists ds.
    split; [apply search_episode_digits_first, E |].
    split; [apply N.ltb_ge, Hlen | reflexivity].
  - intros e H.
    destruct (Text.search_episode_digits url) as [ds |] eqn:E; [| discriminate].
    destruct (4300 <? N.of_nat (String.length ds))%N eqn:Hlen; [| discriminate].
    injection H as <-. split; [reflexivity |]. exists ds.
    split; [apply search_episode_digits_first, E | apply N.ltb_lt, Hlen].
Qed.

(** X5: On a season URL [https://web.animerco.org/seasons/<name>/...], with a
    name of one character or more and without a slash,
    [get_anime_name_from_url] returns the name. *)
Theorem season_name_is_recovered (name after : string) :
  name <> EmptyString -> has_no_slash name ->
  get_anime_name_from_url (Text.SEASONS_PREFIX +:+ name +:+ "/" +:+ after) = name.
Proof.
  intros Hne Hns. unfold get_anime_name_from_url.
  assert (E : Text.match_seasons_here
                (Text.SEASONS_PREFIX +:+ name +:+ "/" +:+ after) = Some name).
  { unfold Text.match_seasons_here. rewrite strip_prefix_here.
    change ("/" +:+ after) with (String "/" after).
    rewrite span_stop; [| intros x Hx; rewrite (Hns x Hx); reflexivity
                        | reflexivity].
    destruct name; [contradiction | reflexivity]. }
  destruct (Text.SEASONS_PREFIX +:+ name +:+ "/" +:+ after) eqn:Es;
    cbn [Text.search_seasons_name]; rewrite E; reflexivity.
Qed.

(** ** Further properties: the cache of post identifiers *)

Lemma get_postid_wrapped_trace (u : string) (w : World) :
  sent (snd (get_postid_wrapped u w)) = sent w ++ [page_request u]
  /\ (forall e, fst (get_postid_wrapped u w) = Raise e -> e = KeyError "value").
Proof.
  unfold get_postid_wrapped, try_except, session_get.
  fold (page_request u). rewrite fetch_run.
  destruct (net (page_request u)) as [msg | response];
    [split; [reflexivity | discriminate] |].
  destruct (http_failed response); [split; [reflexivity | discriminate] |].
  destruct (Html.soup_find is_postid_input (parse_html (text response)))
    as [input |]; [| split; [reflexivity | discriminate]].
  destruct (Html.attr "value" input); (split; [reflexivity |]);
    [discriminate | intros e [= <-]; reflexivity].
Qed.

Lemma get_postid_hit (u : string) (w : World) (v : option string) :
  Html.assoc u (postid_cache w) = Some v ->
  get_postid u w
  = (Ok v, mkWorld (files w) (dirs w) (clock w) (sent w) (printed w)
             ((u, v) :: cache_remove u (postid_cache w))).
Proof. intros H. unfold get_postid, lru_cache. rewrite H. reflexivity. Qed.

Lemma get_postid_miss (u : string) (w : World) :
  Html.assoc u (postid_cache w) = None ->
  sent (snd (get_postid u w)) = sent w ++ [page_request u]
  /\ match fst (get_postid u w) with
     | Ok v =>
         postid_cache (snd (get_postid u w))
         = take 128 ((u, v) :: postid_cache w)
     | Raise e =>
         e = KeyError "value"
         /\ postid_cache (snd (get_postid u w)) = postid_cache w
     end.
Proof.
  intros H. unfold get_postid, lru_cache. rewrite H. unfold bind.
  destruct (get_postid_wrapped_trace u w) as [Hsent Hraise].
  destruct (get_postid_wrapped_result u w) as [_ Hcache].
  destruct (get_postid_wrapped u w) as [[v | e] w1]; simpl in *.
  - split; [exact Hsent |]. rewrite Hcache. reflexivity.
  - split; [exact Hsent |]. split; [apply Hraise; reflexivity | exact Hcache].
Qed.

(** X6: a call of [get_postid] that returns, be it [None] after a failed
    fetch, is remembered: the next call for the same URL returns the same
    value, sends no request and prints nothing. *)
Theorem get_postid_answer_is_remembered (u : string) (w : World)
    (v : option string) :
  fst (get_postid u w) = Ok v ->
  fst (get_postid u (snd (get_postid u w))) = Ok v
  /\ sent (snd (get_postid u (snd (get_postid u w)))) = sent (snd (get_postid u w))
  /\ printed (snd (get_postid u (snd (get_postid u w))))
     = printed (snd (get_postid u w)).
Proof.
  intros Hv.
  assert (Hcached : Html.assoc u (postid_cache (snd (get_postid u w))) = Some v).
  { destruct (Html.assoc u (postid_cache w)) as [v' |] eqn:Hhit.
    - rewrite (get_postid_hit u w v' Hhit) in *. simpl in *.
      injection Hv as ->. rewrite String.eqb_refl. reflexivity.
    - destruct (get_postid_miss u w Hhit) as [_ Hcache].
      rewrite Hv in Hcache. rewrite Hcache. simpl.
      rewrite String.eqb_refl. reflexivity. }
  rewrite (get_postid_hit u _ v Hcached). repeat split.
Qed.

Lemma cache_remove_keys (key : string) c :
  NoDup (map fst c) ->
  NoDup (map fst (cache_remove key c))
  /\ ~ In key (map fst (cache_remove key c))
  /\ (forall v, Html.assoc key c = Some v ->
        (S (length (cache_remove key c)) <= length c)%nat).
Proof using.
  clear net parse_html json_loads json_dumps.
  unfold cache_remove.
  induction c as [| [k v] c IH]; simpl; intros Hnd.
  - split; [constructor |]. split; [tauto | discriminate].
  - apply NoDup_cons in Hnd as [Hk Hnd].
    destruct (IH Hnd) as (IH1 & IH2 & IH3).
    destruct (String.eqb_spec k key) as [-> | Hne]; simpl.
    + split; [exact IH1 |]. split; [exact IH2 |].
      intros _ _. pose proof (filter_length_le
        (fun e : string * option string => negb (String.eqb (fst e) key)) c). lia.
    + split; [| split].
      * apply NoDup_cons. split; [| exact IH1].
        intros Hin. apply Hk.
        apply list_elem_of_In in Hin. apply list_elem_of_In.
        apply in_map_iff in Hin as ([k' v'] & <- & Hin).
        apply filter_In in Hin as [Hin _].
        apply in_map_iff. exists (k', v'). auto.
      * intros [-> | Hin]; [contradiction | exact (IH2 Hin)].
      * intros v' Hv. specialize (IH3 v' Hv). lia.
Qed.

Lemma take_NoDup {A : Type} (n : nat) (l : list A) : NoDup l -> NoDup (take n l).
Proof.
  revert n. induction l as [| x l IH]; intros [| n] H; simpl; try constructor.
  - apply NoDup_cons in H as [Hx H]. intros Hin. apply Hx.
    eapply elem_of_sublist; [exact Hin | apply sublist_take].
  - apply NoDup_cons in H as [_ H]. apply IH, H.
Qed.

Lemma assoc_None_keys {A : Type} (key : string) (c : list (string * A)) :
  Html.assoc key c = None -> ~ In key (map fst c).
Proof using.
  clear net parse_html json_loads json_dumps.
  induction c as [| [k v] c IH]; simpl; [tauto |].
  destruct (String.eqb_spec k key) as [-> | Hne]; [discriminate |].
  intros H [E | Hin]; [contradiction | exact (IH H Hin)].
Qed.

(** X7: [get_postid] keeps the table of [lru_cache] within its bounds: at
    most 128 entries, and one entry for a URL. *)
Theorem get_postid_keeps_cache_within_bounds (u : string) (w : World) :
  cache_within_bounds w -> cache_within_bounds (snd (get_postid u w)).
Proof.
  intros [Hlen Hnd]. unfold cache_within_bounds.
  destruct (Html.assoc u (postid_cache w)) as [v |] eqn:Hhit.
  - rewrite (get_postid_hit u w v Hhit). simpl.
    destruct (cache_remove_keys u (postid_cache w) Hnd) as (H1 & H2 & H3).
    specialize (H3 v Hhit). split; [lia |].
    apply NoDup_cons. split; [| exact H1].
    intros Hin. apply H2. apply list_elem_of_In. exact Hin.
  - destruct (get_postid_miss u w Hhit) as [_ Hcache].
    destruct (fst (get_postid u w)) as [v | e].
    + rewrite Hcache. split; [rewrite length_take; lia |].
      rewrite <- firstn_map. apply take_NoDup. simpl.
      apply NoDup_cons. split; [| exact Hnd].
      intros Hin. apply (assoc_None_keys u _ Hhit).
      apply list_elem_of_In. exact Hin.
    + destruct Hcache as [_ ->]. split; assumption.
Qed.

(** X8: an exception of [get_postid] is not remembered.  The only one is
    the [KeyError] of an input without [value]; the call sent the page
    request and left the table as it was, and the next call for the URL
    sends the request again. *)
Theorem get_postid_exception_is_not_remembered (u : string) (w : World) (e : Exn) :
  fst (get_postid u w) = Raise e ->
  e = KeyError "value"
  /\ postid_cache (snd (get_postid u w)) = postid_cache w
  /\ sent (snd (get_postid u w)) = sent w ++ [page_request u]
  /\ sent (snd (get_postid u (snd (get_postid u w))))
     = sent w ++ [page_request u; page_request u].
Proof.
  intros He.
  destruct (Html.assoc u (postid_cache w)) as [v |] eqn:Hhit.
  - rewrite (get_postid_hit u w v Hhit) in He. discriminate He.
  - destruct (get_postid_miss u w Hhit) as [Hsent Hcache].
    rewrite He in Hcache. destruct Hcache as [-> Hcache].
    split; [reflexivity |]. split; [exact Hcache |]. split; [exact Hsent |].
    assert (Hmiss : Html.assoc u (postid_cache (snd (get_postid u w))) = None)
      by (rewrite Hcache; exact Hhit).
    destruct (get_postid_miss u _ Hmiss) as [Hsent2 _].
    rewrite Hsent2, Hsent, <- app_assoc. reflexivity.
Qed.

(** ** Further properties: one episode, one image *)

(** X9: how a task ends apart from success.  A link whose number [int]
    refuses makes [process_episode_link] raise [ValueError] at once, before
    any request.  Otherwise: without an embed answer, with an empty
    answer, or with a JSON object whose [embed_url] is missing or falsy,
    it returns [None] and prints nothing; with a JSON value that is not an
    object (the [0] of an unknown AJAX action, for one) the call of [.get]
    raises [AttributeError], which leaves the function; an exception of
    [get_episode_embed] leaves it as well. *)
Theorem episode_task_ends_quietly_or_raises (link : string) (index : N) (w : World) :
  (forall e,
     episode_number_or link index = Raise e ->
     process_episode_link link index w = (Raise e, w))
  /\ (forall ep_num,
        episode_number_or link index = Ok ep_num ->
        (fst (get_episode_embed link w) = Ok None
         \/ fst (get_episode_embed link w) = Ok (Some EmptyString) ->
         process_episode_link link index w
         = (Ok None, snd (get_episode_embed link w)))
        /\ (forall info d,
              fst (get_episode_embed link w) = Ok (Some info) ->
              info <> EmptyString -> json_loads info = Some (JDict d) ->
              truthy (match dict_get "embed_url" d with
                      | Some v => v
                      | None => JNull
                      end) = false ->
              process_episode_link link index w
              = (Ok None, snd (get_episode_embed link w)))
        /\ (forall info j,
              fst (get_episode_embed link w) = Ok (Some info) ->
              info <> EmptyString -> json_loads info = Some j ->
              (forall d, j <> JDict d) ->
              process_episode_link link index w
              = (Raise AttributeError, snd (get_episode_embed link w)))
        /\ (forall e,
              fst (get_episode_embed link w) = Raise e ->
              process_episode_link link index w
              = (Raise e, snd (get_episode_embed link w)))).
Proof.
  split; [intros e He; apply process_episode_link_no_number, He |].
  intros ep_num Hnum.
  assert (Hstart : forall r,
            fst (get_episode_embed link w) = r ->
            process_episode_link link index w
            = match r with
              | Ok (Some (String c s)) =>
                  try_except
                    (embed_data <- loads (String c s) ;;
                     embed_url <- py_get embed_data "embed_url" ;;
                     if truthy embed_url then
                       type_ <- py_get embed_data "type" ;;
                       print (MsgFoundEmbed ep_num embed_url) ;;;
                       ret (Some (Text.str_of_N ep_num,
                                  episode_record ep_num link embed_url type_))
                     else ret None)
                    (on_json_decode_error
                       (print (MsgBadJson ep_num) ;;; ret None))
                    (snd (get_episode_embed link w))
              | Ok _ => (Ok None, snd (get_episode_embed link w))
              | Raise e => (Raise e, snd (get_episode_embed link w))
              end).
  { intros r <-. unfold process_episode_link. unfold bind at 1. unfold eval.
    rewrite Hnum. unfold bind at 1.
    destruct (get_episode_embed link w) as [[[[| c s] |] | e] w1]; reflexivity. }
  split; [| split; [| split]].
  - intros [H | H]; rewrite (Hstart _ H); reflexivity.
  - intros info d H Hne Hj Hfalsy. rewrite (Hstart _ H).
    destruct info as [| c info]; [contradiction |].
    unfold try_except, bind, loads. rewrite Hj. simpl. rewrite Hfalsy.
    reflexivity.
  - intros info j H Hne Hj Hnd. rewrite (Hstart _ H).
    destruct info as [| c info]; [contradiction |].
    unfold try_except, bind, loads. rewrite Hj.
    destruct j; try reflexivity. destruct (Hnd d). reflexivity.
  - intros e H. rewrite (Hstart _ H). reflexivity.
Qed.

Lemma upload_image_trace (image_url : string) (w : World) :
  sent (snd (upload_image_from_url image_url w))
  = sent w ++ match image_url with
              | EmptyString => []
              | _ => [upload_request image_url]
              end.
Proof.
  unfold upload_image_from_url.
  destruct image_url as [| c s]; [simpl; rewrite app_nil_r; reflexivity |].
  cbn [Text.nonempty negb]. unfold try_except, session_post.
  fold (upload_request (String c s)). rewrite fetch_run.
  destruct (net (upload_request (String c s))) as [msg | response];
    [reflexivity |].
  destruct (http_failed response); [reflexivity |].
  unfold bind, loads.
  destruct (json_loads (text response)) as [j |]; [| reflexivity].
  destruct j; try reflexivity.
  simpl. destruct (dict_get "success" d) as [ok_ |]; [| reflexivity].
  simpl. destruct (truthy ok_); [| reflexivity].
  simpl. destruct (dict_get "data" d) as [inner |]; [| reflexivity].
  simpl. destruct inner; try reflexivity.
  simpl. destruct (dict_get "url" d0); reflexivity.
Qed.

Lemma get_bg_image_run (u : string) (w : World) :
  get_bg_image u w
  = match fetch_error (page_request u), fetched_page u with
    | Some e, _ =>
        (Ok JNull, after_print (MsgBgImageFailed u e)
                     (after_request (page_request u) w))
    | None, Some soup =>
        match background_of soup with
        | Some src => upload_image_from_url src (after_request (page_request u) w)
        | None => (Ok JNull, after_request (page_request u) w)
        end
    | None, None => (Ok JNull, after_request (page_request u) w)
    end.
Proof.
  unfold get_bg_image, try_except, session_get. fold (page_request u).
  rewrite fetch_run. unfold fetch_error, fetched_page, background_of.
  destruct (net (page_request u)) as [msg | response]; [reflexivity |].
  destruct (http_failed response); [reflexivity |].
  destruct (hd_error _) as [a |]; [| reflexivity].
  destruct (Html.attr "data-src" a) as [src |]; [| reflexivity].
  pose proof (upload_image_from_url_never_raises src
                (after_request (page_request u) w)) as Hnr.
  destruct (upload_image_from_url src (after_request (page_request u) w))
    as [[v | e] w1]; [reflexivity |].
  destruct (Hnr e eq_refl).
Qed.

(** X10: the image.  [upload_image_from_url] on an empty URL returns [None]
    and sends nothing.  When the page has no image anchor, or one without
    [data-src] or with an empty one, [get_bg_image] returns [None] after the
    one request for the page; otherwise it returns what the upload of that
    [data-src] returns. *)
Theorem background_image_needs_its_anchor :
  (forall w, upload_image_from_url EmptyString w = (Ok JNull, w))
  /\ (forall u w soup,
        fetched_page u = Some soup ->
        background_of soup = None \/ background_of soup = Some EmptyString ->
        get_bg_image u w = (Ok JNull, after_request (page_request u) w))
  /\ (forall u w soup src,
        fetched_page u = Some soup -> background_of soup = Some src ->
        get_bg_image u w
        = upload_image_from_url src (after_request (page_request u) w)).
Proof.
  assert (Hfetched : forall u soup,
            fetched_page u = Some soup -> fetch_error (page_request u) = None).
  { intros u soup. unfold fetched_page, fetch_error.
    destruct (net (page_request u)) as [msg | response]; [discriminate |].
    destruct (http_failed response); [discriminate | reflexivity]. }
  split; [reflexivity |]. split.
  - intros u w soup Hpage Hbg. rewrite get_bg_image_run.
    rewrite (Hfetched u soup Hpage), Hpage.
    destruct Hbg as [-> | ->]; reflexivity.
  - intros u w soup src Hpage Hbg. rewrite get_bg_image_run.
    rewrite (Hfetched u soup Hpage), Hpage, Hbg. reflexivity.
Qed.

(** ** Further properties: the requests *)

Lemma pool_turns_trace {R S : Type} (P : list Request -> Prop)
    (body : nat -> Result R -> S -> M S) (mw turns : nat) (sched : list Turn)
    (p : Pool R S) :
  Forall (fun t => has_trace P (snd t)) (pool_tasks p) ->
  (forall i r acc w, sent (snd (body i r acc w)) = sent w) ->
  exists news,
    sent (pool_world (pool_turns body mw turns sched p))
    = sent (pool_world p) ++ concat news
    /\ Forall P news
    /\ (length news <= length (pool_tasks p))%nat.
Proof.
  intros Htasks Hbody.
  assert (H : Forall (fun t => has_trace P (snd t))
                (pool_tasks (pool_turns body mw turns sched p))
              /\ exists news,
                   sent (pool_world (pool_turns body mw turns sched p))
                   = sent (pool_world p) ++ concat news
                   /\ Forall P news
                   /\ (length news
                       + length (pool_tasks (pool_turns body mw turns sched p))
                       <= length (pool_tasks p))%nat).
  { apply (pool_turns_inv body mw
             (fun q => Forall (fun t => has_trace P (snd t)) (pool_tasks q)
                       /\ exists news,
                            sent (pool_world q) = sent (pool_world p) ++ concat news
                            /\ Forall P news
                            /\ (length news + length (pool_tasks q)
                                <= length (pool_tasks p))%nat)).
    - intros k q q' [Ht (news & E & HP & Hlen)] Hw.
      split; [eapply pool_tasks_work; eassumption |].
      destruct (work_inv mw k q q' Hw) as (i & task & snap & Hin & Hperm & Eq & _).
      rewrite List.Forall_forall in Ht.
      destruct (Ht (i, task) Hin (pool_world q)) as (new & Enew & Hnew).
      apply Permutation_length in Hperm. cbn [length] in Hperm.
      exists (news ++ [new]). rewrite Eq at 1. cbn [pool_world snd] in *.
      rewrite Enew, E, concat_app. cbn [concat]. rewrite app_nil_r, app_assoc.
      split; [reflexivity |].
      split; [apply Forall_app; split; [exact HP | constructor; [exact Hnew | constructor]] |].
      rewrite length_app. cbn [length]. lia.
    - intros k q q' [Ht (news & E & HP & Hlen)] Hc.
      rewrite (pool_tasks_collect body k q q' Hc). split; [exact Ht |].
      exists news.
      destruct (collect_inv body k q q' Hc)
        as [[_ ->] | (f & found & found' & waiting' & _ & _ & ->)];
        [auto |].
      rewrite yield_to_inv. cbn [pool_world]. rewrite Hbody. auto.
    - split; [exact Htasks |]. exists []. cbn [concat]. rewrite app_nil_r.
      split; [reflexivity |]. split; [constructor | cbn [length]; lia]. }
  destruct H as [_ (news & E & HP & Hlen)]. exists news.
  split; [exact E |]. split; [exact HP | lia].
Qed.

Lemma pool3_trace {A B C : Type} (Pa Pb Pc : list Request -> Prop)
    (sched : list nat) (a : M A) (b : M B) (c : M C) (w : World) :
  has_trace Pa a -> has_trace Pb b -> has_trace Pc c ->
  exists na nb nc new,
    sent (snd (pool3 sched a b c w)) = sent w ++ new
    /\ Pa na /\ Pb nb /\ Pc nc
    /\ length new = (length na + length nb + length nc)%nat
    /\ forall r, In r new <-> In r na \/ In r nb \/ In r nc.
Proof using.
  clear net parse_html json_loads json_dumps.
  intros Ha Hb Hc. unfold pool3.
  destruct (hd O sched mod 3)%nat as [| [| n]];
    destruct (hd O (tl sched) mod 2)%nat as [| n'];
    repeat match goal with
      | |- context [a ?x] =>
          let H := fresh "Ta" in
          pose proof (Ha x) as H; destruct (a x) as [? ?];
          destruct H as (na & Ea & HPa); cbn [fst snd] in Ea
      | |- context [b ?x] =>
          let H := fresh "Tb" in
          pose proof (Hb x) as H; destruct (b x) as [? ?];
          destruct H as (nb & Eb & HPb); cbn [fst snd] in Eb
      | |- context [c ?x] =>
          let H := fresh "Tc" in
          pose proof (Hc x) as H; destruct (c x) as [? ?];
          destruct H as (nc & Ec & HPc); cbn [fst snd] in Ec
      end;
    cbn [fst snd]; exists na, nb, nc; eexists;
    (split; [repeat first [rewrite Ea | rewrite Eb | rewrite Ec];
             rewrite <- !app_assoc; reflexivity |]);
    (split; [exact HPa |]); (split; [exact HPb |]); (split; [exact HPc |]);
    (split; [rewrite !length_app; lia |]);
    intros req; rewrite !in_app_iff; tauto.
Qed.

Lemma collect_result_quiet links i r acc (w : World) :
  sent (snd (collect_result links i r acc w)) = sent w.
Proof.
  rewrite collect_result_run. destruct r as [[[k v] |] | e]; reflexivity.
Qed.

Lemma get_postid_trace (u : string) (w : World) :
  exists new,
    sent (snd (get_postid u w)) = sent w ++ new /\ sublist new [page_request u].
Proof.
  destruct (Html.assoc u (postid_cache w)) as [v |] eqn:Hhit.
  - exists []. rewrite (get_postid_hit u w v Hhit). simpl. rewrite app_nil_r.
    split; [reflexivity | apply sublist_nil_l].
  - exists [page_request u]. split; [apply (get_postid_miss u w Hhit) | reflexivity].
Qed.

Lemma get_episode_embed_trace (u : string) (w : World) :
  exists new postid,
    sent (snd (get_episode_embed u w)) = sent (snd (get_postid u w)) ++ new
    /\ sublist new [embed_request u postid].
Proof.
  destruct (fst (get_postid u w)) as [[postid |] | e] eqn:Hid.
  - destruct postid as [| c postid].
    + exists [], EmptyString.
      rewrite (get_episode_embed_without_postid u w (or_intror Hid)).
      simpl. rewrite app_nil_r. split; [reflexivity | apply sublist_nil_l].
    + exists [embed_request u (String c postid)], (String c postid).
      rewrite (get_episode_embed_with_postid u (String c postid) w Hid)
        by discriminate.
      split; [| reflexivity].
      destruct (fetch_error (embed_request u (String c postid)));
        destruct (net (embed_request u (String c postid))); reflexivity.
  - exists [], EmptyString.
    rewrite (get_episode_embed_without_postid u w (or_introl Hid)).
    simpl. rewrite app_nil_r. split; [reflexivity | apply sublist_nil_l].
  - exists [], EmptyString. unfold get_episode_embed, bind.
    destruct (get_postid u w) as [r w1]; cbn [fst snd] in *. subst r.
    simpl. rewrite app_nil_r. split; [reflexivity | apply sublist_nil_l].
Qed.

Lemma process_episode_link_quiet (link : string) (index ep_num : N)
    (w : World) :
  episode_number_or link index = Ok ep_num ->
  sent (snd (process_episode_link link index w))
  = sent (snd (get_episode_embed link w)).
Proof.
  intros Hnum. unfold process_episode_link. unfold bind at 1. unfold eval.
  rewrite Hnum. unfold bind at 1.
  destruct (get_episode_embed link w) as [[[info |] | e] w1]; try reflexivity.
  destruct info as [| c info]; [reflexivity |].
  unfold try_except, bind, loads.
  destruct (json_loads (String c info)) as [j |]; [| reflexivity].
  destruct j; try reflexivity.
  simpl. destruct (truthy _); reflexivity.
Qed.

(** X11: a task sends at most two requests, in this order: the request for
    the page of its link, unless the post identifier is remembered, and
    the AJAX request for that link.  Neither is sent twice. *)
Theorem episode_task_sends_each_request_once (link : string) (index : N)
    (w : World) :
  exists new postid,
    sent (snd (process_episode_link link index w)) = sent w ++ new
    /\ sublist new [page_request link; embed_request link postid].
Proof.
  destruct (episode_number_or link index) as [ep_num | e] eqn:Hnum.
  - destruct (get_postid_trace link w) as (n1 & E1 & S1).
    destruct (get_episode_embed_trace link w) as (n2 & postid & E2 & S2).
    exists (n1 ++ n2), postid.
    rewrite (process_episode_link_quiet link index ep_num w Hnum), E2, E1,
      <- app_assoc.
    split; [reflexivity |].
    apply (sublist_app n1 [page_request link] n2 [embed_request link postid]);
      assumption.
  - exists [], EmptyString.
    rewrite (process_episode_link_no_number link index w e Hnum).
    cbn [snd]. rewrite app_nil_r. split; [reflexivity | apply sublist_nil_l].
Qed.

Lemma episode_requests_facts (links : list string) (new : list Request) :
  episode_requests links new ->
  (length new <= 2)%nat
  /\ Forall (fun r => exists link,
               link ∈ links
               /\ (r = page_request link \/ exists postid, r = embed_request link postid))
       new.
Proof.
  intros (link & postid & Hlink & Hsub). split.
  - apply sublist_length in Hsub. exact Hsub.
  - apply Forall_forall. intros r Hr.
    pose proof (elem_of_sublist _ _ _ Hr Hsub) as Hin.
    exists link. split; [exact Hlink |].
    apply elem_of_cons in Hin as [-> | Hin]; [left; reflexivity |].
    apply list_elem_of_singleton in Hin as ->. right. eauto.
Qed.

Lemma concat_length_bound {A : Type} (b : nat) (ls : list (list A)) :
  Forall (fun l => (length l <= b)%nat) ls ->
  (length (concat ls) <= b * length ls)%nat.
Proof.
  induction 1 as [| l ls Hl Hls IH]; simpl; [lia |].
  rewrite length_app. lia.
Qed.

(** X12: whatever the schedule, the fan-out over [n] links sends at most
    [2 n] requests, and each of them is the page request of one of the
    links or the AJAX request for one of them: no list page, no image, no
    other host. *)
Theorem fan_out_sends_two_requests_a_link (sched : list Turn)
    (links : list string) (w : World) :
  exists new,
    sent (snd (fan_out sched links w)) = sent w ++ new
    /\ (length new <= 2 * length links)%nat
    /\ Forall (fun r => exists link,
                 link ∈ links
                 /\ (r = page_request link
                     \/ exists postid, r = embed_request link postid)) new.
Proof.
  unfold fan_out, episode_pool, pool_as_completed. cbn [snd].
  assert (Htasks : Forall (fun t => has_trace (episode_requests links) (snd t))
                     (episode_tasks links)).
  { apply Forall_forall. intros [i m] Hin.
    apply elem_of_lookup_imap in Hin as (j & link & E & Hlink).
    injection E as -> ->. intros w0.
    destruct (episode_task_sends_each_request_once link (N.of_nat (j + 1)) w0)
      as (new & postid & Hnew & Hsub).
    exists new. split; [exact Hnew |]. exists link, postid.
    split; [| exact Hsub]. eapply list_elem_of_lookup_2, Hlink. }
  destruct (pool_turns_trace (episode_requests links) (collect_result links)
              MAX_WORKERS (2 * length (episode_tasks links) + 1) sched
              (mkPool (episode_tasks links) [] [] NotBegun ([] : Dict) [] [] [] w))
    as (news & Hsent & HP & Hcount).
  { unfold pool_tasks. cbn [pool_running pool_queue app]. exact Htasks. }
  { apply collect_result_quiet. }
  exists (concat news). split; [exact Hsent |].
  unfold pool_tasks in Hcount. cbn [pool_running pool_queue app] in Hcount.
  unfold episode_tasks in Hcount. rewrite length_imap in Hcount.
  split.
  - transitivity (2 * length news)%nat; [| lia].
    apply concat_length_bound.
    eapply Forall_impl; [exact HP |]. intros l Hl.
    apply (episode_requests_facts links l Hl).
  - apply Forall_concat.
    eapply Forall_impl; [exact HP |]. intros l Hl.
    apply (episode_requests_facts links l Hl).
Qed.

Lemma page_request_of_the_script (u : string) :
  request_of_the_script (page_request u).
Proof. left. eauto. Qed.

Lemma get_all_episodes_trace (sched : list Turn) (u : string) :
  has_trace (fun new => (length new <= 1 + 2 * length (listed_links u))%nat
                        /\ Forall request_of_the_script new)
    (get_all_episodes sched u).
Proof.
  intros w. unfold get_all_episodes, try_except, session_get.
  fold (page_request u). rewrite fetch_run. unfold listed_links, fetched_page.
  assert (Hone : (length [page_request u] <= 1 + 2 * 0)%nat
                 /\ Forall request_of_the_script [page_request u])
    by (split; [simpl; lia |];
        constructor; [apply page_request_of_the_script | constructor]).
  destruct (net (page_request u)) as [msg | response];
    [exists [page_request u]; split; [reflexivity | exact Hone] |].
  destruct (http_failed response);
    [exists [page_request u]; split; [reflexivity | exact Hone] |].
  set (links := unique_links_from ∅ (episode_hrefs (parse_html (text response)))).
  unfold bind at 1. cbn [print]. unfold bind.
  set (w1 := mkWorld _ _ _ _ _ _).
  destruct (fan_out_sends_two_requests_a_link sched links w1)
    as (new & Hnew & Hlen & Hall).
  pose proof (fan_out_never_raises sched links w1) as Hnr.
  destruct (fan_out sched links w1) as [[eps | e] w2]; cbn [fst snd] in *;
    [| destruct (Hnr e eq_refl)].
  exists (page_request u :: new). simpl. split.
  - rewrite Hnew. unfold w1. simpl. rewrite <- app_assoc. reflexivity.
  - split; [lia |]. constructor; [apply page_request_of_the_script |].
    eapply Forall_impl; [exact Hall |].
    intros r (link & _ & [-> | [postid ->]]);
      [apply page_request_of_the_script | right; left; eauto].
Qed.

Lemma get_bg_image_trace (u : string) :
  has_trace (fun new => (length new <= 2)%nat /\ Forall request_of_the_script new)
    (get_bg_image u).
Proof.
  intros w. rewrite get_bg_image_run.
  assert (Hone : (length [page_request u] <= 2)%nat
                 /\ Forall request_of_the_script [page_request u])
    by (split; [simpl; lia |];
        constructor; [apply page_request_of_the_script | constructor]).
  destruct (fetch_error (page_request u));
    [exists [page_request u]; split; [reflexivity | exact Hone] |].
  destruct (fetched_page u) as [soup |];
    [| exists [page_request u]; split; [reflexivity | exact Hone]].
  destruct (background_of soup) as [src |];
    [| exists [page_request u]; split; [reflexivity | exact Hone]].
  rewrite upload_image_trace. simpl.
  destruct src as [| c s].
  - exists [page_request u]. rewrite app_nil_r. split; [reflexivity | exact Hone].
  - exists [page_request u; upload_request (String c s)].
    rewrite <- app_assoc. split; [reflexivity |]. split; [simpl; lia |].
    constructor; [apply page_request_of_the_script |].
    constructor; [right; right; eauto | constructor].
Qed.

Lemma extract_info_trace (u : string) :
  has_trace (fun new => (length new <= 1)%nat /\ Forall request_of_the_script new)
    (extract_info u).
Proof.
  intros w. exists [page_request u]. split.
  - unfold extract_info, try_except, session_get. fold (page_request u).
    rewrite fetch_run.
    destruct (net (page_request u)) as [msg | response]; [reflexivity |].
    destruct (http_failed response); [reflexivity |].
    destruct (Html.soup_find _ _); reflexivity.
  - split; [simpl; lia |].
    constructor; [apply page_request_of_the_script | constructor].
Qed.

(** The requests of a run of [scrape_and_save]: each is one of the
    three the script builds, and with [n] unique episode links on the page
    there are [4 + 2 n] at most. *)
Lemma scrape_and_save_requests (outer : list nat) (inner : list Turn)
    (base_url : string) (w : World) :
  exists new,
    sent (snd (scrape_and_save outer inner base_url w)) = sent w ++ new
    /\ (length new <= 4 + 2 * length (listed_links base_url))%nat
    /\ Forall request_of_the_script new.
Proof.
  assert (Hquiet : forall w',
            sent w' = sent w ->
            exists new, sent w' = sent w ++ new
              /\ (length new <= 4 + 2 * length (listed_links base_url))%nat
              /\ Forall request_of_the_script new).
  { intros w' E. exists []. rewrite app_nil_r. split; [exact E |].
    split; [simpl; lia | constructor]. }
  destruct (Text.startswith base_url SITE_PREFIX) eqn:Hurl;
    [| rewrite (scrape_and_save_invalid outer inner base_url w Hurl);
       apply Hquiet; reflexivity].
  destruct (fresh_in w (cache_file_of base_url)) eqn:Hfresh.
  - unfold fresh_in in Hfresh.
    destruct (files w !! cache_file_of base_url) as [f |] eqn:Hf; [| discriminate].
    apply Qltb_lt in Hfresh.
    rewrite (scrape_and_save_cached outer inner base_url w f Hurl Hf Hfresh).
    apply Hquiet. reflexivity.
  - destruct (scrape_and_save_fetches outer inner base_url w Hurl Hfresh)
      as (episodes & img & info & w3 & Hpool & _ & _ & Hrun).
    destruct (pool3_trace _ _ _ outer (get_all_episodes inner base_url)
                (get_bg_image base_url) (extract_info base_url)
                (after_print (MsgScraping base_url) (after_makedirs w))
                (get_all_episodes_trace inner base_url)
                (get_bg_image_trace base_url) (extract_info_trace base_url))
      as (na & nb & nc & new & Hsent & [La Fa] & [Lb Fb] & [Lc Fc] & Hlen & Hin).
    rewrite Hpool in Hsent. cbn [fst snd] in Hsent.
    exists new. rewrite Hrun.
    split; [destruct episodes; exact Hsent |].
    split; [lia |].
    apply List.Forall_forall. intros r Hr. apply Hin in Hr.
    rewrite List.Forall_forall in Fa, Fb, Fc.
    destruct Hr as [Hr | [Hr | Hr]]; auto.
Qed.

(** X13: the requests of a run of [scrape_and_save].  Each is one of
    three: a GET of a page with the session's [User-Agent] and no body, the
    POST to the AJAX endpoint with its fixed headers and payload, or the
    POST of the upload form; the form, which holds the API key, goes to the
    image host only.  With [n] unique episode links on the page, at most
    [4 + 2 n] requests are sent. *)
Theorem requests_of_a_run (outer : list nat) (inner : list Turn)
    (base_url : string) (w : World) :
  exists new,
    sent (snd (scrape_and_save outer inner base_url w)) = sent w ++ new
    /\ (length new <= 4 + 2 * length (listed_links base_url))%nat
    /\ Forall request_of_the_script new
    /\ Forall (fun r =>
                 In ("User-Agent", USER_AGENT) (headers r)
                 /\ forall fields,
                      data r = FormBody fields ->
                      method r = POST /\ url r = IMG_BB_UPLOAD_URL) new.
Proof.
  destruct (scrape_and_save_requests outer inner base_url w)
    as (new & Hsent & Hlen & Hscript).
  exists new. split; [exact Hsent |]. split; [exact Hlen |].
  split; [exact Hscript |].
  eapply Forall_impl; [exact Hscript |].
  intros r [[u ->] | [(u & postid & ->) | [img ->]]]; simpl;
    (split; [left; reflexivity |]); intros fields H;
    try discriminate H; split; reflexivity.
Qed.
(** ** Further properties: the pool of [get_all_episodes] *)

(** X20: in the pool of [get_all_episodes], whatever the order in which
    the tasks are picked and end, and in which their futures are handed
    out, at no time more than [MAX_WORKERS] tasks run, every link of the
    list gets one task that ends once, and every record of the resulting
    mapping is the record of one of the links, under the key of the number
    derived for that link. *)
Theorem every_link_gets_one_task (sched : list Turn) (links : list string)
    (w : World) :
  Forall (fun snap => (length snap <= MAX_WORKERS)%nat)
    (pool_snapshots (episode_pool sched links w))
  /\ Permutation (map fst (pool_completed (episode_pool sched links w)))
       (seq 0 (length links))
  /\ Permutation (pool_yielded (episode_pool sched links w))
       (pool_completed (episode_pool sched links w))
  /\ forall k rec episodes,
       fst (fan_out sched links w) = Ok episodes ->
       dict_get k episodes = Some rec ->
       exists i link ep_num embed_url type_,
         links !! i = Some link
         /\ episode_number_or link (N.of_nat (i + 1)) = Ok ep_num
         /\ k = Text.str_of_N ep_num
         /\ rec = episode_record ep_num link embed_url type_.
Proof.
  destruct (fan_out_association sched links w)
    as (Hcap & Hperm & Hhanded & Hown & Horigin).
  split; [exact Hcap |]. split; [exact Hperm |]. split; [exact Hhanded |].
  intros k rec episodes Hrun Hget.
  destruct (Horigin k rec episodes Hrun Hget) as [i Hin].
  rewrite List.Forall_forall in Hown.
  destruct (Hown _ Hin k rec eq_refl)
    as (link & n & Hlink & Hn & Hk & embed_url & type_ & Hrec).
  exists i, link, n, embed_url, type_. repeat split; assumption.
Qed.


(** ** Further properties: which results are kept *)

Lemma omap_NoDup_lookup {A B : Type} (f : A -> option B) (l : list A) :
  forall i j x y b,
    NoDup (omap f l) -> l !! i = Some x -> l !! j = Some y ->
    f x = Some b -> f y = Some b -> i = j.
Proof using.
  clear net parse_html json_loads json_dumps.
  induction l as [| a l IH]; intros i j x y b Hnd Hi Hj Hx Hy;
    [discriminate Hi |].
  change (omap f (a :: l))
    with (match f a with Some c => c :: omap f l | None => omap f l end) in Hnd.
  assert (Htail : NoDup (omap f l))
    by (destruct (f a); [apply NoDup_cons in Hnd as [_ Hnd] |]; exact Hnd).
  assert (Hhead : forall k z, l !! k = Some z -> f z = Some b -> f a = Some b ->
                              False).
  { intros k z Hk Hz Ha. rewrite Ha in Hnd. apply NoDup_cons in Hnd as [Hb _].
    apply Hb. apply list_elem_of_omap. exists z.
    split; [eapply list_elem_of_lookup_2, Hk | exact Hz]. }
  destruct i as [| i], j as [| j]; cbn in Hi, Hj.
  - reflexivity.
  - injection Hi as ->. destruct (Hhead j y Hj Hy Hx).
  - injection Hj as ->. destruct (Hhead i x Hi Hx Hy).
  - f_equal. eapply IH; eassumption.
Qed.

(** With pairwise distinct numbers, two links of the same number are the
    same link of the list. *)
Lemma derived_numbers_inj (links : list string) (i j : nat) (li lj : string)
    (n : N) :
  NoDup (derived_numbers links) ->
  links !! i = Some li -> links !! j = Some lj ->
  episode_number_or li (N.of_nat (i + 1)) = Ok n ->
  episode_number_or lj (N.of_nat (j + 1)) = Ok n ->
  i = j.
Proof.
  intros Hnd Hi Hj Hni Hnj. unfold derived_numbers in Hnd.
  eapply (omap_NoDup_lookup _ _ i j _ _ n Hnd).
  - rewrite list_lookup_imap, Hi. reflexivity.
  - rewrite list_lookup_imap, Hj. reflexivity.
  - cbn. rewrite Hni. reflexivity.
  - cbn. rewrite Hnj. reflexivity.
Qed.

Lemma successes_app (d1 d2 : list (nat * Result (option (string * Json)))) :
  successes (d1 ++ d2) = successes d1 ++ successes d2.
Proof. unfold successes. apply omap_app. Qed.

Lemma successes_key (done : list (nat * Result (option (string * Json))))
    (k : string) :
  In k (map fst (successes done)) ->
  exists i rec, In (i, Ok (Some (k, rec))) done.
Proof.
  intros Hin. apply in_map_iff in Hin as ([k' rec] & E & Hin). simpl in E. subst k'.
  unfold successes in Hin. rewrite <- list_elem_of_In in Hin.
  apply list_elem_of_omap in Hin as ([i r] & Hin & Hr). simpl in Hr.
  destruct r as [[kv |] | e]; try discriminate. injection Hr as ->.
  exists i, rec. apply list_elem_of_In. exact Hin.
Qed.

(** With pairwise distinct numbers, the record of every task that
    succeeds is in the mapping under its key. *)
Lemma distinct_numbers_keep_all (sched : list Turn) (links : list string)
    (w : World) (episodes : Dict) :
  NoDup (derived_numbers links) ->
  fst (fan_out sched links w) = Ok episodes ->
  forall i k rec,
    In (i, Ok (Some (k, rec))) (pool_completed (episode_pool sched links w)) ->
    dict_get k episodes = Some rec.
Proof.
  intros Hnums Hout i k rec Hin.
  rewrite fan_out_result in Hout. injection Hout as <-.
  destruct (fan_out_association sched links w)
    as (_ & Hids & Hhanded & Hown & _).
  rewrite List.Forall_forall in Hown.
  assert (Hinj : forall j rec',
            In (j, Ok (Some (k, rec')))
              (pool_completed (episode_pool sched links w)) -> j = i).
  { intros j rec' Hj.
    destruct (Hown _ Hin k rec eq_refl) as (li & n & Hli & Hn & Ek & _).
    destruct (Hown _ Hj k rec' eq_refl) as (lj & n' & Hlj & Hn' & Ek' & _).
    cbn [fst] in *. rewrite Ek in Ek'. apply str_of_N_inj in Ek'. subst n'.
    apply (derived_numbers_inj links j i lj li n Hnums Hlj Hli Hn' Hn). }
  assert (Hnd : NoDup (map fst (pool_yielded (episode_pool sched links w)))).
  { rewrite Hhanded, Hids. apply NoDup_ListNoDup, seq_NoDup. }
  rewrite <- Hhanded in Hin.
  assert (Hyield : forall j rec',
            In (j, Ok (Some (k, rec')))
              (pool_yielded (episode_pool sched links w)) -> j = i).
  { intros j rec' Hj. apply (Hinj j rec'). rewrite <- Hhanded. exact Hj. }
  clear Hinj Hids Hown.
  set (done := pool_yielded (episode_pool sched links w)) in *.
  destruct (in_split _ _ Hin) as (d1 & d2 & Hsplit).
  rewrite Hsplit, successes_app. cbn [successes omap snd].
  change (omap _ d2) with (successes d2).
  apply store_all_last. intros Hk.
  apply successes_key in Hk as (j & rec' & Hj).
  assert (Hj' : In (j, Ok (Some (k, rec'))) done)
    by (rewrite Hsplit; apply in_or_app; right; right; exact Hj).
  pose proof (Hyield j rec' Hj') as ->.
  rewrite Hsplit, map_app in Hnd. simpl in Hnd.
  apply NoDup_app in Hnd as (_ & _ & Hnd).
  apply NoDup_cons in Hnd as [Hi _]. apply Hi.
  apply list_elem_of_In, in_map_iff. exists (i, Ok (Some (k, rec'))). auto.
Qed.

(** X14: when the numbers derived for the links are pairwise distinct,
    nothing is lost: whatever the order in which the tasks end and their
    futures are handed out, the record of every task that succeeds is in
    the mapping that the fan-out returns, under the key of its number. *)
Theorem distinct_numbers_lose_no_episode (sched : list Turn)
    (links : list string) (w : World) (episodes : Dict) :
  NoDup (derived_numbers links) ->
  fst (fan_out sched links w) = Ok episodes ->
  forall i k rec,
    In (i, Ok (Some (k, rec))) (pool_completed (episode_pool sched links w)) ->
    dict_get k episodes = Some rec
    /\ exists link ep_num,
         links !! i = Some link
         /\ episode_number_or link (N.of_nat (i + 1)) = Ok ep_num
         /\ k = Text.str_of_N ep_num.
Proof.
  intros Hnums Hout i k rec Hin.
  split; [apply (distinct_numbers_keep_all sched links w episodes Hnums Hout i k rec Hin) |].
  destruct (fan_out_association sched links w) as (_ & _ & _ & Hown & _).
  rewrite List.Forall_forall in Hown.
  destruct (Hown _ Hin k rec eq_refl) as (link & n & Hlink & Hn & Hk & _).
  exists link, n. auto.
Qed.

Lemma numbers_of_links_without_group (links : list string) :
  (forall link, link ∈ links -> extract_episode_number link = Ok None) ->
  derived_numbers links = (fun i => N.of_nat (i + 1)) <$> seq 0 (length links).
Proof.
  intros Hnone. unfold derived_numbers.
  rewrite <- (imap_seq_0 links (fun i => N.of_nat (i + 1))).
  assert (E : imap (fun i link => episode_number_or link (N.of_nat (i + 1))) links
              = imap (fun i _ => Ok (N.of_nat (i + 1))) links).
  { apply imap_ext. intros i link Hlink. unfold episode_number_or.
    rewrite (Hnone link); [reflexivity |]. eapply list_elem_of_lookup_2, Hlink. }
  rewrite E. clear E Hnone.
  assert (Hgen : forall (g : nat -> N) (l : list string),
            omap (fun r : Result N =>
                    match r with Ok n => Some n | Raise _ => None end)
              (imap (fun i _ => Ok (g i)) l)
            = imap (fun i _ => g i) l).
  { intros g l. revert g. induction l as [| x l IH]; intros g; [reflexivity |].
    rewrite !imap_cons.
    change (omap ?f (Ok (g 0%nat) :: ?t)) with (g 0%nat :: omap f t).
    f_equal. apply (IH (fun i => g (S i))). }
  apply (Hgen (fun i => N.of_nat (i + 1))).
Qed.

(** X15: when no link holds a number group, the keys are the positions
    1, 2, ... in the list of unique links, and every successful episode is
    kept under the key of its position. *)
Theorem links_without_a_number_are_keyed_by_position (sched : list Turn)
    (links : list string) (w : World) (episodes : Dict) :
  (forall link, link ∈ links -> extract_episode_number link = Ok None) ->
  fst (fan_out sched links w) = Ok episodes ->
  forall i k rec,
    In (i, Ok (Some (k, rec))) (pool_completed (episode_pool sched links w)) ->
    k = Text.str_of_N (N.of_nat (i + 1)) /\ dict_get k episodes = Some rec.
Proof.
  intros Hnone Hout i k rec Hin.
  pose proof (numbers_of_links_without_group links Hnone) as Hnums.
  assert (Hnd : NoDup (derived_numbers links)).
  { rewrite Hnums. apply NoDup_fmap_2; [| apply NoDup_ListNoDup, seq_NoDup].
    intros a b H. apply Nat2N.inj in H. lia. }
  split; [| apply (distinct_numbers_keep_all sched links w episodes Hnd Hout i k rec Hin)].
  destruct (fan_out_association sched links w) as (_ & _ & _ & Hown & _).
  rewrite List.Forall_forall in Hown.
  destruct (Hown _ Hin k rec eq_refl) as (link & n & Hlink & Hn & -> & _).
  cbn [fst] in *. unfold episode_number_or in Hn.
  rewrite (Hnone link) in Hn by (eapply list_elem_of_lookup_2, Hlink).
  injection Hn as <-. reflexivity.
Qed.

(** ** Further properties: the runs of [scrape_and_save] *)

Lemma get_all_episodes_found (sched : list Turn) (u : string) (w : World) :
  fetch_error (page_request u) = None ->
  exists episodes, fst (get_all_episodes sched u w) = Ok (Some episodes).
Proof.
  intros H. unfold get_all_episodes, try_except, session_get.
  fold (page_request u). rewrite fetch_run. unfold fetch_error in H.
  destruct (net (page_request u)) as [msg | response]; [discriminate |].
  destruct (http_failed response); [discriminate |].
  unfold bind at 1. cbn [print]. unfold bind.
  set (w1 := mkWorld _ _ _ _ _ _).
  pose proof (fan_out_never_raises sched
                (unique_links_from ∅ (episode_hrefs (parse_html (text response))))
                w1) as Hnr.
  destruct (fan_out sched _ w1) as [[eps | e] w2];
    [eexists; reflexivity | destruct (Hnr e eq_refl)].
Qed.

(** The run on a URL of the site with a stale or missing cache file, by
    the outcome of the fetch of its page. *)
Lemma scrape_and_save_stale (outer : list nat) (inner : list Turn) (base_url : string)
    (w : World) :
  Text.startswith base_url SITE_PREFIX = true ->
  fresh_in w (cache_file_of base_url) = false ->
  dirs (snd (scrape_and_save outer inner base_url w)) = {["cache"]} ∪ dirs w
  /\ match fetch_error (page_request base_url) with
     | Some _ =>
         fst (scrape_and_save outer inner base_url w) = Ok ExitNoEpisodes
         /\ files (snd (scrape_and_save outer inner base_url w)) = files w
     | None =>
         fst (scrape_and_save outer inner base_url w) = Ok ExitSaved
         /\ exists img_url info episodes,
              files (snd (scrape_and_save outer inner base_url w))
              = <[cache_file_of base_url :=
                    mkFile (json_dumps (data_to_save base_url img_url info episodes))
                      (clock w)]> (files w)
     end.
Proof.
  intros Hurl Hstale.
  destruct (scrape_and_save_fetches outer inner base_url w Hurl Hstale)
    as (episodes & img & info & w3 & Hpool & Hfiles & Hclock & Hrun).
  destruct (fetch_all_spec outer inner base_url
              (after_print (MsgScraping base_url) (after_makedirs w)))
    as (e' & i' & n' & w3' & Hpool' & _ & Hdirs & _ & [wa Ha] & _).
  rewrite Hpool in Hpool'. injection Hpool' as <- <- <- <-.
  rewrite Hrun. split; [destruct episodes; exact Hdirs |].
  destruct (fetch_error (page_request base_url)) as [e |] eqn:Herr.
  - rewrite (get_all_episodes_fetch_failed inner base_url wa e Herr) in Ha.
    injection Ha as <-. split; [reflexivity | exact Hfiles].
  - destruct (get_all_episodes_found inner base_url wa Herr) as [eps Heps].
    rewrite Heps in Ha. injection Ha as <-. split; [reflexivity |].
    exists img, info, eps. simpl. rewrite Hfiles, Hclock. reflexivity.
Qed.

(** X16: which way a run of [scrape_and_save] ends is decided by the URL,
    the cache file and the fetch of the page: a URL of another site is
    refused; a cache file less than a day old ends the run; a failed fetch
    of the page ends it with nothing written; otherwise the file is
    written.  Only that last way changes a file, and every run on a URL of
    the site leaves the directory [cache] made. *)
Theorem exit_of_a_run (outer : list nat) (inner : list Turn) (base_url : string) (w : World) :
  fst (scrape_and_save outer inner base_url w) = Ok (expected_exit base_url w)
  /\ (expected_exit base_url w <> ExitSaved ->
      files (snd (scrape_and_save outer inner base_url w)) = files w)
  /\ (Text.startswith base_url SITE_PREFIX = true ->
      dirs (snd (scrape_and_save outer inner base_url w)) = {["cache"]} ∪ dirs w).
Proof.
  unfold expected_exit.
  destruct (Text.startswith base_url SITE_PREFIX) eqn:Hurl; cbn [negb].
  - destruct (fresh_in w (cache_file_of base_url)) eqn:Hfresh.
    + unfold fresh_in in Hfresh.
      destruct (files w !! cache_file_of base_url) as [f |] eqn:Hf; [| discriminate].
      apply Qltb_lt in Hfresh.
      rewrite (scrape_and_save_cached outer inner base_url w f Hurl Hf Hfresh).
      repeat split.
    + destruct (scrape_and_save_stale outer inner base_url w Hurl Hfresh)
        as [Hdirs Hend].
      destruct (fetch_error (page_request base_url)).
      * destruct Hend as [-> Hfiles]. split; [reflexivity |].
        split; [intros _; exact Hfiles | intros _; exact Hdirs].
      * destruct Hend as [-> _]. split; [reflexivity |].
        split; [intros H; destruct H; reflexivity | intros _; exact Hdirs].
  - rewrite (scrape_and_save_invalid outer inner base_url w Hurl).
    split; [reflexivity |]. split; [reflexivity | discriminate].
Qed.

(** X17: refreshed at most once a day.  After a run that saved, a run for
    the same URL less than a day later ends by the cached path, sends no
    request and leaves the files as they are; a run a day later or more does
    not end by the cached path. *)
Theorem saved_title_is_left_alone_for_a_day (outer : list nat) (inner : list Turn)
    (base_url : string) (w w' : World) :
  scrape_and_save outer inner base_url w = (Ok ExitSaved, w') ->
  forall outer2 inner2 dt,
    ((dt < ONE_DAY)%Q ->
     fst (scrape_and_save outer2 inner2 base_url (later_by dt w')) = Ok ExitCached
     /\ sent (snd (scrape_and_save outer2 inner2 base_url (later_by dt w')))
        = sent w'
     /\ files (snd (scrape_and_save outer2 inner2 base_url (later_by dt w')))
        = files w')
    /\ ((ONE_DAY <= dt)%Q ->
        fst (scrape_and_save outer2 inner2 base_url (later_by dt w'))
        <> Ok ExitCached).
Proof.
  intros H outer2 inner2 dt.
  destruct (scrape_and_save_saved_inv _ _ _ _ _ H) as [Hurl _].
  destruct (scrape_and_save_saved _ _ _ _ _ H)
    as (img & info & eps & _ & _ & _ & _ & _ & _ & _ & _ & Hfiles & Hclock & _).
  set (f := mkFile (json_dumps (data_to_save base_url img info eps)) (clock w)) in *.
  assert (Hf : files (later_by dt w') !! cache_file_of base_url = Some f)
    by (simpl; rewrite Hfiles; apply lookup_insert_eq).
  split.
  - intros Hdt.
    assert (Hage : (clock (later_by dt w') - mtime f < ONE_DAY)%Q).
    { simpl. rewrite Hclock. unfold ONE_DAY in *. lra. }
    rewrite (scrape_and_save_cached outer2 inner2 base_url _ f Hurl Hf Hage).
    repeat split.
  - intros Hdt.
    assert (Hstale : fresh_in (later_by dt w') (cache_file_of base_url) = false).
    { unfold fresh_in. rewrite Hf. apply Qltb_ge. simpl. rewrite Hclock.
      unfold ONE_DAY in *. lra. }
    destruct (scrape_and_save_stale outer2 inner2 base_url (later_by dt w')
                Hurl Hstale) as [_ Hend].
    destruct (fetch_error (page_request base_url));
      destruct Hend as [-> _]; discriminate.
Qed.

(** X3: a run of [scrape_and_save] changes no file but its cache file, and
    that file lies in the directory [cache] whatever the URL holds: its
    path is [cache/<name>.json] with a name of word characters and dashes,
    so without a slash or a dot. *)
Theorem only_the_cache_file_is_written (outer : list nat) (inner : list Turn)
    (base_url : string) (w : World) (path : string) :
  files (snd (scrape_and_save outer inner base_url w)) !! path <> files w !! path ->
  path = cache_file_of base_url
  /\ exists name,
       path = "cache/" +:+ name +:+ ".json"
       /\ all_chars (fun c => Text.is_word c || Text.is_dash c) name.
Proof.
  intros Hchanged.
  assert (Hpath : path = cache_file_of base_url).
  { destruct (decide (path = cache_file_of base_url)) as [E | Hne]; [exact E |].
    destruct Hchanged.
    destruct (Text.startswith base_url SITE_PREFIX) eqn:Hurl;
      [| rewrite (scrape_and_save_invalid outer inner base_url w Hurl);
         reflexivity].
    destruct (fresh_in w (cache_file_of base_url)) eqn:Hfresh.
    - unfold fresh_in in Hfresh.
      destruct (files w !! cache_file_of base_url) as [f |] eqn:Hf; [| discriminate].
      apply Qltb_lt in Hfresh.
      rewrite (scrape_and_save_cached outer inner base_url w f Hurl Hf Hfresh).
      reflexivity.
    - destruct (scrape_and_save_stale outer inner base_url w Hurl Hfresh)
        as [_ Hend].
      destruct (fetch_error (page_request base_url)).
      + destruct Hend as [_ ->]. reflexivity.
      + destruct Hend as [_ (img & info & eps & ->)].
        apply lookup_insert_ne. congruence. }
  split; [exact Hpath |].
  exists (sanitize_filename (get_anime_name_from_url base_url)).
  split; [exact Hpath | apply filter_chars_all].
Qed.

(** ** Further properties: the script run as a program *)

Lemma scrape_each_cons (x : Json) (rest : list Json) scheds (w : World) :
  scrape_each scheds (x :: rest) w
  = match py_strip x w with
    | (Ok u, w1) =>
        match scrape_and_save (fst (hd ([], []) scheds)) (snd (hd ([], []) scheds))
                u w1 with
        | (Ok _, w2) => scrape_each (tl scheds) rest (snd (sleep 1 w2))
        | (Raise e, w2) => (Raise e, w2)
        end
    | (Raise e, w1) => (Raise e, w1)
    end.
Proof.
  cbn [scrape_each]. unfold bind.
  destruct (py_strip x w) as [[u | e] w1]; [| reflexivity].
  destruct (scrape_and_save _ _ u w1) as [[how | e] w2]; reflexivity.
Qed.

Lemma scrape_each_app (l1 l2 : list Json) : forall scheds w,
  scrape_each scheds (l1 ++ l2) w
  = match fst (scrape_each scheds l1 w) with
    | Ok _ => scrape_each (drop (length l1) scheds) l2 (snd (scrape_each scheds l1 w))
    | Raise e => (Raise e, snd (scrape_each scheds l1 w))
    end.
Proof.
  induction l1 as [| x l1 IH]; intros scheds w; [reflexivity |].
  cbn [app length]. rewrite !scrape_each_cons.
  destruct (py_strip x w) as [[u | e] w1]; [| reflexivity].
  destruct (scrape_and_save _ _ u w1) as [[how | e] w2]; [| reflexivity].
  rewrite IH. destruct scheds; [cbn [tl]; rewrite !drop_nil |]; reflexivity.
Qed.

Lemma scrape_each_strings (urls : list string) : forall scheds w,
  fst (scrape_each scheds (map JStr urls) w) = Ok tt.
Proof.
  induction urls as [| u urls IH]; intros scheds w; [reflexivity |].
  cbn [map]. rewrite scrape_each_cons. cbn [py_strip]. unfold ret.
  pose proof (scrape_and_save_never_raises (fst (hd ([], []) scheds))
                (snd (hd ([], []) scheds)) (Text.strip u) w) as Hnr.
  destruct (scrape_and_save _ _ (Text.strip u) w) as [[how | e] w1];
    [apply IH | destruct (Hnr e eq_refl)].
Qed.

(** X18: the links file.  When [all_anime_links.json] is missing, is not
    JSON, is JSON but not an object, or is an object whose [anime_links] is
    missing or empty, [__main__] ends on its one line of output: nothing is
    fetched, written or changed. *)
Theorem main_without_usable_links (scheds : list (list nat * list Turn))
    (w : World) :
  (files w !! LINKS_FILE = None -> main scheds w = (Ok LinksFileMissing, w))
  /\ (forall f,
        files w !! LINKS_FILE = Some f -> json_loads (content f) = None ->
        main scheds w = (Ok LinksNotJson, w))
  /\ (forall f j,
        files w !! LINKS_FILE = Some f -> json_loads (content f) = Some j ->
        (forall d, j <> JDict d) ->
        main scheds w = (Ok (UnexpectedError AttributeError), w))
  /\ (forall f d,
        files w !! LINKS_FILE = Some f ->
        json_loads (content f) = Some (JDict d) ->
        truthy (match dict_get "anime_links" d with
                | Some v => v
                | None => JList []
                end) = false ->
        main scheds w = (Ok NoLinksFound, w)).
Proof.
  unfold main. split; [| split; [| split]].
  - intros ->. reflexivity.
  - intros f -> Hj. unfold try_except, bind, loads. rewrite Hj. reflexivity.
  - intros f j -> Hj Hnd. unfold try_except, bind, loads. rewrite Hj.
    destruct j; try reflexivity. destruct (Hnd d). reflexivity.
  - intros f d -> Hj Hfalsy. unfold try_except, bind, loads. rewrite Hj.
    simpl. rewrite Hfalsy. reflexivity.
Qed.

(** X19: the loop over the links.  [__main__] never ends on an exception.
    The links are scraped in the order of the file; an entry that is not a
    string stops the loop with [AttributeError] of [.strip], caught as an
    unexpected error: the links before it have been scraped, those after it
    are never looked at. *)
Theorem main_stops_at_an_entry_that_is_no_string :
  (forall scheds w, exists how, fst (main scheds w) = Ok how)
  /\ (forall scheds urls bad rest w,
        (forall s, bad <> JStr s) ->
        scrape_each scheds (map JStr urls ++ bad :: rest) w
        = (Raise AttributeError, snd (scrape_each scheds (map JStr urls) w)))
  /\ (forall scheds urls bad rest w f d,
        (forall s, bad <> JStr s) ->
        files w !! LINKS_FILE = Some f ->
        json_loads (content f) = Some (JDict d) ->
        dict_get "anime_links" d = Some (JList (map JStr urls ++ bad :: rest)) ->
        main scheds w
        = (Ok (UnexpectedError AttributeError),
           snd (scrape_each scheds (map JStr urls) w))).
Proof.
  assert (Hstop : forall scheds urls bad rest w,
            (forall s, bad <> JStr s) ->
            scrape_each scheds (map JStr urls ++ bad :: rest) w
            = (Raise AttributeError, snd (scrape_each scheds (map JStr urls) w))).
  { intros scheds urls bad rest w Hbad.
    rewrite scrape_each_app, scrape_each_strings, scrape_each_cons.
    destruct bad; try reflexivity. destruct (Hbad s). reflexivity. }
  split; [| split; [exact Hstop |]].
  - intros scheds w. unfold main.
    destruct (files w !! LINKS_FILE) as [f |]; [| eexists; reflexivity].
    match goal with
    | |- context [try_except ?m _ w] => generalize m; intros body
    end.
    unfold try_except.
    destruct (body w) as [[how | e] w1]; [eexists; reflexivity |].
    destruct e; eexists; reflexivity.
  - intros scheds urls bad rest w f d Hbad Hf Hj Hlinks.
    unfold main. rewrite Hf. unfold try_except, bind at 1, loads.
    rewrite Hj. unfold ret at 1. unfold bind at 1. cbn [py_get_default].
    rewrite Hlinks. unfold ret at 1.
    assert (Htruthy : truthy (JList (map JStr urls ++ bad :: rest)) = true)
      by (destruct urls; reflexivity).
    rewrite Htruthy. cbn [negb iterate]. unfold bind at 1. unfold ret at 1.
    unfold bind at 1. rewrite (Hstop scheds urls bad rest w Hbad). reflexivity.
Qed.

(** The requests of the loop of [__main__] are those of its calls of
    [scrape_and_save]. *)
Lemma scrape_each_requests (links : list Json) :
  forall scheds w,
    exists new,
      sent (snd (scrape_each scheds links w)) = sent w ++ new
      /\ Forall request_of_the_script new.
Proof.
  induction links as [| x links IH]; intros scheds w.
  { exists []. rewrite app_nil_r. split; [reflexivity | constructor]. }
  rewrite scrape_each_cons.
  assert (Hquiet : exists new,
            sent w = sent w ++ new /\ Forall request_of_the_script new)
    by (exists []; rewrite app_nil_r; split; [reflexivity | constructor]).
  destruct x; cbn [py_strip]; unfold raise, ret; try exact Hquiet.
  destruct (scrape_and_save_requests (fst (hd ([], []) scheds))
              (snd (hd ([], []) scheds)) (Text.strip s) w)
    as (new1 & Hsent1 & _ & Hall1).
  destruct (scrape_and_save _ _ (Text.strip s) w) as [[how | e] w2];
    cbn [snd] in Hsent1; [| exists new1; split; assumption].
  destruct (IH (tl scheds) (snd (sleep 1 w2))) as (new2 & Hsent2 & Hall2).
  exists (new1 ++ new2). split.
  - rewrite Hsent2. cbn [sleep snd sent]. rewrite Hsent1, app_assoc. reflexivity.
  - apply Forall_app. split; assumption.
Qed.

Lemma main_requests (scheds : list (list nat * list Turn)) (w : World) :
  exists new,
    sent (snd (main scheds w)) = sent w ++ new
    /\ Forall request_of_the_script new.
Proof.
  assert (Hquiet : exists new,
            sent w = sent w ++ new /\ Forall request_of_the_script new)
    by (exists []; rewrite app_nil_r; split; [reflexivity | constructor]).
  unfold main. destruct (files w !! LINKS_FILE) as [f |]; [| exact Hquiet].
  unfold try_except, bind at 1, loads.
  destruct (json_loads (content f)) as [j |]; [| exact Hquiet].
  unfold ret at 1. unfold bind at 1.
  destruct j; cbn [py_get_default]; unfold raise; try exact Hquiet.
  unfold ret at 1.
  set (anime_links := match dict_get "anime_links" d with
                      | Some v => v
                      | None => JList []
                      end).
  destruct (truthy anime_links); cbn [negb]; [| exact Hquiet].
  unfold bind at 1.
  destruct anime_links; cbn [iterate]; unfold raise, ret at 1; try exact Hquiet.
  all: unfold bind at 1.
  all: match goal with
       | |- context [scrape_each ?ss ?l ?w0] =>
           destruct (scrape_each_requests l ss w0) as (new & Hsent & Hall);
           destruct (scrape_each ss l w0) as [[[] | e] w1];
           cbn [snd] in Hsent; exists new; split; try assumption
       end.
  all: destruct e; assumption.
Qed.

(** C8, as amended: every request sent by the script, in a run of
    [scrape_and_save] and so in a run of [__main__], is a page fetch, the
    AJAX call or the image upload, and carries a timeout fixed by its
    kind: 10 seconds for a page fetch, which is a GET, and for the AJAX
    call, which is the POST to [ADMIN_URL]; 15 seconds for the image
    upload, which is the POST to the upload URL of the image host.  No
    request goes without a timeout or with another one. *)
Theorem every_request_carries_its_deadline :
  (forall outer inner base_url w,
     exists new,
       sent (snd (scrape_and_save outer inner base_url w)) = sent w ++ new
       /\ Forall (fun r =>
                    ((exists u, r = page_request u)
                     \/ (exists u postid, r = embed_request u postid)
                     \/ (exists image_url, r = upload_request image_url))
                    /\ carries_its_deadline r) new)
  /\ (forall scheds w,
        exists new,
          sent (snd (main scheds w)) = sent w ++ new
          /\ Forall (fun r =>
                       ((exists u, r = page_request u)
                        \/ (exists u postid, r = embed_request u postid)
                        \/ (exists image_url, r = upload_request image_url))
                       /\ carries_its_deadline r) new)
  /\ (forall u, method (page_request u) = GET
                /\ url (page_request u) = u
                /\ timeout (page_request u) = Some 10%Z)
  /\ (forall u postid,
        method (embed_request u postid) = POST
        /\ url (embed_request u postid) = ADMIN_URL
        /\ timeout (embed_request u postid) = Some 10%Z)
  /\ (forall image_url,
        method (upload_request image_url) = POST
        /\ url (upload_request image_url) = IMG_BB_UPLOAD_URL
        /\ timeout (upload_request image_url) = Some 15%Z).
Proof.
  assert (Hkind : forall r,
            request_of_the_script r ->
            ((exists u, r = page_request u)
             \/ (exists u postid, r = embed_request u postid)
             \/ (exists image_url, r = upload_request image_url))
            /\ carries_its_deadline r).
  { intros r Hr. split; [exact Hr |].
    destruct Hr as [[u ->] | [(u & postid & ->) | [img ->]]];
      unfold carries_its_deadline; cbn [method url timeout page_request
        embed_request upload_request]; auto. }
  split.
  { intros outer inner base_url w.
    destruct (scrape_and_save_requests outer inner base_url w)
      as (new & Hsent & _ & Hscript).
    exists new. split; [exact Hsent |].
    eapply Forall_impl; [exact Hscript | exact Hkind]. }
  split.
  { intros scheds w.
    destruct (main_requests scheds w) as (new & Hsent & Hscript).
    exists new. split; [exact Hsent |].
    eapply Forall_impl; [exact Hscript | exact Hkind]. }
  repeat split.
Qed.
End Program.

(** ** The claims on the small site *)

(** A URL of another host is refused. *)
Lemma invalid_url_returns_at_once_witness :
  Text.startswith Site.ELSEWHERE SITE_PREFIX = false
  /\ scrape_and_save Site.net Site.parse_html Site.json_loads Site.json_dumps
       [] [] Site.ELSEWHERE Site.start
     = (Ok ExitInvalidUrl,
        mkWorld ∅ ∅ 1700000000 [] [MsgInvalidUrl Site.ELSEWHERE] []).
Proof.
  split; [reflexivity |].
  exact (invalid_url_returns_at_once Site.net Site.parse_html Site.json_loads
           Site.json_dumps [] [] Site.ELSEWHERE Site.start eq_refl).
Defined.

(** An hour after the cache file was written, nothing is fetched. *)
Lemma fresh_cache_is_not_refetched_witness :
  Text.startswith Site.TITLE SITE_PREFIX = true
  /\ fst (scrape_and_save Site.net Site.parse_html Site.json_loads
            Site.json_dumps [] [] Site.TITLE Site.with_fresh_cache)
     = Ok ExitCached
  /\ sent (snd (scrape_and_save Site.net Site.parse_html Site.json_loads
                  Site.json_dumps [] [] Site.TITLE Site.with_fresh_cache))
     = sent Site.with_fresh_cache
  /\ files (snd (scrape_and_save Site.net Site.parse_html Site.json_loads
                   Site.json_dumps [] [] Site.TITLE Site.with_fresh_cache))
     = files Site.with_fresh_cache.
Proof.
  split; [reflexivity |].
  destruct (fresh_cache_is_not_refetched Site.net Site.parse_html
              Site.json_loads Site.json_dumps [] [] Site.TITLE
              Site.with_fresh_cache eq_refl) as [H _].
  apply (H (mkFile "{}" 1699996400)); vm_compute; reflexivity.
Defined.

(** The run on the title, two days after its file was written: the file
    is written anew with the record of the run, and the links file beside
    it is as before. *)
Lemma cache_file_overwritten_wholesale_witness :
  fst (scrape_and_save Site.net Site.parse_html Site.json_loads Site.json_dumps
         [] [] Site.TITLE Site.with_stale_cache) = Ok ExitSaved
  /\ files Site.with_stale_cache !! cache_file_of Site.TITLE
     = Some (mkFile "{}" 1699827200)
  /\ (exists img_url info episodes,
        files (snd (scrape_and_save Site.net Site.parse_html Site.json_loads
                      Site.json_dumps [] [] Site.TITLE Site.with_stale_cache))
          !! cache_file_of Site.TITLE
        = Some (mkFile
                  (Site.json_dumps
                     (data_to_save Site.TITLE img_url info episodes))
                  1700000000))
  /\ files (snd (scrape_and_save Site.net Site.parse_html Site.json_loads
                   Site.json_dumps [] [] Site.TITLE Site.with_stale_cache))
       !! "all_anime_links.json"
     = Some (mkFile "{}" 1699827200).
Proof.
  assert (H : scrape_and_save Site.net Site.parse_html Site.json_loads
                Site.json_dumps [] [] Site.TITLE Site.with_stale_cache
              = (Ok ExitSaved,
                 snd (scrape_and_save Site.net Site.parse_html Site.json_loads
                        Site.json_dumps [] [] Site.TITLE Site.with_stale_cache)))
    by (vm_compute; reflexivity).
  destruct (cache_file_overwritten_wholesale _ _ _ _ _ _ _ _ _ H)
    as (img_url & info & episodes & w3 & _ & Hfiles & Hother & _).
  split; [rewrite H; reflexivity |].
  split; [vm_compute; reflexivity |]. split.
  - exists img_url, info, episodes. rewrite Hfiles. apply lookup_insert_eq.
  - rewrite Hother; [reflexivity |]. vm_compute. discriminate.
Defined.

(** The record saved for the title has the shape of the amended claim. *)
Lemma saved_record_shape_witness :
  exists img_url info episodes,
    files (snd (scrape_and_save Site.net Site.parse_html Site.json_loads
                  Site.json_dumps [] [] Site.TITLE Site.start))
      !! cache_file_of Site.TITLE
    = Some (mkFile
              (Site.json_dumps
                 (JDict [ ("success", JBool true); ("base_url", JStr Site.TITLE);
                          ("imgUrl", img_url); ("info", info);
                          ("episodes", JDict episodes) ]))
              (clock Site.start))
    /\ (info_record info \/ error_record info)
    /\ Forall episode_entry episodes.
Proof.
  assert (H : scrape_and_save Site.net Site.parse_html Site.json_loads
                Site.json_dumps [] [] Site.TITLE Site.start
              = (Ok ExitSaved,
                 snd (scrape_and_save Site.net Site.parse_html Site.json_loads
                        Site.json_dumps [] [] Site.TITLE Site.start)))
    by (vm_compute; reflexivity).
  destruct (saved_record_shape _ _ _ _ _ _ _ _ _ H)
    as (img_url & info & episodes & Hfile & _ & Hinfo & Heps & _).
  exists img_url, info, episodes. auto.
Defined.


(** The URL of a movie holds no season name. *)
Lemma unmatched_urls_share_one_cache_file_witness :
  ~ matches_seasons_pattern Site.MOVIE
  /\ get_anime_name_from_url Site.MOVIE = "unknown_anime"
  /\ cache_file_of Site.MOVIE = "cache/unknown_anime.json".
Proof.
  assert (H : ~ matches_seasons_pattern Site.MOVIE).
  { intros Hm. apply search_seasons_name_complete in Hm as [name E].
    vm_compute in E. discriminate E. }
  split; [exact H |].
  destruct (unmatched_urls_share_one_cache_file Site.net Site.parse_html
              Site.json_loads Site.json_dumps Site.MOVIE H) as (Hn & Hf & _).
  split; [exact Hn | exact Hf].
Defined.



(** C8 as it is written fails on the title: its page is fetched with a
    deadline of 10 seconds and its image is uploaded with one of 15. *)
Lemma deadlines_differ :
  ~ same_deadline_everywhere
      (sent (snd (scrape_and_save Site.net Site.parse_html Site.json_loads
                    Site.json_dumps [] [] Site.TITLE Site.start))).
Proof.
  intros [t H].
  assert (Hget : In (page_request Site.TITLE)
                   (sent (snd (scrape_and_save Site.net Site.parse_html
                                 Site.json_loads Site.json_dumps [] []
                                 Site.TITLE Site.start))))
    by (vm_compute; tauto).
  assert (Hpost : In (upload_request Site.IMAGE)
                    (sent (snd (scrape_and_save Site.net Site.parse_html
                                  Site.json_loads Site.json_dumps [] []
                                  Site.TITLE Site.start))))
    by (vm_compute; tauto).
  rewrite List.Forall_forall in H.
  pose proof (H _ Hget) as H10. pose proof (H _ Hpost) as H15.
  simpl in H10, H15. congruence.
Qed.

(** C4 as it is written fails on the page without info box: the record
    saved holds an error record under [info], neither null nor a record of
    genres and description. *)
Lemma saved_info_is_an_error_record :
  fst (scrape_and_save Site.net Site.parse_html Site.json_loads Site.json_dumps
         [] [] Site.BARE Site.start) = Ok ExitSaved
  /\ files (snd (scrape_and_save Site.net Site.parse_html Site.json_loads
                   Site.json_dumps [] [] Site.BARE Site.start))
       !! cache_file_of Site.BARE
     = Some (mkFile
               (Site.json_dumps
                  (JDict
                     [ ("success", JBool true); ("base_url", JStr Site.BARE);
                       ("imgUrl", JNull);
                       ("info", JDict [("error", JStr "media-box not found")]);
                       ("episodes",
                        JDict [("1", episode_record 1 Site.BARE_EP
                                       (JStr "https://video.example/e/201")
                                       (JStr "iframe"))]) ]))
               1700000000)
  /\ ~ info_as_specified (JDict [("error", JStr "media-box not found")]).
Proof.
  split; [vm_compute; reflexivity |]. split; [vm_compute; reflexivity |].
  intros [H | (genres & content & H & _)]; discriminate H.
Qed.


(** C1 on the title: the two links are distinct and both tasks succeed,
    each with the key ["2"]; the mapping returned holds one of the two
    records only, and which one depends on the order in which the tasks
    end and on the order in which [as_completed] hands out the futures it
    finds finished. *)
Theorem colliding_keys_drop_a_result :
  Site.EP1 <> Site.EP2
  /\ fst (process_episode_link Site.net Site.parse_html Site.json_loads
            Site.EP1 1 Site.start)
     = Ok (Some ("2", episode_record 2 Site.EP1
                        (JStr "https://video.example/e/101") (JStr "iframe")))
  /\ fst (process_episode_link Site.net Site.parse_html Site.json_loads
            Site.EP2 2 Site.start)
     = Ok (Some ("2", episode_record 2 Site.EP2
                        (JStr "https://video.example/e/102") (JStr "iframe")))
  /\ fst (fan_out Site.net Site.parse_html Site.json_loads [] [Site.EP1; Site.EP2]
            Site.start)
     = Ok [("2", episode_record 2 Site.EP2
                   (JStr "https://video.example/e/102") (JStr "iframe"))]
  /\ fst (fan_out Site.net Site.parse_html Site.json_loads [Worker 1]
            [Site.EP1; Site.EP2] Site.start)
     = Ok [("2", episode_record 2 Site.EP1
                   (JStr "https://video.example/e/101") (JStr "iframe"))]
  /\ fst (fan_out Site.net Site.parse_html Site.json_loads
            [Worker 0; Worker 0; Main 0; Main 1] [Site.EP1; Site.EP2] Site.start)
     = Ok [("2", episode_record 2 Site.EP1
                   (JStr "https://video.example/e/101") (JStr "iframe"))].
Proof.
  split; [apply String.eqb_neq; reflexivity |].
  repeat split; vm_compute; reflexivity.
Qed.

(** C5 on the title: the two episode pages are distinct, the number
    derived for both is 2, the season, and the mapping returned by
    [get_all_episodes] has the single key ["2"], in both orders of
    completion. *)
Theorem distinct_urls_share_a_key :
  Site.EP1 <> Site.EP2
  /\ extract_episode_number Site.EP1 = Ok (Some 2%N)
  /\ extract_episode_number Site.EP2 = Ok (Some 2%N)
  /\ episode_number_or Site.EP1 1 = episode_number_or Site.EP2 2
  /\ (exists rec,
        fst (get_all_episodes Site.net Site.parse_html Site.json_loads []
               Site.TITLE Site.start) = Ok (Some [("2", rec)]))
  /\ (exists rec,
        fst (get_all_episodes Site.net Site.parse_html Site.json_loads
               [Worker 1] Site.TITLE Site.start) = Ok (Some [("2", rec)])).
Proof.
  split; [apply String.eqb_neq; reflexivity |].
  split; [reflexivity |]. split; [reflexivity |]. split; [reflexivity |].
  split; eexists; vm_compute; reflexivity.
Qed.

(** ** The regular expressions on sample URLs *)

Example episode_number_at_the_end :
  extract_episode_number "one-piece-12" = Ok (Some 12%N).
Proof. reflexivity. Qed.

Example episode_number_before_a_slash :
  extract_episode_number "https://web.animerco.org/episodes/one-piece-12/"
  = Ok None.
Proof. reflexivity. Qed.

Example episode_number_is_the_first_group :
  extract_episode_number "show-2-episode-7" = Ok (Some 2%N).
Proof. reflexivity. Qed.

Example episode_number_zero_gives_way_to_the_index :
  episode_number_or "show-0-special" 5 = Ok 5%N.
Proof. reflexivity. Qed.

Example name_of_a_season :
  get_anime_name_from_url "https://web.animerco.org/seasons/one-piece-1/"
  = "one-piece-1".
Proof. reflexivity. Qed.

Example sanitized_name :
  sanitize_filename "one piece: red!" = "one_piece_red".
Proof. reflexivity. Qed.

Example stripped_text : Text.strip "  A story. " = "A story.".
Proof. reflexivity. Qed.

(** ** Numbers that [int] refuses *)

Example episode_number_of_4300_digits :
  extract_episode_number ("show-" +:+ PyJson.zeros 4299 +:+ "7") = Ok (Some 7%N).
Proof. vm_compute. reflexivity. Qed.

Example episode_number_of_4301_digits :
  extract_episode_number Lab.LONG = Raise ValueError
  /\ episode_number_or Lab.LONG 1 = Raise ValueError.
Proof. split; vm_compute; reflexivity. Qed.

(** ** The text of an element *)

(** The description of the title holds a comment and a script; neither is
    part of its text. *)
Example text_leaves_out_comments_and_scripts :
  Html.text
    (Html.Element "p" [] []
       [ Html.TextNode " A story. "; Html.OtherString " draft ";
         Html.Element "script" [] [] [Html.OtherString "var x = 1;"] ])
  = " A story. "
  /\ fst (extract_info Site.net Site.parse_html Site.TITLE Site.start)
     = Ok (JDict [ ("genres", JList [ JDict [("text", JStr "Action")];
                                      JDict [("text", JStr "Drama")] ]);
                   ("content", JStr "A story.") ]).
Proof. split; vm_compute; reflexivity. Qed.

(** ** The text of the cache file *)

Example dumps_indents_by_two :
  PyJson.dumps (JDict [("a", JList [JInt 1; JNull]); ("b", JDict [])])
  = "{" +:+ PyJson.newline
    +:+ "  " +:+ dq +:+ "a" +:+ dq +:+ ": [" +:+ PyJson.newline
    +:+ "    1," +:+ PyJson.newline
    +:+ "    null" +:+ PyJson.newline
    +:+ "  ]," +:+ PyJson.newline
    +:+ "  " +:+ dq +:+ "b" +:+ dq +:+ ": {}" +:+ PyJson.newline
    +:+ "}".
Proof. vm_compute. reflexivity. Qed.

(** ** The further properties on the small site *)

Lemma only_the_cache_file_is_written_witness :
  files (snd (scrape_and_save Site.net Site.parse_html Site.json_loads
                Site.json_dumps [] [] Site.TITLE Site.start))
    !! "cache/show-season-2.json"
  <> files Site.start !! "cache/show-season-2.json"
  /\ "cache/show-season-2.json" = cache_file_of Site.TITLE.
Proof.
  assert (H : files (snd (scrape_and_save Site.net Site.parse_html
                            Site.json_loads Site.json_dumps [] [] Site.TITLE
                            Site.start))
                !! "cache/show-season-2.json"
              <> files Site.start !! "cache/show-season-2.json")
    by (vm_compute; discriminate).
  split; [exact H |].
  destruct (only_the_cache_file_is_written Site.net Site.parse_html
              Site.json_loads Site.json_dumps [] [] Site.TITLE Site.start
              "cache/show-season-2.json" H) as [Hpath _].
  exact Hpath.
Defined.

Lemma season_name_is_recovered_witness :
  "one-piece-1" <> EmptyString
  /\ has_no_slash "one-piece-1"
  /\ get_anime_name_from_url
       (Text.SEASONS_PREFIX +:+ "one-piece-1" +:+ "/" +:+ "episodes")
     = "one-piece-1".
Proof.
  assert (Hne : "one-piece-1" <> EmptyString) by discriminate.
  assert (Hns : has_no_slash "one-piece-1").
  { intros c H. simpl in H.
    repeat (destruct H as [<- | H]; [reflexivity |]). destruct H. }
  split; [exact Hne |]. split; [exact Hns |].
  exact (season_name_is_recovered "one-piece-1" "episodes" Hne Hns).
Defined.

Lemma get_postid_answer_is_remembered_witness :
  fst (get_postid Site.net Site.parse_html Site.EP1 Site.start) = Ok (Some "101")
  /\ sent (snd (get_postid Site.net Site.parse_html Site.EP1
                  (snd (get_postid Site.net Site.parse_html Site.EP1 Site.start))))
     = sent (snd (get_postid Site.net Site.parse_html Site.EP1 Site.start)).
Proof.
  assert (H : fst (get_postid Site.net Site.parse_html Site.EP1 Site.start)
              = Ok (Some "101")) by reflexivity.
  split; [exact H |].
  destruct (get_postid_answer_is_remembered Site.net Site.parse_html Site.EP1
              Site.start (Some "101") H) as (_ & Hsent & _).
  exact Hsent.
Defined.

Lemma get_postid_keeps_cache_within_bounds_witness :
  cache_within_bounds Site.start
  /\ cache_within_bounds
       (snd (get_postid Site.net Site.parse_html Site.EP1 Site.start)).
Proof.
  assert (H : cache_within_bounds Site.start)
    by (split; [simpl; lia | constructor]).
  split; [exact H |].
  exact (get_postid_keeps_cache_within_bounds Site.net Site.parse_html Site.EP1
           Site.start H).
Defined.

Lemma get_postid_exception_is_not_remembered_witness :
  fst (get_postid Lab.net Lab.parse_html Lab.NO_VALUE Site.start)
  = Raise (KeyError "value")
  /\ sent (snd (get_postid Lab.net Lab.parse_html Lab.NO_VALUE
                  (snd (get_postid Lab.net Lab.parse_html Lab.NO_VALUE Site.start))))
     = sent Site.start ++ [page_request Lab.NO_VALUE; page_request Lab.NO_VALUE].
Proof.
  assert (H : fst (get_postid Lab.net Lab.parse_html Lab.NO_VALUE Site.start)
              = Raise (KeyError "value")) by reflexivity.
  split; [exact H |].
  destruct (get_postid_exception_is_not_remembered Lab.net Lab.parse_html
              Lab.NO_VALUE Site.start (KeyError "value") H) as (_ & _ & _ & Hsent).
  exact Hsent.
Defined.

Lemma distinct_numbers_lose_no_episode_witness :
  NoDup (derived_numbers [Lab.SOLO1; Lab.SOLO2])
  /\ In (1%nat,
         Ok (Some ("2", episode_record 2 Lab.SOLO2
                          (JStr "https://video.example/e/302") (JStr "iframe"))))
       (pool_completed
          (episode_pool Lab.net Lab.parse_html Lab.json_loads [Worker 1]
             [Lab.SOLO1; Lab.SOLO2] Site.start))
  /\ dict_get "2"
       [ ("2", episode_record 2 Lab.SOLO2 (JStr "https://video.example/e/302")
                 (JStr "iframe"));
         ("1", episode_record 1 Lab.SOLO1 (JStr "https://video.example/e/301")
                 (JStr "iframe")) ]
     = Some (episode_record 2 Lab.SOLO2 (JStr "https://video.example/e/302")
               (JStr "iframe")).
Proof.
  assert (Hnums : NoDup (derived_numbers [Lab.SOLO1; Lab.SOLO2])).
  { vm_compute. apply NoDup_cons. split; [| apply NoDup_singleton].
    intros H. apply list_elem_of_singleton in H. discriminate H. }
  assert (Hin : In (1%nat,
                    Ok (Some ("2", episode_record 2 Lab.SOLO2
                                     (JStr "https://video.example/e/302")
                                     (JStr "iframe"))))
                  (pool_completed
                     (episode_pool Lab.net Lab.parse_html Lab.json_loads
                        [Worker 1] [Lab.SOLO1; Lab.SOLO2] Site.start)))
    by (vm_compute; tauto).
  split; [exact Hnums |]. split; [exact Hin |].
  refine (proj1 (distinct_numbers_lose_no_episode Lab.net Lab.parse_html
                   Lab.json_loads [Worker 1] [Lab.SOLO1; Lab.SOLO2] Site.start
                   _ Hnums _ 1%nat "2" _ Hin)).
  vm_compute. reflexivity.
Defined.

Lemma links_without_a_number_are_keyed_by_position_witness :
  (forall link,
     link ∈ [Lab.SOLO1; Lab.SOLO2] -> extract_episode_number link = Ok None)
  /\ "1" = Text.str_of_N (N.of_nat (0 + 1))
  /\ dict_get "1"
       [ ("2", episode_record 2 Lab.SOLO2 (JStr "https://video.example/e/302")
                 (JStr "iframe"));
         ("1", episode_record 1 Lab.SOLO1 (JStr "https://video.example/e/301")
                 (JStr "iframe")) ]
     = Some (episode_record 1 Lab.SOLO1 (JStr "https://video.example/e/301")
               (JStr "iframe")).
Proof.
  assert (Hnone : forall link,
            link ∈ [Lab.SOLO1; Lab.SOLO2] ->
            extract_episode_number link = Ok None).
  { intros link H. apply elem_of_cons in H as [-> | H]; [reflexivity |].
    apply list_elem_of_singleton in H as ->. reflexivity. }
  split; [exact Hnone |].
  refine (links_without_a_number_are_keyed_by_position Lab.net
            Lab.parse_html Lab.json_loads [Worker 1] [Lab.SOLO1; Lab.SOLO2]
            Site.start _ Hnone _ 0%nat "1"
            (episode_record 1 Lab.SOLO1 (JStr "https://video.example/e/301")
               (JStr "iframe")) _).
  - vm_compute. reflexivity.
  - vm_compute. tauto.
Defined.

Lemma saved_title_is_left_alone_for_a_day_witness :
  fst (scrape_and_save Site.net Site.parse_html Site.json_loads Site.json_dumps
         [1%nat] [] Site.TITLE
         (later_by 3600
            (snd (scrape_and_save Site.net Site.parse_html Site.json_loads
                    Site.json_dumps [] [] Site.TITLE Site.start))))
  = Ok ExitCached.
Proof.
  assert (H : scrape_and_save Site.net Site.parse_html Site.json_loads
                Site.json_dumps [] [] Site.TITLE Site.start
              = (Ok ExitSaved,
                 snd (scrape_and_save Site.net Site.parse_html Site.json_loads
                        Site.json_dumps [] [] Site.TITLE Site.start)))
    by (vm_compute; reflexivity).
  destruct (saved_title_is_left_alone_for_a_day _ _ _ _ _ _ _ _ _ H
              [1%nat] [] 3600) as [Hsoon _].
  apply Hsoon. vm_compute. reflexivity.
Defined.

(** The script on a links file of three entries: the first is scraped,
    the second is a number and ends the loop, the third is never looked
    at. *)
Example main_on_a_links_file :
  fst (main Lab.net Lab.parse_html Lab.json_loads Site.json_dumps []
         Lab.with_links_file)
  = Ok (UnexpectedError AttributeError)
  /\ dom (files (snd (main Lab.net Lab.parse_html Lab.json_loads
                        Site.json_dumps [] Lab.with_links_file)))
     = ({["all_anime_links.json"; "cache/bare.json"]} : gset string).
Proof. split; vm_compute; reflexivity. Qed.
